(** * FontModule: the font resource manager of CoilSnake's EarthBound modules

    A shallow embedding of [coilsnake/modules/eb/FontModule.py].

    The module is an orchestrator: almost every line is a call on a
    collaborator (the ROM buffer and its allocator, the pointer table, the
    font codec, the project resource store, the image library).  The
    embedding keeps that shape.  A method is a program of type [Prog A]: a
    finite tree whose nodes are the calls the method makes, in the order the
    source makes them, and whose leaves are a normal return or a raised
    exception.  A [Handler] supplies the collaborators; [run] interprets a
    program against a handler and records the calls and their answers.
    Theorems quantified over every handler hold whatever the collaborators
    do. *)

From stdpp Require Import gmap strings list fin_maps pretty.
From Equations Require Import Equations.

Local Open Scope Z_scope.

(** ** Exceptions

    Every constructor stands for an instance of a subclass of Python's
    [Exception]; this is what [except Exception] catches. *)

Inductive exn : Type :=
| IndexError
| TypeError
| OutOfRangeError
| BufferBoundsError
| AllocationError (size : Z)
| ResourceMissingError (name : string)
| OtherException (msg : string).

Definition result (A : Type) : Type := exn + A.

(** ** Data *)

(** Modelled from the spec: [coilsnake.model.eb.fonts.EbFont] and its tileset
    are not part of the sources.  Section 3 gives a font a character count, a
    tile width and height, a tileset and a width table.  The pixel content and
    the widths are carried as plain data; only the collaborators look at
    them. *)
Record EbGraphicTileset : Type := {
  tile_width : Z;
  tile_height : Z;
  tiles : list (list Z)
}.

Record EbFont : Type := {
  num_characters : Z;
  tileset : EbGraphicTileset;
  character_widths : list Z
}.

(** [EbFont(num_characters=n, tile_width=w, tile_height=h)] *)
Definition new_EbFont (n w h : Z) : EbFont :=
  {| num_characters := n;
     tileset := {| tile_width := w; tile_height := h; tiles := [] |};
     character_widths := [] |}.

(** Modelled from the spec: [EbCreditsFont] is not part of the sources.
    Section 3: a fixed-layout font with its own graphics and a small fixed
    palette. *)
Record EbCreditsFont : Type := {
  credits_tiles : list (list Z);
  credits_palette : list Z
}.

Definition new_EbCreditsFont : EbCreditsFont :=
  {| credits_tiles := []; credits_palette := [] |}.

(** Modelled from the spec: the table class behind [eb_table_from_offset] is
    not part of the sources.  The module reads and assigns two attributes of
    it, [num_rows] and [values], and indexes it as [table[i][j]]; a row is a
    Python list of integers. *)
Record EbTable : Type := {
  num_rows : Z;
  values : list (list Z)
}.

(** Modelled from the spec: the two reference classes of
    [coilsnake.util.eb.pointer] are not part of the sources.  Section 3: a
    reference is a triple of patch site, encoding kind and an optional offset
    that defaults to 0. *)
Inductive PointerKind : Type := Xl | Asm.

Record PointerReference : Type := {
  kind : PointerKind;
  offset : Z;
  pointer_offset : Z
}.

Definition XlPointerReference (site : Z) (patch : Z) : PointerReference :=
  {| kind := Xl; offset := site; pointer_offset := patch |}.

Definition AsmPointerReference (site : Z) : PointerReference :=
  {| kind := Asm; offset := site; pointer_offset := 0 |}.

(** Modelled from the spec: [PointerReference.write] is not part of the
    sources.  Section 4.2: the value stored at the site is the address it is
    given plus the reference's patch offset. *)
Definition written_address (p : PointerReference) (address : Z) : Z :=
  address + pointer_offset p.

(** A file object handed out by the resource store. *)
Definition File : Type := nat.

(** The callable passed in as [resource_open], [resource_open_r] or
    [resource_open_w]. *)
Inductive Opener : Type := Reader | Writer.

(** [PIL.Image] in mode "P", as far as [upgrade_project] uses it: a size, a
    palette index per pixel and an optional palette.  A pixel with no entry
    has not been initialised. *)
Record Image : Type := {
  im_width : Z;
  im_height : Z;
  im_data : gmap (Z * Z) Z;
  im_palette : option (list Z)
}.

(** ** Constants of the module *)

Definition FONT_POINTER_TABLE_OFFSET : Z := 0xC3F054.
Definition FONT_POINTER_TABLE_ENTRY_SIZE : Z := 12.
Definition FONT_FILENAMES : list string := ["0"; "1"; "3"; "4"; "2"]%string.

Definition MAX_FONT_INDEX : nat := 64.

Definition CREDITS_GRAPHICS_ASM_POINTER : Z := 0x4f1a7.
Definition CREDITS_PALETTES_ADDRESS : Z := 0x21e914.

Definition FREE_RANGES : list (Z * Z) :=
  [ (0x21e528, 0x21e913);
    (0x210c7a, 0x212ef9);
    (0x201359, 0x201fb8) ].

Definition FONT_POINTER_TABLE_REFERENCES : list PointerReference :=
  [ XlPointerReference 0x43E7E 0;
    XlPointerReference 0x43E84 2;
    AsmPointerReference 0x43E98;
    XlPointerReference 0x440F8 0;
    XlPointerReference 0x440FE 2;
    XlPointerReference 0x4420E 0;
    XlPointerReference 0x44214 2;
    XlPointerReference 0x44284 0;
    XlPointerReference 0x4428A 2;
    AsmPointerReference 0x4433F;
    AsmPointerReference 0x44512;
    AsmPointerReference 0x44761;
    AsmPointerReference 0x44EF4;
    AsmPointerReference 0x4502D;
    AsmPointerReference 0x450EC;
    AsmPointerReference 0x48292;
    AsmPointerReference 0x499AE;
    AsmPointerReference 0x4E593;
    AsmPointerReference 0x4EDB6;
    XlPointerReference 0x2F0205 0;
    XlPointerReference 0x2F020B 2;
    XlPointerReference 0x44363 4;
    XlPointerReference 0x44369 6;
    XlPointerReference 0x47D42 (FONT_POINTER_TABLE_ENTRY_SIZE * 2 + 4);
    XlPointerReference 0x47D48 (FONT_POINTER_TABLE_ENTRY_SIZE * 2 + 6);
    XlPointerReference 0x44551 (FONT_POINTER_TABLE_ENTRY_SIZE * 3 + 4);
    XlPointerReference 0x44557 (FONT_POINTER_TABLE_ENTRY_SIZE * 3 + 6) ].

(** ** Calls on collaborators

    One constructor per call the module makes on an object it does not
    define.  The index is the type of the answer. *)

Inductive Call : Type -> Type :=
(* the ROM and the objects that serialise themselves into it *)
| TableFromBlock (table : EbTable) (at_offset : Z) : Call (list (list Z))
| TableToBlock (table : EbTable) (at_offset : Z) : Call unit
| FontFromBlock (font : EbFont) (tileset_offset character_widths_offset : Z)
    : Call EbFont
| FontToBlock (font : EbFont) : Call (Z * Z)
| RomAllocate (size : Z) : Call Z
| PointerWrite (pointer : PointerReference) (address : Z) : Call unit
| CreditsFromBlock (font : EbCreditsFont)
    (tileset_asm_pointer_offset palette_offset : Z) : Call EbCreditsFont
| CreditsToBlock (font : EbCreditsFont)
    (tileset_asm_pointer_offset palette_offset : Z) : Call unit
(* the project resource store and the objects that serialise into it *)
| ResourceOpen (opener : Opener) (name ext : string) (astext : bool)
    : Call File
| FontFromFiles (font : EbFont) (image_file widths_file : File) : Call EbFont
| FontToFiles (font : EbFont) (image_file widths_file : File) : Call unit
| CreditsFromFiles (font : EbCreditsFont) (image_file : File)
    : Call EbCreditsFont
| CreditsToFiles (font : EbCreditsFont) (image_file : File) : Call unit
(* image and YAML codecs *)
| OpenIndexedImage (image_file : File) : Call Image
| ImageSave (image : Image) (image_file : File) : Call unit
| YmlLoad (widths_file : File) : Call (gmap Z Z)
| YmlDump (widths_dict : gmap Z Z) (widths_file : File) : Call unit.

(** ** Programs *)

Inductive Prog (A : Type) : Type :=
| Ret (a : A)
| Raise (e : exn)
| Vis {X : Type} (c : Call X) (k : result X -> Prog A).

Arguments Ret {A} a.
Arguments Raise {A} e.
Arguments Vis {A X} c k.

Fixpoint bind {A B : Type} (p : Prog A) (f : A -> Prog B) : Prog B :=
  match p with
  | Ret a => f a
  | Raise e => Raise e
  | Vis c k => Vis c (fun r => bind (k r) f)
  end.

Notation "x <- p ;; q" := (bind p (fun x => q))
  (at level 100, p at next level, q at level 200, right associativity).

(** A pure computation that may raise. *)
Definition lift {A : Type} (r : result A) : Prog A :=
  match r with
  | inl e => Raise e
  | inr a => Ret a
  end.

(** A call: the answer is returned, a failure is raised. *)
Definition call {X : Type} (c : Call X) : Prog X := Vis c lift.

(** [try: p except Exception: ...] -- the exception, if any, is handed to the
    continuation instead of being propagated. *)
Fixpoint try_except {A : Type} (p : Prog A) : Prog (result A) :=
  match p with
  | Ret a => Ret (inr a)
  | Raise e => Ret (inl e)
  | Vis c k => Vis c (fun r => try_except (k r))
  end.

(** ** Running a program *)

Inductive Event : Type :=
| Ev {X : Type} (c : Call X) (r : result X).

Definition Handler (W : Type) : Type :=
  forall X : Type, Call X -> W -> result X * W.

Record Outcome (W A : Type) : Type := {
  outcome : result A;
  world : W;
  trace : list Event
}.

Arguments outcome {W A} _.
Arguments world {W A} _.
Arguments trace {W A} _.

Definition after {W A : Type} (ev : Event) (o : Outcome W A) : Outcome W A :=
  {| outcome := outcome o; world := world o; trace := ev :: trace o |}.

Fixpoint run {W A : Type} (h : Handler W) (p : Prog A) (w : W)
  : Outcome W A :=
  match p with
  | Ret a => {| outcome := inr a; world := w; trace := [] |}
  | Raise e => {| outcome := inl e; world := w; trace := [] |}
  | Vis c k =>
      let '(r, w') := h _ c w in
      after (Ev c r) (run h (k r) w')
  end.

(** ** Python idioms *)

(** [l[i]] for a non-negative index. *)
Definition getitem {A : Type} (l : list A) (i : nat) : result A :=
  match l !! i with
  | Some x => inr x
  | None => inl IndexError
  end.

(** [l[i] = x] for a non-negative index: an index past the end raises. *)
Definition setitem {A : Type} (l : list A) (i : nat) (x : A)
  : result (list A) :=
  if decide (i < length l)%nat then inr (<[i := x]> l) else inl IndexError.

Fixpoint enumerate_from {A : Type} (i : nat) (l : list A) : list (nat * A) :=
  match l with
  | [] => []
  | x :: l' => (i, x) :: enumerate_from (S i) l'
  end.

Definition enumerate {A : Type} (l : list A) : list (nat * A) :=
  enumerate_from 0 l.

(** [range(a, b)] over indices, and over integers. *)
Definition range (a b : nat) : list nat := seq a (b - a).

Definition rangeZ (a b : Z) : list Z := seqZ a (b - a).

(** [for x in l: s = body(x, s)] *)
Fixpoint for_each {A S : Type} (l : list A) (body : A -> S -> Prog S) (s : S)
  : Prog S :=
  match l with
  | [] => Ret s
  | x :: l' => s' <- body x s ;; for_each l' body s'
  end.

(** ** The image operations [upgrade_project] uses *)

Definition in_image (im : Image) (xy : Z * Z) : Prop :=
  0 <= xy.1 < im_width im /\ 0 <= xy.2 < im_height im.

#[global] Instance in_image_dec im xy : Decision (in_image im xy).
Proof. unfold in_image. apply _. Defined.

(** [Image.new("P", (w, h), None)]: no pixel is initialised. *)
Definition Image_new (w h : Z) : result Image :=
  if decide (0 <= w /\ 0 <= h)
  then inr {| im_width := w; im_height := h; im_data := ∅;
              im_palette := None |}
  else inl (OtherException "ValueError").

Definition putpixel (im : Image) (xy : Z * Z) (v : Z) : result Image :=
  if decide (in_image im xy)
  then inr {| im_width := im_width im; im_height := im_height im;
              im_data := <[xy := v]> (im_data im);
              im_palette := im_palette im |}
  else inl IndexError.

Definition getpixel (im : Image) (xy : Z * Z) : option Z :=
  if decide (in_image im xy) then im_data im !! xy else None.

(** [palette.to_image(im)] *)
Definition palette_to_image (palette : list Z) (im : Image) : Image :=
  {| im_width := im_width im; im_height := im_height im;
     im_data := im_data im; im_palette := Some palette |}.

(** The pixel coordinates of a [w] by [h] image, row by row. *)
Definition coordinates (w h : Z) : list (Z * Z) :=
  y ← rangeZ 0 h; x ← rangeZ 0 w; [(x, y)].

Definition paste_pixel (src : Image) (box : Z * Z) (dst : Image)
  (data : gmap (Z * Z) Z) (xy : Z * Z) : gmap (Z * Z) Z :=
  let target := (xy.1 + box.1, xy.2 + box.2) in
  match im_data src !! xy with
  | Some v => if decide (in_image dst target) then <[target := v]> data
              else data
  | None => data
  end.

(** [dst.paste(src, box)] between two mode "P" images: the palette indices of
    [src] are copied to [dst] with their origin at [box]; what falls outside
    [dst] is dropped. *)
Definition paste (dst src : Image) (box : Z * Z) : Image :=
  {| im_width := im_width dst; im_height := im_height dst;
     im_data := foldl (paste_pixel src box dst) (im_data dst)
                  (coordinates (im_width src) (im_height src));
     im_palette := im_palette dst |}.

(** ** The module *)

Record FontModule : Type := {
  font_pointer_table : EbTable;
  fonts : list EbFont;
  credits_font : EbCreditsFont
}.

Definition with_table (self : FontModule) (t : EbTable) : FontModule :=
  {| font_pointer_table := t; fonts := fonts self;
     credits_font := credits_font self |}.

Definition with_fonts (self : FontModule) (fs : list EbFont) : FontModule :=
  {| font_pointer_table := font_pointer_table self; fonts := fs;
     credits_font := credits_font self |}.

Definition with_credits_font (self : FontModule) (c : EbCreditsFont)
  : FontModule :=
  {| font_pointer_table := font_pointer_table self; fonts := fonts self;
     credits_font := c |}.

(** [table[i][j] = v] *)
Definition table_set (t : EbTable) (i j : nat) (v : Z) : result EbTable :=
  match getitem (values t) i with
  | inl e => inl e
  | inr row =>
      match setitem row j v with
      | inl e => inl e
      | inr row' =>
          inr {| num_rows := num_rows t; values := <[i := row']> (values t) |}
      end
  end.

(** [table[i][j]] *)
Definition table_get (t : EbTable) (i j : nat) : result Z :=
  match getitem (values t) i with
  | inl e => inl e
  | inr row => getitem row j
  end.

(** [while len(values) < n: values.append([0, 0, 0, 0])] *)
Equations? grow (vals : list (list Z)) (n : nat) : list (list Z)
  by wf (n - length vals)%nat lt :=
  grow vals n with decide (length vals < n)%nat := {
    | left _ => grow (vals ++ [[0; 0; 0; 0]]) n;
    | right _ => vals }.
Proof. rewrite length_app. simpl. lia. Qed.

(** The expansion of a width table in [upgrade_project]:
    [for character_id in range(96, 128):
       if character_id not in widths_dict: widths_dict[character_id] = 0] *)
Definition default_width (widths_dict : gmap Z Z) (character_id : Z)
  : gmap Z Z :=
  match widths_dict !! character_id with
  | None => <[character_id := 0]> widths_dict
  | Some _ => widths_dict
  end.

Definition expand_widths (widths_dict : gmap Z Z) : gmap Z Z :=
  foldl default_width widths_dict (rangeZ 96 128).

(** How a call to [upgrade_project] ended: it returned, or the recursion was
    still descending at the depth followed. *)
Inductive Walk (A : Type) : Type :=
| Returned (a : A)
| StillDescending.

Arguments Returned {A} a.
Arguments StillDescending {A}.

Section Methods.

(** The address translator, the table factory, [EbFont.image_size] and the
    shared palette are not part of the sources; they are pure and taken as
    parameters. *)
Variable from_snes_address : Z -> result Z.
Variable to_snes_address : Z -> result Z.
Variable eb_table_from_offset : Z -> EbTable.
Variable image_size : EbFont -> Z * Z.
Variable FONT_IMAGE_PALETTE : list Z.

Definition __init__ : FontModule :=
  {| font_pointer_table := eb_table_from_offset FONT_POINTER_TABLE_OFFSET;
     fonts := [ new_EbFont 128 16 16;
                new_EbFont 128 16 16;
                new_EbFont 128 8 16;
                new_EbFont 128 8 8;
                new_EbFont 128 16 16 ];
     credits_font := new_EbCreditsFont |}.

Definition read_credits_font_from_rom (self : FontModule)
  : Prog FontModule :=
  c <- call (CreditsFromBlock (credits_font self)
               CREDITS_GRAPHICS_ASM_POINTER CREDITS_PALETTES_ADDRESS) ;;
  Ret (with_credits_font self c).

Definition write_credits_font_to_rom (self : FontModule) : Prog unit :=
  call (CreditsToBlock (credits_font self)
          CREDITS_GRAPHICS_ASM_POINTER CREDITS_PALETTES_ADDRESS).

Definition write_credits_font_to_project (self : FontModule)
  (resource_open : Opener) : Prog unit :=
  image_file <- call (ResourceOpen resource_open "Fonts/credits" "png"
                        false) ;;
  call (CreditsToFiles (credits_font self) image_file).

Definition read_credits_font_from_project (self : FontModule)
  (resource_open : Opener) : Prog FontModule :=
  image_file <- call (ResourceOpen resource_open "Fonts/credits" "png"
                        false) ;;
  c <- call (CreditsFromFiles (credits_font self) image_file) ;;
  Ret (with_credits_font self c).

(** The body of the loop of [read_from_rom]. *)
Definition read_font_from_rom (table : EbTable) (ifont : nat * EbFont)
  (fs : list EbFont) : Prog (list EbFont) :=
  let '(i, font) := ifont in
  _ <- lift (getitem FONT_FILENAMES i) ;;
  a1 <- lift (table_get table i 1) ;;
  tileset_offset <- lift (from_snes_address a1) ;;
  a0 <- lift (table_get table i 0) ;;
  character_widths_offset <- lift (from_snes_address a0) ;;
  font' <- call (FontFromBlock font tileset_offset
                   character_widths_offset) ;;
  Ret (<[i := font']> fs).

Definition read_from_rom (self : FontModule) : Prog FontModule :=
  at_offset <- lift (from_snes_address FONT_POINTER_TABLE_OFFSET) ;;
  vals <- call (TableFromBlock (font_pointer_table self) at_offset) ;;
  let table := {| num_rows := num_rows (font_pointer_table self);
                  values := vals |} in
  fs <- for_each (enumerate (fonts self)) (read_font_from_rom table)
          (fonts self) ;;
  read_credits_font_from_rom (with_fonts (with_table self table) fs).

(** The body of the first loop of [write_to_rom]. *)
Definition write_font_to_rom (ifont : nat * EbFont) (table : EbTable)
  : Prog EbTable :=
  let '(i, font) := ifont in
  offsets <- call (FontToBlock font) ;;
  let graphics_offset := offsets.1 in
  let widths_offset := offsets.2 in
  a0 <- lift (to_snes_address widths_offset) ;;
  table <- lift (table_set table i 0 a0) ;;
  a1 <- lift (to_snes_address graphics_offset) ;;
  table <- lift (table_set table i 1 a1) ;;
  table <- lift (table_set table i 2
                   ((tile_height (tileset font)
                     * tile_width (tileset font)) / 8)) ;;
  lift (table_set table i 3 (tile_height (tileset font))).

(** The body of the relocation loop of [write_to_rom]. *)
Definition write_pointer (new_table_offset : Z) (pointer : PointerReference)
  (_ : unit) : Prog unit :=
  address <- lift (to_snes_address new_table_offset) ;;
  call (PointerWrite pointer address).

Definition write_to_rom (self : FontModule) : Prog FontModule :=
  at_offset <- lift (from_snes_address FONT_POINTER_TABLE_OFFSET) ;;
  vals <- call (TableFromBlock (font_pointer_table self) at_offset) ;;
  let table :=
    {| num_rows := Z.of_nat (length (fonts self));
       values := grow vals (length (fonts self)) |} in
  table <- for_each (enumerate (fonts self)) write_font_to_rom table ;;
  new_table_offset <-
    call (RomAllocate (Z.of_nat (length (fonts self))
                       * FONT_POINTER_TABLE_ENTRY_SIZE)) ;;
  _ <- for_each FONT_POINTER_TABLE_REFERENCES
         (write_pointer new_table_offset) tt ;;
  _ <- call (TableToBlock table new_table_offset) ;;
  let self := with_table self table in
  _ <- write_credits_font_to_rom self ;;
  Ret self.

(** [write_to_rom] from the point where the table has been read, with the
    rows [vals] it was read with: [write_to_rom] is this program after its
    first two lines. *)
Definition write_to_rom_loaded (self : FontModule) (vals : list (list Z))
  : Prog FontModule :=
  let table :=
    {| num_rows := Z.of_nat (length (fonts self));
       values := grow vals (length (fonts self)) |} in
  table <- for_each (enumerate (fonts self)) write_font_to_rom table ;;
  new_table_offset <-
    call (RomAllocate (Z.of_nat (length (fonts self))
                       * FONT_POINTER_TABLE_ENTRY_SIZE)) ;;
  _ <- for_each FONT_POINTER_TABLE_REFERENCES
         (write_pointer new_table_offset) tt ;;
  _ <- call (TableToBlock table new_table_offset) ;;
  let self := with_table self table in
  _ <- write_credits_font_to_rom self ;;
  Ret self.

(** [with resource_open("Fonts/" + name, 'png') as image_file:
      with resource_open("Fonts/" + name + "_widths", "yml", True)
           as widths_file:
        font.from_files(image_file, widths_file, ...)]
    The third argument of [resource_open], given for the widths only, is
    taken to be false when it is left out.  Leaving a [with] block closes the
    file; the store of the examples has nothing to do then, and no call
    stands for it. *)
Definition font_from_project (resource_open : Opener) (name : string)
  (font : EbFont) : Prog EbFont :=
  image_file <- call (ResourceOpen resource_open ("Fonts/" +:+ name) "png"
                        false) ;;
  widths_file <- call (ResourceOpen resource_open
                         ("Fonts/" +:+ name +:+ "_widths") "yml" true) ;;
  call (FontFromFiles font image_file widths_file).

Definition font_to_project (resource_open : Opener) (name : string)
  (font : EbFont) : Prog unit :=
  image_file <- call (ResourceOpen resource_open ("Fonts/" +:+ name) "png"
                        false) ;;
  widths_file <- call (ResourceOpen resource_open
                         ("Fonts/" +:+ name +:+ "_widths") "yml" true) ;;
  call (FontToFiles font image_file widths_file).

(** The body of the first loop of [read_from_project]. *)
Definition read_default_font (resource_open : Opener)
  (ifont : nat * EbFont) (fs : list EbFont) : Prog (list EbFont) :=
  let '(i, font) := ifont in
  name <- lift (getitem FONT_FILENAMES i) ;;
  font' <- font_from_project resource_open name font ;;
  Ret (<[i := font']> fs).

(** The body of the [try] block of the second loop. *)
Definition probe_font (resource_open : Opener) (new_font_index : nat)
  : Prog EbFont :=
  let font_filename := pretty new_font_index in
  font_from_project resource_open font_filename (new_EbFont 128 16 16).

(** The second loop of [read_from_project], over the indices still to
    probe: [except Exception: break] ends it. *)
Fixpoint append_new_fonts (resource_open : Opener) (indices : list nat)
  (fs : list EbFont) : Prog (list EbFont) :=
  match indices with
  | [] => Ret fs
  | new_font_index :: rest =>
      r <- try_except (probe_font resource_open new_font_index) ;;
      match r with
      | inl _ => Ret fs
      | inr new_font => append_new_fonts resource_open rest (fs ++ [new_font])
      end
  end.

Definition read_from_project (self : FontModule) (resource_open : Opener)
  : Prog FontModule :=
  fs <- for_each (enumerate (fonts self)) (read_default_font resource_open)
          (fonts self) ;;
  fs <- append_new_fonts resource_open (range 5 MAX_FONT_INDEX) fs ;;
  read_credits_font_from_project (with_fonts self fs) resource_open.

(** The body of the loop of [write_to_project]. *)
Definition write_default_font (resource_open : Opener)
  (ifont : nat * EbFont) (_ : unit) : Prog unit :=
  let '(i, font) := ifont in
  name <- lift (getitem FONT_FILENAMES i) ;;
  font_to_project resource_open name font.

Definition write_to_project (self : FontModule) (resource_open : Opener)
  : Prog unit :=
  _ <- for_each (enumerate (fonts self)) (write_default_font resource_open)
         tt ;;
  write_credits_font_to_project self resource_open.

(** The two nested [putpixel] loops of [upgrade_project]. *)
Definition fill_blank (new_image_w new_image_h : Z) (expanded_image : Image)
  : Prog Image :=
  for_each (rangeZ 0 new_image_h)
    (fun y im =>
       for_each (rangeZ 0 new_image_w)
         (fun x im => lift (putpixel im (x, y) 1)) im)
    expanded_image.

(** "Expand the image" *)
Definition expand_image (image : Image) (new_image_w new_image_h : Z)
  : Prog Image :=
  expanded_image <- lift (Image_new new_image_w new_image_h) ;;
  expanded_image <- fill_blank new_image_w new_image_h expanded_image ;;
  let expanded_image := palette_to_image FONT_IMAGE_PALETTE expanded_image in
  Ret (paste expanded_image image (0, 0)).

(** The body of the loop of the version 5 step of [upgrade_project]. *)
Definition expand_font (resource_open_r resource_open_w : Opener)
  (ifont : nat * EbFont) (_ : unit) : Prog unit :=
  let '(i, font) := ifont in
  name <- lift (getitem FONT_FILENAMES i) ;;
  let image_resource_name := "Fonts/" +:+ name in
  let widths_resource_name := "Fonts/" +:+ name +:+ "_widths" in
  let '(new_image_w, new_image_h) := image_size font in
  image_file <- call (ResourceOpen resource_open_r image_resource_name
                        "png" false) ;;
  image <- call (OpenIndexedImage image_file) ;;
  expanded_image <- expand_image image new_image_w new_image_h ;;
  image_file2 <- call (ResourceOpen resource_open_w image_resource_name
                         "png" false) ;;
  _ <- call (ImageSave expanded_image image_file2) ;;
  widths_file <- call (ResourceOpen resource_open_r widths_resource_name
                         "yml" true) ;;
  widths_dict <- call (YmlLoad widths_file) ;;
  let widths_dict := expand_widths widths_dict in
  widths_file <- call (ResourceOpen resource_open_w widths_resource_name
                         "yml" true) ;;
  call (YmlDump widths_dict widths_file).

(** [upgrade_project] calls itself with no bound on the depth; [depth] is
    the number of nested calls followed here.  Where no depth is enough, the
    interpreter ends the descent with [RecursionError]: the call never
    returns and the target version is not reached. *)
Fixpoint upgrade_project (depth : nat) (self : FontModule)
  (old_version new_version : Z) (resource_open_r resource_open_w : Opener)
  : Prog (Walk FontModule) :=
  match depth with
  | O => Ret StillDescending
  | S depth =>
      if decide (old_version = new_version) then Ret (Returned self)
      else if decide (old_version = 5) then
        _ <- for_each (enumerate (fonts self))
               (expand_font resource_open_r resource_open_w) tt ;;
        upgrade_project depth self 6 new_version
          resource_open_r resource_open_w
      else if decide (old_version <= 2) then
        self <- read_credits_font_from_rom self ;;
        _ <- write_credits_font_to_project self resource_open_w ;;
        upgrade_project depth self 3 new_version
          resource_open_r resource_open_w
      else
        upgrade_project depth self (old_version + 1) new_version
          resource_open_r resource_open_w
  end.

End Methods.

(** ** Reading a trace *)

Definition succeeded (ev : Event) : bool :=
  match ev with
  | Ev _ (inr _) => true
  | Ev _ (inl _) => false
  end.

(** The resources a trace opened, or tried to. *)
Definition opened (ev : Event) : list (string * string) :=
  match ev with
  | Ev c _ =>
      match c with
      | ResourceOpen _ name ext _ => [(name, ext)]
      | _ => []
      end
  end.

(** The fonts [from_files] loaded. *)
Definition loaded (ev : Event) : list EbFont :=
  match ev with
  | Ev c r =>
      match c in Call X return result X -> list EbFont with
      | FontFromFiles _ _ _ =>
          fun r => match r with inr font => [font] | inl _ => [] end
      | _ => fun _ => []
      end r
  end.

(** The fonts [to_block] stored, each with the offsets it returned. *)
Definition stored (ev : Event) : list (EbFont * (Z * Z)) :=
  match ev with
  | Ev c r =>
      match c in Call X return result X -> list (EbFont * (Z * Z)) with
      | FontToBlock font =>
          fun r => match r with inr o => [(font, o)] | inl _ => [] end
      | _ => fun _ => []
      end r
  end.

(** The pointer references written, each with the address it was given. *)
Definition patched (ev : Event) : list (PointerReference * Z) :=
  match ev with
  | Ev c r =>
      match c in Call X return result X -> list (PointerReference * Z) with
      | PointerWrite pointer address =>
          fun r => match r with inr _ => [(pointer, address)] | inl _ => [] end
      | _ => fun _ => []
      end r
  end.

(** The tables written, each with the offset it was written at. *)
Definition tabled (ev : Event) : list (EbTable * Z) :=
  match ev with
  | Ev c r =>
      match c in Call X return result X -> list (EbTable * Z) with
      | TableToBlock table at_offset =>
          fun r => match r with inr _ => [(table, at_offset)] | inl _ => [] end
      | _ => fun _ => []
      end r
  end.

(** The tables read: the rows [from_block] produced. *)
Definition untabled (ev : Event) : list (list (list Z)) :=
  match ev with
  | Ev c r =>
      match c in Call X return result X -> list (list (list Z)) with
      | TableFromBlock _ _ =>
          fun r => match r with inr vals => [vals] | inl _ => [] end
      | _ => fun _ => []
      end r
  end.

(** The allocations made: the size asked for and the offset obtained. *)
Definition allocated (ev : Event) : list (Z * Z) :=
  match ev with
  | Ev c r =>
      match c in Call X return result X -> list (Z * Z) with
      | RomAllocate size =>
          fun r => match r with inr o => [(size, o)] | inl _ => [] end
      | _ => fun _ => []
      end r
  end.

(** The event of a font stored with the offsets [o] returned, and of a
    reference written with [address]. *)
Definition stored_event (f : EbFont) (o : Z * Z) : Event :=
  Ev (FontToBlock f) (inr o).

Definition patched_event (address : Z) (p : PointerReference) : Event :=
  Ev (PointerWrite p address) (inr tt).

(** The names [read_from_project] probes: the images it opens, or tries
    to. *)
Definition probed (ev : Event) : list string :=
  match ev with
  | Ev c _ =>
      match c with
      | ResourceOpen _ name ext _ =>
          if decide (ext = "png"%string) then [name] else []
      | _ => []
      end
  end.

(** The two resources of the font stored under [name]. *)
Definition font_files (name : string) : list (string * string) :=
  [ ("Fonts/" +:+ name, "png"); ("Fonts/" +:+ name +:+ "_widths", "yml") ]%string.

(** The events of a font read from, or written to, the files opened under
    [name]: [ff] are the two file objects the store handed out. *)
Definition font_read_events (resource_open : Opener) (name : string)
  (font : EbFont) (ff : File * File) (font' : EbFont) : list Event :=
  [ Ev (ResourceOpen resource_open ("Fonts/" +:+ name) "png" false)
      (inr ff.1);
    Ev (ResourceOpen resource_open ("Fonts/" +:+ name +:+ "_widths") "yml"
          true) (inr ff.2);
    Ev (FontFromFiles font ff.1 ff.2) (inr font') ].

Definition font_write_events (resource_open : Opener) (name : string)
  (font : EbFont) (ff : File * File) : list Event :=
  [ Ev (ResourceOpen resource_open ("Fonts/" +:+ name) "png" false)
      (inr ff.1);
    Ev (ResourceOpen resource_open ("Fonts/" +:+ name +:+ "_widths") "yml"
          true) (inr ff.2);
    Ev (FontToFiles font ff.1 ff.2) (inr tt) ].

(** The images decoded and saved, and the width tables loaded and dumped. *)
Definition image_opened (ev : Event) : list Image :=
  match ev with
  | Ev c r =>
      match c in Call X return result X -> list Image with
      | OpenIndexedImage _ =>
          fun r => match r with inr image => [image] | inl _ => [] end
      | _ => fun _ => []
      end r
  end.

Definition image_saved (ev : Event) : list Image :=
  match ev with
  | Ev c r =>
      match c in Call X return result X -> list Image with
      | ImageSave image _ =>
          fun r => match r with inr _ => [image] | inl _ => [] end
      | _ => fun _ => []
      end r
  end.

Definition widths_loaded (ev : Event) : list (gmap Z Z) :=
  match ev with
  | Ev c r =>
      match c in Call X return result X -> list (gmap Z Z) with
      | YmlLoad _ =>
          fun r => match r with inr d => [d] | inl _ => [] end
      | _ => fun _ => []
      end r
  end.

Definition widths_dumped (ev : Event) : list (gmap Z Z) :=
  match ev with
  | Ev c r =>
      match c in Call X return result X -> list (gmap Z Z) with
      | YmlDump d _ =>
          fun r => match r with inr _ => [d] | inl _ => [] end
      | _ => fun _ => []
      end r
  end.

(** A trace up to and including its first failed call. *)
Fixpoint until_failure (tr : list Event) : list Event :=
  match tr with
  | [] => []
  | ev :: tr' => if succeeded ev then ev :: until_failure tr' else [ev]
  end.

(** ** The pointer table row of the spec *)

(** The four fields of a pointer table row as section 3 of the spec lists
    them: widths-table address, tileset address, bytes per tile row, tile
    height. *)
Definition row_fields (widths_address tileset_address : Z) (font : EbFont)
  : list Z :=
  [ widths_address; tileset_address;
    tile_height (tileset font) * tile_width (tileset font) / 8;
    tile_height (tileset font) ].

(** ** A ROM whose collaborators only write

    Modelled from the spec: the ROM buffer, its allocator and the
    [to_block] and [write] methods the write pass calls are not part of the
    sources.  Sections 4.2, 4.4, 4.5 and 6 describe them as overwriting
    bytes at offsets they are given or that the allocator hands out, and the
    allocator as choosing among the free ranges.  Accordingly, what a call
    answers, which bytes it writes and which ranges it leaves free is a
    function [effect] of the call and of the free ranges alone.  The one
    call that reads the buffer is the table's [from_block]; it changes
    nothing. *)

Record Rom : Type := {
  rom_data : gmap Z Z;
  rom_free : list (Z * Z)
}.

Record Effect (X : Type) : Type := {
  answer : result X;
  writes : list (Z * Z);
  free_after : list (Z * Z)
}.

Arguments answer {X} _.
Arguments writes {X} _.
Arguments free_after {X} _.

(** Bytes written one after the other, each an offset and a value. *)
Definition store (data : gmap Z Z) (ws : list (Z * Z)) : gmap Z Z :=
  foldl (fun d ob => <[ob.1 := ob.2]> d) data ws.

Definition commit {X : Type} (rom : Rom) (e : Effect X) : result X * Rom :=
  (answer e,
   {| rom_data := store (rom_data rom) (writes e);
      rom_free := free_after e |}).

Definition rom_handler
    (effect : forall X : Type, Call X -> list (Z * Z) -> Effect X)
    (table_rows : EbTable -> Z -> gmap Z Z -> result (list (list Z)))
  : Handler Rom :=
  fun X c rom =>
    match c in Call X return Effect X -> result X * Rom with
    | TableFromBlock table at_offset =>
        fun _ => (table_rows table at_offset (rom_data rom), rom)
    | _ => fun e => commit rom e
    end (effect X c (rom_free rom)).

(** The calls that go through [effect]. *)
Definition writes_only {X : Type} (c : Call X) : Prop :=
  match c with
  | TableFromBlock _ _ => False
  | _ => True
  end.

(** Two programs that make the same write-only calls and, given the same
    answers, end alike: both raise the same exception or both return, with
    values related by [R]. *)
Inductive sim {A B : Type} (R : A -> B -> Prop) : Prog A -> Prog B -> Prop :=
| sim_ret (a : A) (b : B) : R a b -> sim R (Ret a) (Ret b)
| sim_raise (e : exn) : sim R (Raise e) (Raise e)
| sim_vis {X : Type} (c : Call X) (k1 : result X -> Prog A)
    (k2 : result X -> Prog B) :
    writes_only c ->
    (forall r, sim R (k1 r) (k2 r)) ->
    sim R (Vis c k1) (Vis c k2).

(** Two outcomes that are alike in the same sense. *)
Definition alike {A B : Type} (R : A -> B -> Prop) (ra : result A)
  (rb : result B) : Prop :=
  match ra, rb with
  | inr a, inr b => R a b
  | inl ea, inl eb => ea = eb
  | _, _ => False
  end.

(** ** A concrete ROM for the examples

    Modelled from the spec: a first-fit allocator over inclusive free ranges
    (section 6), little-endian fields, a three-byte pointer patch (section
    4.2), and for a font the tileset allocated and written before the widths
    (section 5). *)

Fixpoint first_fit (free : list (Z * Z)) (size : Z)
  : option (Z * list (Z * Z)) :=
  match free with
  | [] => None
  | (a, b) :: rest =>
      if decide (size <= b - a + 1) then Some (a, (a + size, b) :: rest)
      else match first_fit rest size with
           | Some (o, rest') => Some (o, (a, b) :: rest')
           | None => None
           end
  end.

Definition bytes_at (at_offset : Z) (bytes : list Z) : list (Z * Z) :=
  imap (fun i b => (at_offset + Z.of_nat i, b)) bytes.

(** [n] little-endian bytes of [v]. *)
Definition le_bytes (n : nat) (v : Z) : list Z :=
  map (fun i => (v / 256 ^ Z.of_nat i) mod 256) (seq 0 n).

Definition le_value (bytes : list Z) : Z :=
  foldr (fun b acc => b + 256 * acc) 0 bytes.

Definition field (row : list Z) (j : nat) : Z := default 0 (row !! j).

Definition encode_row (row : list Z) : list Z :=
  le_bytes 4 (field row 0) ++ le_bytes 4 (field row 1)
  ++ le_bytes 2 (field row 2) ++ le_bytes 2 (field row 3).

Definition decode_row (bytes : list Z) : list Z :=
  [ le_value (take 4 bytes); le_value (take 4 (drop 4 bytes));
    le_value (take 2 (drop 8 bytes)); le_value (take 2 (drop 10 bytes)) ].

Definition read_bytes (data : gmap Z Z) (at_offset : Z) (n : nat) : list Z :=
  map (fun i => default 0 (data !! (at_offset + Z.of_nat i))) (seq 0 n).

Definition example_table_rows (table : EbTable) (at_offset : Z)
  (data : gmap Z Z) : result (list (list Z)) :=
  inr (map (fun i =>
              decode_row (read_bytes data
                (at_offset + Z.of_nat i * FONT_POINTER_TABLE_ENTRY_SIZE) 12))
         (seq 0 (Z.to_nat (num_rows table)))).

Definition failed {X : Type} (e : exn) (free : list (Z * Z)) : Effect X :=
  {| answer := inl e; writes := []; free_after := free |}.

(** Allocate room for [bytes] and write them there. *)
Definition allocate_bytes (bytes : list Z) (free : list (Z * Z))
  : Effect Z :=
  match first_fit free (Z.of_nat (length bytes)) with
  | None => failed (AllocationError (Z.of_nat (length bytes))) free
  | Some (o, free') =>
      {| answer := inr o; writes := bytes_at o bytes; free_after := free' |}
  end.

Definition example_effect (to_banked : Z -> Z)
  : forall X : Type, Call X -> list (Z * Z) -> Effect X :=
  fun X c free =>
    match c in Call X return Effect X with
    | FontToBlock font =>
        let t := allocate_bytes (concat (tiles (tileset font))) free in
        match answer t with
        | inl e => failed e free
        | inr graphics_offset =>
            let w := allocate_bytes (character_widths font) (free_after t) in
            match answer w with
            | inl e => {| answer := inl e; writes := writes t;
                          free_after := free_after t |}
            | inr widths_offset =>
                {| answer := inr (graphics_offset, widths_offset);
                   writes := writes t ++ writes w;
                   free_after := free_after w |}
            end
        end
    | RomAllocate size =>
        match first_fit free size with
        | None => failed (AllocationError size) free
        | Some (o, free') =>
            {| answer := inr o; writes := []; free_after := free' |}
        end
    | PointerWrite pointer address =>
        {| answer := inr tt;
           writes := bytes_at (offset pointer)
                       (le_bytes 3 (written_address pointer address));
           free_after := free |}
    | TableToBlock table at_offset =>
        {| answer := inr tt;
           writes := bytes_at at_offset
                       (concat (map encode_row (values table)));
           free_after := free |}
    | CreditsToBlock font tileset_asm_pointer_offset palette_offset =>
        let t := allocate_bytes (concat (credits_tiles font)) free in
        match answer t with
        | inl e => failed e free
        | inr graphics_offset =>
            {| answer := inr tt;
               writes := writes t
                 ++ bytes_at tileset_asm_pointer_offset
                      (le_bytes 3 (to_banked graphics_offset))
                 ++ bytes_at palette_offset (credits_palette font);
               free_after := free_after t |}
        end
    | _ => failed (OtherException "not a call of the write pass") free
    end.

(** The address translator of the examples: offsets below 0x400000 are
    mirrored at 0xC00000. *)
Definition to_banked (o : Z) : Z :=
  if decide (o < 0x400000) then o + 0xC00000 else o.

Definition example_to_snes_address (o : Z) : result Z :=
  if decide (0 <= o < 0x600000) then inr (to_banked o)
  else inl OutOfRangeError.

Definition example_from_snes_address (a : Z) : result Z :=
  if decide (0xC00000 <= a < 0x1000000) then inr (a - 0xC00000)
  else if decide (0x400000 <= a < 0x600000) then inr a
  else inl OutOfRangeError.

Definition example_handler : Handler Rom :=
  rom_handler (example_effect to_banked) example_table_rows.

Definition example_table (at_offset : Z) : EbTable :=
  {| num_rows := 5; values := [] |}.

Definition example_font (w h : Z) (pixels widths : list Z) : EbFont :=
  {| num_characters := 128;
     tileset := {| tile_width := w; tile_height := h; tiles := [pixels] |};
     character_widths := widths |}.

(** A module with a sixth font, as [read_from_project] leaves it when the
    project has a resource [Fonts/5]. *)
Definition example_module : FontModule :=
  {| font_pointer_table := example_table FONT_POINTER_TABLE_OFFSET;
     fonts := [ example_font 16 16 [1; 2; 3] [4; 5];
                example_font 16 16 [6] [7];
                example_font 8 16 [8; 9] [10];
                example_font 8 8 [11] [12; 13];
                example_font 16 16 [14] [15];
                example_font 16 16 [16; 17] [18] ];
     credits_font := {| credits_tiles := [[19; 20]];
                        credits_palette := [21; 22] |} |}.

Definition example_rom : Rom :=
  {| rom_data := ∅; rom_free := FREE_RANGES |}.

(** The write pass of the example module on the example ROM, and the module
    it leaves. *)
Definition example_pass : Outcome Rom FontModule :=
  run example_handler
    (write_to_rom example_from_snes_address example_to_snes_address
       example_module)
    example_rom.

Definition example_result : FontModule :=
  match outcome example_pass with
  | inr self => self
  | inl _ => example_module
  end.

(** The image size and the palette of the examples: sixteen tiles per row. *)
Definition example_image_size (font : EbFont) : Z * Z :=
  (tile_width (tileset font) * 16,
   tile_height (tileset font) * (num_characters font / 16)).

Definition example_palette : list Z := [0; 0; 0; 255; 255; 255].

(** ** A concrete project for the examples

    Modelled from the spec: the resource store of section 6 is not part of
    the sources.  A resource is found under its name and format; opening one
    for reading fails when it is absent, opening one for writing always
    succeeds; a file object is an index into the list of resources opened so
    far.  A font is kept as its tiles and its widths, an image and a width
    table as themselves; [Corrupt] is a resource that is present and cannot
    be decoded. *)

Inductive Resource : Type :=
| FontPng (pixels : list (list Z))
| FontYml (widths : list Z)
| CreditsPng (font : EbCreditsFont)
| RawPng (image : Image)
| RawYml (widths_dict : gmap Z Z)
| Corrupt.

Record Project : Type := {
  resources : gmap (string * string) Resource;
  files : list (string * string)
}.

Definition open_file (project : Project) (key : string * string)
  : result File * Project :=
  (inr (length (files project)),
   {| resources := resources project; files := files project ++ [key] |}).

Definition file_content (project : Project) (f : File) : option Resource :=
  match files project !! f with
  | Some key => resources project !! key
  | None => None
  end.

Definition file_write (project : Project) (f : File) (content : Resource)
  : result unit * Project :=
  match files project !! f with
  | Some key =>
      (inr tt, {| resources := <[key := content]> (resources project);
                  files := files project |})
  | None => (inl (OtherException "closed file"), project)
  end.

Definition undecodable {X : Type} : result X :=
  inl (OtherException "cannot decode").

Definition project_handler : Handler Project :=
  fun X c project =>
    match c in Call X return result X * Project with
    | ResourceOpen Reader name ext _ =>
        match resources project !! (name, ext) with
        | Some _ => open_file project (name, ext)
        | None => (inl (ResourceMissingError name), project)
        end
    | ResourceOpen Writer name ext _ => open_file project (name, ext)
    | FontFromFiles font image_file widths_file =>
        match file_content project image_file,
              file_content project widths_file with
        | Some (FontPng pixels), Some (FontYml widths) =>
            (inr {| num_characters := num_characters font;
                    tileset := {| tile_width := tile_width (tileset font);
                                  tile_height := tile_height (tileset font);
                                  tiles := pixels |};
                    character_widths := widths |}, project)
        | _, _ => (undecodable, project)
        end
    | FontToFiles font image_file widths_file =>
        match file_write project image_file
                (FontPng (tiles (tileset font))) with
        | (inl e, project') => (inl e, project')
        | (inr _, project') =>
            file_write project' widths_file (FontYml (character_widths font))
        end
    | CreditsFromFiles font image_file =>
        match file_content project image_file with
        | Some (CreditsPng font') => (inr font', project)
        | _ => (undecodable, project)
        end
    | CreditsToFiles font image_file =>
        file_write project image_file (CreditsPng font)
    | OpenIndexedImage image_file =>
        match file_content project image_file with
        | Some (RawPng image) => (inr image, project)
        | _ => (undecodable, project)
        end
    | ImageSave image image_file =>
        file_write project image_file (RawPng image)
    | YmlLoad widths_file =>
        match file_content project widths_file with
        | Some (RawYml widths_dict) => (inr widths_dict, project)
        | _ => (undecodable, project)
        end
    | YmlDump widths_dict widths_file =>
        file_write project widths_file (RawYml widths_dict)
    | _ => (inl (OtherException "not a call on the project"), project)
    end.

(** The resources of one font under [name]. *)
Definition font_resources (name : string) (pixels : list (list Z))
  (widths : list Z) : list (string * string * Resource) :=
  [ ("Fonts/" +:+ name, "png", FontPng pixels);
    ("Fonts/" +:+ name +:+ "_widths", "yml", FontYml widths) ]%string.

Definition project_of (l : list (string * string * Resource)) : Project :=
  {| resources := list_to_map l; files := [] |}.

Definition base_resources : list (string * string * Resource) :=
  font_resources "0" [[10]] [1]
  ++ font_resources "1" [[11]] [2]
  ++ font_resources "2" [[12]] [3]
  ++ font_resources "3" [[13]] [4]
  ++ font_resources "4" [[14]] [5]
  ++ [("Fonts/credits", "png", CreditsPng new_EbCreditsFont)]%string.

(** Fonts 0 to 4 and 6 and 7: there is no font 5. *)
Definition gapped_project : Project :=
  project_of (base_resources
              ++ font_resources "6" [[16]] [7]
              ++ font_resources "7" [[17]] [8]).

(** Fonts 0 to 6: the sequence ends after font 6. *)
Definition ended_project : Project :=
  project_of (base_resources
              ++ font_resources "5" [[15]] [6]
              ++ font_resources "6" [[16]] [7]).

(** Fonts 0 to 6 and a font 7 whose image cannot be decoded, followed by a
    font 8. *)
Definition corrupt_project : Project :=
  project_of (base_resources
              ++ font_resources "5" [[15]] [6]
              ++ font_resources "6" [[16]] [7]
              ++ [("Fonts/7", "png", Corrupt);
                  ("Fonts/7_widths", "yml", FontYml [8])]%string
              ++ font_resources "8" [[18]] [9]).

(** Every font from 0 to 99. *)
Definition crowded_project : Project :=
  project_of (base_resources
              ++ flat_map (fun i => font_resources (pretty i)
                                      [[Z.of_nat i]] [Z.of_nat i])
                   (seq 5 95)).

(** A freshly built module, and an empty project. *)
Definition example_init : FontModule := __init__ example_table.

Definition empty_project : Project := project_of [].

(** The discovery loop of a fresh module on a project. *)
Definition example_discovery (project : Project)
  : Outcome Project (list EbFont) :=
  run project_handler
    (append_new_fonts Reader (range 5 MAX_FONT_INDEX) (fonts example_init))
    project.

(** The import of a project into a fresh module. *)
Definition example_import (project : Project) : Outcome Project FontModule :=
  run project_handler (read_from_project example_init Reader) project.

(** A version 5 project for a font of one-pixel tiles: an image of 96
    characters, sixteen to a row, every pixel of index 2, and the width table
    of section 8 of the spec. *)
Definition old_font : EbFont := new_EbFont 128 1 1.

Definition old_image : Image :=
  {| im_width := 16; im_height := 6;
     im_data := list_to_map (map (fun xy => (xy, 2)) (coordinates 16 6));
     im_palette := None |}.

Definition old_widths : gmap Z Z := {[ 0 := 5; 10 := 3 ]}.

Definition old_project : Project :=
  project_of [ ("Fonts/0", "png", RawPng old_image);
               ("Fonts/0_widths", "yml", RawYml old_widths) ]%string.

Definition example_expansion : Outcome Project unit :=
  run project_handler
    (expand_font example_image_size example_palette Reader Writer
       (0%nat, old_font) tt)
    old_project.

(** Two tables of [n] rows that agree on the rows before [i] and whose
    rows from [i] on have four fields. *)
Definition rows_agree (n i : nat) (ta tb : EbTable) : Prop :=
  num_rows ta = num_rows tb /\
  length (values ta) = n /\
  length (values tb) = n /\
  (forall j, (j < i)%nat -> values ta !! j = values tb !! j) /\
  (forall j row, (i <= j)%nat -> values ta !! j = Some row ->
     length row = 4%nat) /\
  (forall j row, (i <= j)%nat -> values tb !! j = Some row ->
     length row = 4%nat).

(** The second pass of the example: the bytes are the ones the first pass
    left, the free ranges are the ones it started with, and the module is
    the one it left. *)
Definition example_second_pass : Outcome Rom FontModule :=
  run example_handler
    (write_to_rom example_from_snes_address example_to_snes_address
       example_result)
    {| rom_data := rom_data (world example_pass);
       rom_free := rom_free example_rom |}.

(** ** Further readings of a trace *)

(** The fonts [to_files] wrote. *)
Definition exported (ev : Event) : list EbFont :=
  match ev with
  | Ev c r =>
      match c in Call X return result X -> list EbFont with
      | FontToFiles font _ _ =>
          fun r => match r with inr _ => [font] | inl _ => [] end
      | _ => fun _ => []
      end r
  end.

(** The fonts [from_block] read, each with the tileset offset and the widths
    offset it was given, and the fonts they became. *)
Definition unblocked (ev : Event) : list (EbFont * (Z * Z)) :=
  match ev with
  | Ev c r =>
      match c in Call X return result X -> list (EbFont * (Z * Z)) with
      | FontFromBlock font tileset_offset character_widths_offset =>
          fun r =>
            match r with
            | inr _ => [(font, (tileset_offset, character_widths_offset))]
            | inl _ => []
            end
      | _ => fun _ => []
      end r
  end.

Definition block_fonts (ev : Event) : list EbFont :=
  match ev with
  | Ev c r =>
      match c in Call X return result X -> list EbFont with
      | FontFromBlock _ _ _ =>
          fun r => match r with inr font' => [font'] | inl _ => [] end
      | _ => fun _ => []
      end r
  end.

(** The credits fonts [to_block] stored. *)
Definition credits_stored (ev : Event) : list EbCreditsFont :=
  match ev with
  | Ev c r =>
      match c in Call X return result X -> list EbCreditsFont with
      | CreditsToBlock font _ _ =>
          fun r => match r with inr _ => [font] | inl _ => [] end
      | _ => fun _ => []
      end r
  end.

(** The number of calls of a trace that failed. *)
Fixpoint failures (tr : list Event) : nat :=
  match tr with
  | [] => 0
  | ev :: tr' => (if succeeded ev then 0 else 1) + failures tr'
  end.

(** The events of a font read from the ROM at the offsets of its row. *)
Definition unblocked_event (f : EbFont) (of' : (Z * Z) * EbFont) : Event :=
  Ev (FontFromBlock f of'.1.1 of'.1.2) (inr of'.2).

(** ** Further examples *)

(** A ROM on which the write of the reference at [site] fails: every other
    call is answered as on the example ROM. *)
Definition failing_at (site : Z) : Handler Rom :=
  fun X c rom =>
    match c in Call X return result X * Rom -> result X * Rom with
    | PointerWrite pointer _ =>
        fun d => if decide (offset pointer = site)
                 then (inl BufferBoundsError, rom) else d
    | _ => fun d => d
    end (example_handler X c rom).

Definition example_failed_pass : Outcome Rom FontModule :=
  run (failing_at 0x43E98)
    (write_to_rom example_from_snes_address example_to_snes_address
       example_module)
    example_rom.

(** The example module with its five default fonts only, and the pass that
    writes it. *)
Definition five_module : FontModule :=
  with_fonts example_module (take 5 (fonts example_module)).

Definition five_pass : Outcome Rom FontModule :=
  run example_handler
    (write_to_rom example_from_snes_address example_to_snes_address
       five_module)
    example_rom.

Definition five_result : FontModule :=
  match outcome five_pass with
  | inr self => self
  | inl _ => five_module
  end.

(** A ROM whose table is read back as the rows [rows], and on which a font
    and the credits font are read back as they are. *)
Definition replay_handler (rows : list (list Z)) : Handler unit :=
  fun X c u =>
    match c in Call X return result X * unit with
    | TableFromBlock _ _ => (inr rows, u)
    | FontFromBlock font _ _ => (inr font, u)
    | CreditsFromBlock font _ _ => (inr font, u)
    | _ => (inl (OtherException "not a call of the read pass"), u)
    end.

Definition five_reread : Outcome unit FontModule :=
  run (replay_handler (values (font_pointer_table five_result)))
    (read_from_rom example_from_snes_address five_result) tt.

(** The example module on a ROM whose table has eight rows: two more than
    the module has fonts. *)
Definition surplus_module : FontModule :=
  with_table example_module {| num_rows := 8; values := [] |}.

Definition surplus_pass : Outcome Rom FontModule :=
  run example_handler
    (write_to_rom example_from_snes_address example_to_snes_address
       surplus_module)
    example_rom.

(** The export of the six fonts of the example module, and the import of a
    project into it. *)
Definition example_export : Outcome Project unit :=
  run project_handler (write_to_project example_module Writer) empty_project.

Definition example_reimport : Outcome Project FontModule :=
  run project_handler (read_from_project example_module Reader)
    ended_project.

(** The walk of a fresh module from a version before the credits font to
    version 4, on a ROM and a project held side by side: the ROM answers the
    credits font with the one given. *)
Definition credits_handler (c0 : EbCreditsFont) : Handler Project :=
  fun X c project =>
    match c in Call X return result X * Project -> result X * Project with
    | CreditsFromBlock _ _ _ => fun _ => (inr c0, project)
    | _ => fun d => d
    end (project_handler X c project).

(** ** Tactics *)

(** Distribute a projection over the segments of a trace. *)
Ltac split_trace :=
  repeat (progress cbn [flat_map] || rewrite flat_map_app).

(** * Properties *)

(** ** Running programs *)

Section Running.

Context {W : Type} (h : Handler W).

Lemma run_bind {A B : Type} (p : Prog A) (f : A -> Prog B) (w : W) :
  run h (x <- p ;; f x) w =
  match outcome (run h p w) with
  | inl e => {| outcome := inl e; world := world (run h p w);
                trace := trace (run h p w) |}
  | inr a =>
      let o := run h (f a) (world (run h p w)) in
      {| outcome := outcome o; world := world o;
         trace := trace (run h p w) ++ trace o |}
  end.
Proof.
  revert w. induction p as [a|e|X c k IH]; intros w; simpl.
  - by destruct (run h (f a) w).
  - done.
  - destruct (h X c w) as [r w']. rewrite IH. unfold after. simpl.
    by destruct (outcome (run h (k r) w')).
Qed.

Lemma run_lift {A : Type} (r : result A) (w : W) :
  run h (lift r) w = {| outcome := r; world := w; trace := [] |}.
Proof. by destruct r. Qed.

Lemma run_call {X : Type} (c : Call X) (w : W) :
  run h (call c) w =
  {| outcome := (h X c w).1; world := (h X c w).2;
     trace := [Ev c (h X c w).1] |}.
Proof.
  unfold call. simpl. destruct (h X c w) as [r w']. by destruct r.
Qed.

Lemma run_try_except {A : Type} (p : Prog A) (w : W) :
  run h (try_except p) w =
  {| outcome := inr (outcome (run h p w)); world := world (run h p w);
     trace := trace (run h p w) |}.
Proof.
  revert w. induction p as [a|e|X c k IH]; intros w; simpl; try done.
  destruct (h X c w) as [r w']. by rewrite IH.
Qed.

End Running.

(** ** Lists and tables *)

Lemma getitem_inr {A : Type} (l : list A) (i : nat) (x : A) :
  getitem l i = inr x <-> l !! i = Some x.
Proof. unfold getitem. destruct (l !! i); naive_solver. Qed.

Lemma setitem_inr {A : Type} (l l' : list A) (i : nat) (x : A) :
  setitem l i x = inr l' <-> (i < length l)%nat /\ l' = <[i := x]> l.
Proof.
  unfold setitem. case_decide as Hi.
  - split.
    + intros Heq. by injection Heq as <-.
    + by intros [_ ->].
  - split; [done|]. by intros [? _].
Qed.

Lemma table_set_inr (t t' : EbTable) (i j : nat) (v : Z) :
  table_set t i j v = inr t' <->
  exists row, values t !! i = Some row /\ (j < length row)%nat /\
    t' = {| num_rows := num_rows t;
            values := <[i := <[j := v]> row]> (values t) |}.
Proof.
  unfold table_set. destruct (getitem (values t) i) as [e|row] eqn:Hg.
  - split; [done|]. intros (row & Hrow & _). apply getitem_inr in Hrow.
    congruence.
  - apply getitem_inr in Hg.
    destruct (setitem row j v) as [e|row'] eqn:Hs.
    + split; [done|]. intros (row1 & Hrow & Hj & _).
      rewrite Hg in Hrow. injection Hrow as <-.
      unfold setitem in Hs. by case_decide.
    + apply setitem_inr in Hs as [Hj ->]. split.
      * intros Heq. injection Heq as <-. eauto.
      * intros (row1 & Hrow & _ & ->).
        rewrite Hg in Hrow. by injection Hrow as <-.
Qed.

Lemma grow_length (vals : list (list Z)) (n : nat) :
  length (grow vals n) = (length vals `max` n)%nat.
Proof.
  funelim (grow vals n).
  - rewrite H, length_app. simpl. lia.
  - lia.
Qed.

Lemma grow_spec (vals : list (list Z)) (n : nat) :
  grow vals n = vals ++ replicate (n - length vals) [0; 0; 0; 0].
Proof.
  funelim (grow vals n).
  - rewrite H, length_app. simpl. rewrite <- app_assoc. f_equal.
    replace (n - length vals)%nat with (S (n - (length vals + 1)))%nat by lia.
    done.
  - replace (n - length vals)%nat with 0%nat by lia. simpl.
    by rewrite app_nil_r.
Qed.

(** ** Reading the trace of a write pass *)

Lemma stored_zip (fs : list EbFont) (offs : list (Z * Z)) :
  flat_map stored (zip_with stored_event fs offs) = zip fs offs.
Proof.
  revert offs. induction fs as [|f fs IH]; intros [|o offs]; simpl; auto.
  by rewrite IH.
Qed.

Lemma stored_map (address : Z) (refs : list PointerReference) :
  flat_map stored (map (patched_event address) refs) = [].
Proof. induction refs; simpl; auto. Qed.

Lemma patched_zip (fs : list EbFont) (offs : list (Z * Z)) :
  flat_map patched (zip_with stored_event fs offs) = [].
Proof. revert offs. induction fs; intros [|o offs]; simpl; auto. Qed.

Lemma patched_map (address : Z) (refs : list PointerReference) :
  flat_map patched (map (patched_event address) refs)
  = map (fun p => (p, address)) refs.
Proof. induction refs as [|p refs IH]; simpl; auto. by rewrite IH. Qed.

Lemma tabled_zip (fs : list EbFont) (offs : list (Z * Z)) :
  flat_map tabled (zip_with stored_event fs offs) = [].
Proof. revert offs. induction fs; intros [|o offs]; simpl; auto. Qed.

Lemma tabled_map (address : Z) (refs : list PointerReference) :
  flat_map tabled (map (patched_event address) refs) = [].
Proof. induction refs; simpl; auto. Qed.

Lemma untabled_zip (fs : list EbFont) (offs : list (Z * Z)) :
  flat_map untabled (zip_with stored_event fs offs) = [].
Proof. revert offs. induction fs; intros [|o offs]; simpl; auto. Qed.

Lemma untabled_map (address : Z) (refs : list PointerReference) :
  flat_map untabled (map (patched_event address) refs) = [].
Proof. induction refs; simpl; auto. Qed.

Lemma allocated_zip (fs : list EbFont) (offs : list (Z * Z)) :
  flat_map allocated (zip_with stored_event fs offs) = [].
Proof. revert offs. induction fs; intros [|o offs]; simpl; auto. Qed.

(** ** The write pass *)

Section WritePass.

Variable from_snes_address : Z -> result Z.
Variable to_snes_address : Z -> result Z.
Context {W : Type} (h : Handler W).

Lemma write_font_to_rom_inr (i : nat) (font : EbFont) (table table' : EbTable)
    (w : W) :
  let o := run h (write_font_to_rom to_snes_address (i, font) table) w in
  outcome o = inr table' ->
  exists offsets a0 a1 row0,
    (h _ (FontToBlock font) w).1 = inr offsets /\
    to_snes_address offsets.2 = inr a0 /\
    to_snes_address offsets.1 = inr a1 /\
    values table !! i = Some row0 /\
    (4 <= length row0)%nat /\
    table' = {| num_rows := num_rows table;
                values := <[i := row_fields a0 a1 font ++ drop 4 row0]>
                            (values table) |} /\
    trace o = [Ev (FontToBlock font) (inr offsets)] /\
    world o = (h _ (FontToBlock font) w).2.
Proof.
  cbv zeta. unfold write_font_to_rom.
  rewrite run_bind, run_call. simpl.
  destruct (h _ (FontToBlock font) w) as [[e|offsets] w']; simpl; [done|].
  rewrite run_bind, run_lift. simpl.
  destruct (to_snes_address offsets.2) as [e|a0] eqn:Ha0; simpl; [done|].
  rewrite run_bind, run_lift. simpl.
  destruct (table_set table i 0 a0) as [e|t1] eqn:H1; simpl; [done|].
  rewrite run_bind, run_lift. simpl.
  destruct (to_snes_address offsets.1) as [e|a1] eqn:Ha1; simpl; [done|].
  rewrite run_bind, run_lift. simpl.
  destruct (table_set t1 i 1 a1) as [e|t2] eqn:H2; simpl; [done|].
  rewrite run_bind, run_lift. simpl.
  destruct (table_set t2 i 2 _) as [e|t3] eqn:H3; simpl; [done|].
  rewrite run_lift. simpl.
  destruct (table_set t3 i 3 _) as [e|t4] eqn:H4; simpl; [done|].
  intros Heq. injection Heq as <-.
  apply table_set_inr in H1 as (row0 & Hrow0 & Hl0 & ->).
  apply table_set_inr in H2 as (row1 & Hrow1 & Hl1 & ->).
  apply table_set_inr in H3 as (row2 & Hrow2 & Hl2 & ->).
  apply table_set_inr in H4 as (row3 & Hrow3 & Hl3 & ->).
  simpl in *.
  assert (i < length (values table))%nat as Hi
    by (by eapply lookup_lt_Some).
  rewrite list_lookup_insert_eq in Hrow1 by done.
  injection Hrow1 as <-.
  rewrite list_lookup_insert_eq in Hrow2
    by (by rewrite length_insert).
  injection Hrow2 as <-.
  rewrite list_lookup_insert_eq in Hrow3
    by (by rewrite !length_insert).
  injection Hrow3 as <-.
  rewrite !length_insert in *.
  exists offsets, a0, a1, row0. repeat split; try done.
  rewrite !list_insert_insert_eq. do 2 f_equal.
  destruct row0 as [|x0 [|x1 [|x2 [|x3 rest]]]]; simpl in *; try lia.
  unfold row_fields. simpl. by rewrite drop_0.
Qed.

Lemma write_fonts_inr (fs : list EbFont) :
  forall (i : nat) (table table' : EbTable) (w : W),
  let o := run h (for_each (enumerate_from i fs)
                    (write_font_to_rom to_snes_address) table) w in
  outcome o = inr table' ->
  exists offs,
    length offs = length fs /\
    trace o = zip_with stored_event fs offs /\
    num_rows table' = num_rows table /\
    length (values table') = length (values table) /\
    (forall j, (j < i \/ i + length fs <= j)%nat ->
       values table' !! j = values table !! j) /\
    (forall k f o, fs !! k = Some f -> offs !! k = Some o ->
       exists a0 a1 row0,
         to_snes_address o.2 = inr a0 /\
         to_snes_address o.1 = inr a1 /\
         values table !! (i + k)%nat = Some row0 /\
         (4 <= length row0)%nat /\
         values table' !! (i + k)%nat
         = Some (row_fields a0 a1 f ++ drop 4 row0)).
Proof.
  induction fs as [|f fs IH]; intros i table table' w; cbv zeta.
  - simpl. intros Heq. injection Heq as <-. exists []. repeat split; auto.
    intros k f o Hk. by rewrite lookup_nil in Hk.
  - cbn [enumerate_from for_each]. rewrite run_bind.
    destruct (outcome (run h (write_font_to_rom _ (i, f) table) w))
      as [e|t1] eqn:Hstep; [done|].
    apply write_font_to_rom_inr in Hstep
      as (o0 & a0 & a1 & row0 & _ & Ha0 & Ha1 & Hrow0 & Hlen & -> & Htr & _).
    simpl. intros Hrest.
    specialize (IH (S i) _ table' _ Hrest)
      as (offs & Hlo & Htr' & Hnr & Hlv & Hout & Hin).
    simpl in *. rewrite length_insert in Hlv.
    assert (i < length (values table))%nat as Hi
      by (by eapply lookup_lt_Some).
    exists (o0 :: offs). simpl. rewrite Htr, Htr'.
    repeat split; auto.
    + intros j Hj. rewrite Hout by lia.
      apply list_lookup_insert_ne. lia.
    + intros [|k] f' o' Hf Ho; simpl in *.
      * injection Hf as <-. injection Ho as <-.
        exists a0, a1, row0. rewrite Nat.add_0_r.
        repeat split; auto.
        rewrite Hout by lia. by apply list_lookup_insert_eq.
      * destruct (Hin k f' o' Hf Ho) as (b0 & b1 & r0 & ? & ? & Hr & ? & Hr').
        exists b0, b1, r0.
        replace (i + S k)%nat with (S (i + k))%nat by lia.
        repeat split; auto.
        rewrite list_lookup_insert_ne in Hr by lia. done.
Qed.

Lemma run_write_pointer (new_table_offset : Z) (p : PointerReference)
    (u : unit) (w : W) :
  run h (write_pointer to_snes_address new_table_offset p u) w =
  match to_snes_address new_table_offset with
  | inl e => {| outcome := inl e; world := w; trace := [] |}
  | inr address =>
      {| outcome := (h _ (PointerWrite p address) w).1;
         world := (h _ (PointerWrite p address) w).2;
         trace := [Ev (PointerWrite p address)
                     (h _ (PointerWrite p address) w).1] |}
  end.
Proof.
  unfold write_pointer. rewrite run_bind, run_lift.
  cbn [outcome world trace].
  destruct (to_snes_address new_table_offset); [done|].
  by rewrite run_call.
Qed.

Lemma write_pointers_inr (new_table_offset address : Z)
    (refs : list PointerReference) :
  to_snes_address new_table_offset = inr address ->
  forall (w : W) (u : unit),
  let o := run h (for_each refs
                    (write_pointer to_snes_address new_table_offset) u) w in
  outcome o = inr tt ->
  trace o = map (patched_event address) refs.
Proof.
  intros Ha. induction refs as [|p refs IH]; intros w u; cbv zeta.
  - done.
  - cbn [for_each]. rewrite run_bind, run_write_pointer, Ha.
    cbn [outcome world trace].
    destruct (h _ (PointerWrite p address) w) as [[e|[]] w']; simpl;
      [done|].
    intros Hrest. by rewrite (IH _ _ Hrest).
Qed.

Lemma write_pointers_translated (new_table_offset : Z)
    (refs : list PointerReference) (w : W) (u : unit) :
  refs <> [] ->
  outcome (run h (for_each refs
                    (write_pointer to_snes_address new_table_offset) u) w)
  = inr tt ->
  exists address, to_snes_address new_table_offset = inr address.
Proof.
  destruct refs as [|p refs]; [done|]. intros _.
  cbn [for_each]. rewrite run_bind, run_write_pointer.
  destruct (to_snes_address new_table_offset) as [e|a]; [done|]. eauto.
Qed.

(** A write pass that succeeds made these calls, in this order, and left
    these rows in the table. *)
Lemma write_to_rom_inr (self self' : FontModule) (w : W) :
  let o := run h (write_to_rom from_snes_address to_snes_address self) w in
  let n := length (fonts self) in
  outcome o = inr self' ->
  exists at_offset vals offs new_table_offset address,
    from_snes_address FONT_POINTER_TABLE_OFFSET = inr at_offset /\
    to_snes_address new_table_offset = inr address /\
    length offs = n /\
    fonts self' = fonts self /\
    credits_font self' = credits_font self /\
    num_rows (font_pointer_table self') = Z.of_nat n /\
    length (values (font_pointer_table self')) = (length vals `max` n)%nat /\
    (forall j, (n <= j)%nat ->
       values (font_pointer_table self') !! j = vals !! j) /\
    (forall k f o, fonts self !! k = Some f -> offs !! k = Some o ->
       exists a0 a1 row0,
         to_snes_address o.2 = inr a0 /\
         to_snes_address o.1 = inr a1 /\
         grow vals n !! k = Some row0 /\
         (4 <= length row0)%nat /\
         values (font_pointer_table self') !! k
         = Some (row_fields a0 a1 f ++ drop 4 row0)) /\
    trace o =
      Ev (TableFromBlock (font_pointer_table self) at_offset) (inr vals)
      :: zip_with stored_event (fonts self) offs
      ++ Ev (RomAllocate (Z.of_nat n * FONT_POINTER_TABLE_ENTRY_SIZE))
           (inr new_table_offset)
      :: map (patched_event address) FONT_POINTER_TABLE_REFERENCES
      ++ [ Ev (TableToBlock (font_pointer_table self') new_table_offset)
             (inr tt);
           Ev (CreditsToBlock (credits_font self)
                 CREDITS_GRAPHICS_ASM_POINTER CREDITS_PALETTES_ADDRESS)
             (inr tt) ].
Proof.
  cbv zeta.
  remember (run h (write_to_rom from_snes_address to_snes_address self) w)
    as o eqn:Ho.
  unfold write_to_rom, write_credits_font_to_rom, enumerate in Ho.
  rewrite run_bind, run_lift in Ho. cbn [outcome world trace] in Ho.
  destruct (from_snes_address FONT_POINTER_TABLE_OFFSET)
    as [e|at_offset] eqn:Hat; [by subst o|].
  rewrite run_bind, run_call in Ho.
  destruct (h _ (TableFromBlock (font_pointer_table self) at_offset) w)
    as [[e|vals] w1]; cbn [fst snd outcome world trace] in Ho;
    [by subst o|].
  rewrite run_bind in Ho.
  match type of Ho with
  | context [run h (for_each (enumerate_from _ _) _ ?t) w1] =>
      set (t0 := t) in Ho
  end.
  destruct (outcome (run h (for_each (enumerate_from 0 (fonts self))
              (write_font_to_rom to_snes_address) t0) w1))
    as [e|t1] eqn:Hloop; [by subst o|].
  apply write_fonts_inr in Hloop
    as (offs & Hlo & Htr & Hnr & Hlv & Hout & Hin).
  set (w2 := world (run h (for_each (enumerate_from 0 (fonts self))
              (write_font_to_rom to_snes_address) t0) w1)) in *.
  cbn [outcome world trace] in Ho.
  rewrite run_bind, run_call in Ho.
  destruct (h _ (RomAllocate (Z.of_nat (length (fonts self))
                              * FONT_POINTER_TABLE_ENTRY_SIZE)) w2)
    as [[e|new_table_offset] w3]; cbn [fst snd outcome world trace] in Ho;
    [by subst o|].
  rewrite run_bind in Ho.
  destruct (outcome (run h (for_each FONT_POINTER_TABLE_REFERENCES
              (write_pointer to_snes_address new_table_offset) tt) w3))
    as [e|[]] eqn:Hptr; [by subst o|].
  assert (FONT_POINTER_TABLE_REFERENCES <> []) as Hrefs
    by (unfold FONT_POINTER_TABLE_REFERENCES; discriminate).
  destruct (write_pointers_translated _ _ _ _ Hrefs Hptr) as [address Ha].
  pose proof (write_pointers_inr _ _ _ Ha _ _ Hptr) as Hptr_tr.
  cbv zeta in Hptr_tr.
  set (w4 := world (run h (for_each FONT_POINTER_TABLE_REFERENCES
              (write_pointer to_snes_address new_table_offset) tt) w3)) in *.
  cbn [outcome world trace] in Ho.
  rewrite run_bind, run_call in Ho.
  destruct (h _ (TableToBlock t1 new_table_offset) w4)
    as [[e|[]] w5]; cbn [fst snd outcome world trace] in Ho;
    [by subst o|].
  rewrite run_bind, run_call in Ho.
  destruct (h _ (CreditsToBlock _ _ _) w5)
    as [[e|[]] w6]; cbn [fst snd outcome world trace] in Ho;
    [by subst o|].
  cbn [run outcome world trace] in Ho. subst o.
  cbn [outcome world trace]. intros Heq. injection Heq as <-.
  cbn [with_table fonts credits_font font_pointer_table].
  subst t0. cbn [num_rows values] in *.
  rewrite grow_length in Hlv.
  exists at_offset, vals, offs, new_table_offset, address.
  rewrite Htr, Hptr_tr.
  repeat split; auto.
  intros j Hj. rewrite Hout by lia.
  rewrite grow_spec. destruct (decide (j < length vals)%nat).
    + by rewrite lookup_app_l.
    + rewrite lookup_app_r by lia.
      rewrite (proj1 (lookup_replicate_None _ _ _)) by lia.
      symmetry. apply lookup_ge_None. lia.
Qed.

(** C7.  After a write pass that succeeds, row [i] of the pointer table
    that is written to the ROM holds, for font [i], at index 0 the banked
    address of the width table, at index 1 the banked address of the
    tileset, at index 2 [tile_height * tile_width // 8] and at index 3
    [tile_height]; the offsets are the ones [to_block] returned for that
    font. *)
Theorem write_to_rom_row_fields (self self' : FontModule) (w : W) :
  let o := run h (write_to_rom from_snes_address to_snes_address self) w in
  outcome o = inr self' ->
  exists new_table_offset,
    flat_map tabled (trace o)
    = [(font_pointer_table self', new_table_offset)] /\
    map fst (flat_map stored (trace o)) = fonts self /\
    forall i font offsets,
      flat_map stored (trace o) !! i = Some (font, offsets) ->
      exists row widths_address tileset_address,
        values (font_pointer_table self') !! i = Some row /\
        to_snes_address offsets.2 = inr widths_address /\
        to_snes_address offsets.1 = inr tileset_address /\
        row !! 0%nat = Some widths_address /\
        row !! 1%nat = Some tileset_address /\
        row !! 2%nat
        = Some (tile_height (tileset font) * tile_width (tileset font) / 8)
        /\
        row !! 3%nat = Some (tile_height (tileset font)).
Proof.
  cbv zeta. intros Hok.
  destruct (write_to_rom_inr _ _ _ Hok)
    as (at_offset & vals & offs & new_table_offset & address & _ & _ & Hlo
        & _ & _ & _ & _ & _ & Hrows & ->).
  exists new_table_offset.
  split_trace.
  rewrite tabled_zip, tabled_map, stored_zip, stored_map. simpl.
  rewrite app_nil_r. split; [done|]. split.
  - by rewrite fst_zip by lia.
  - intros i font offsets Hi.
    apply lookup_zip_with_Some in Hi as (f & o & Heq & Hf & Ho).
    injection Heq as -> ->.
    destruct (Hrows i f o Hf Ho) as (a0 & a1 & row0 & ? & ? & _ & _ & Hrow).
    exists (row_fields a0 a1 f ++ drop 4 row0), a0, a1.
    repeat split; auto.
Qed.

(** C3.  When the table read at the start of a write pass has fewer rows
    than there are fonts, the loop appends rows [[0, 0, 0, 0]] until there
    is one row per font; the pass goes on, and the table it writes has
    exactly [len(fonts)] rows, each holding the four fields of its font.
    An appended row holds nothing else. *)
Theorem write_to_rom_grows_table (self self' : FontModule) (w : W)
    (vals : list (list Z)) :
  let o := run h (write_to_rom from_snes_address to_snes_address self) w in
  let n := length (fonts self) in
  outcome o = inr self' ->
  flat_map untabled (trace o) = [vals] ->
  (length vals < n)%nat ->
  grow vals n = vals ++ replicate (n - length vals) [0; 0; 0; 0] /\
  exists new_table_offset,
    flat_map tabled (trace o)
    = [(font_pointer_table self', new_table_offset)] /\
    num_rows (font_pointer_table self') = Z.of_nat n /\
    length (values (font_pointer_table self')) = n /\
    map fst (flat_map stored (trace o)) = fonts self /\
    forall i font offsets,
      flat_map stored (trace o) !! i = Some (font, offsets) ->
      exists row widths_address tileset_address,
        values (font_pointer_table self') !! i = Some row /\
        to_snes_address offsets.2 = inr widths_address /\
        to_snes_address offsets.1 = inr tileset_address /\
        take 4 row = row_fields widths_address tileset_address font /\
        ((length vals <= i)%nat ->
         row = row_fields widths_address tileset_address font).
Proof.
  cbv zeta. intros Hok.
  destruct (write_to_rom_inr _ _ _ Hok)
    as (at_offset & vals' & offs & new_table_offset & address & _ & _ & Hlo
        & _ & _ & Hnr & Hlv & _ & Hrows & ->).
  split_trace.
  rewrite untabled_zip, untabled_map, tabled_zip, tabled_map, stored_zip,
    stored_map. simpl. rewrite ?app_nil_r.
  intros Heq Hlt. injection Heq as ->.
  split; [apply grow_spec|].
  exists new_table_offset. split; [done|]. split; [done|].
  split; [lia|]. split; [by rewrite fst_zip by lia|].
  intros i font offsets Hi.
  apply lookup_zip_with_Some in Hi as (f & o & Heq & Hf & Ho).
  injection Heq as -> ->.
  destruct (Hrows i f o Hf Ho) as (a0 & a1 & row0 & ? & ? & Hg & Hl & Hrow).
  exists (row_fields a0 a1 f ++ drop 4 row0), a0, a1.
  repeat split; auto.
  intros Hge. rewrite grow_spec in Hg.
  rewrite lookup_app_r in Hg by done.
  apply lookup_replicate_1 in Hg as [-> _]. done.
Qed.

(** C1.  In a write pass that succeeds, every reference of
    [FONT_POINTER_TABLE_REFERENCES] is written, once and in the order of
    the list, with the banked address of the table allocated in this pass,
    so that the value stored at its site is that address plus the
    reference's patch offset.  The trace splits in three: before the first
    reference is written every font has been stored and nothing is
    patched; while and after the references are written no font is stored;
    and the table written afterwards, at the allocated offset, holds in
    each row the fields computed from what was stored before. *)
Theorem write_to_rom_relocates_after_rows (self self' : FontModule)
    (w : W) :
  let o := run h (write_to_rom from_snes_address to_snes_address self) w in
  let n := length (fonts self) in
  outcome o = inr self' ->
  exists new_table_offset address before during afterwards,
    trace o = before ++ during ++ afterwards /\
    flat_map allocated before
    = [(Z.of_nat n * FONT_POINTER_TABLE_ENTRY_SIZE, new_table_offset)] /\
    to_snes_address new_table_offset = inr address /\
    during = map (patched_event address) FONT_POINTER_TABLE_REFERENCES /\
    flat_map patched (trace o)
    = map (fun p => (p, address)) FONT_POINTER_TABLE_REFERENCES /\
    (forall p, p ∈ FONT_POINTER_TABLE_REFERENCES ->
       (p, address) ∈ flat_map patched (trace o) /\
       written_address p address = address + pointer_offset p) /\
    flat_map patched before = [] /\
    flat_map stored (during ++ afterwards) = [] /\
    map fst (flat_map stored before) = fonts self /\
    flat_map tabled afterwards
    = [(font_pointer_table self', new_table_offset)] /\
    forall i font offsets,
      flat_map stored before !! i = Some (font, offsets) ->
      exists row widths_address tileset_address,
        values (font_pointer_table self') !! i = Some row /\
        to_snes_address offsets.2 = inr widths_address /\
        to_snes_address offsets.1 = inr tileset_address /\
        take 4 row = row_fields widths_address tileset_address font.
Proof.
  cbv zeta. intros Hok.
  destruct (write_to_rom_inr _ _ _ Hok)
    as (at_offset & vals & offs & new_table_offset & address & _ & Ha & Hlo
        & _ & _ & _ & _ & _ & Hrows & ->).
  exists new_table_offset, address.
  exists (Ev (TableFromBlock (font_pointer_table self) at_offset) (inr vals)
          :: zip_with stored_event (fonts self) offs
          ++ [Ev (RomAllocate (Z.of_nat (length (fonts self))
                               * FONT_POINTER_TABLE_ENTRY_SIZE))
                (inr new_table_offset)]).
  exists (map (patched_event address) FONT_POINTER_TABLE_REFERENCES).
  eexists. split.
  { rewrite <- app_comm_cons, <- app_assoc. simpl. reflexivity. }
  split_trace.
  rewrite ?allocated_zip, ?patched_zip, ?patched_map, ?stored_zip,
    ?stored_map.
  cbn [allocated patched stored tabled untabled app].
  rewrite ?app_nil_r.
  split; [done|]. split; [done|]. split; [done|]. split; [done|].
  split.
  { intros p Hp. split; [|done].
    apply (list_elem_of_fmap_2 (fun p => (p, address))), Hp. }
  split; [done|]. split; [done|]. split; [by rewrite fst_zip by lia|].
  split; [done|].
  intros i font offsets Hi.
  apply lookup_zip_with_Some in Hi as (f & o & Heq & Hf & Ho).
  injection Heq as -> ->.
  destruct (Hrows i f o Hf Ho) as (a0 & a1 & row0 & ? & ? & _ & _ & Hrow).
  exists (row_fields a0 a1 f ++ drop 4 row0), a0, a1.
  repeat split; auto.
Qed.

End WritePass.

(** ** The write pass on the example ROM *)

Lemma example_pass_succeeds : outcome example_pass = inr example_result.
Proof. vm_compute. reflexivity. Defined.

Lemma write_to_rom_row_fields_witness :
  outcome example_pass = inr example_result /\
  exists row,
    values (font_pointer_table example_result) !! 3%nat = Some row /\
    row !! 2%nat = Some 8 /\ row !! 3%nat = Some 8.
Proof.
  split; [exact example_pass_succeeds|].
  destruct (write_to_rom_row_fields _ _ _ _ _ _ example_pass_succeeds)
    as (new_table_offset & _ & _ & Hrows).
  edestruct (Hrows 3%nat) as (row & a0 & a1 & Hrow & _ & _ & _ & _ & H2 & H3);
    [vm_compute; reflexivity|].
  exists row. split; [exact Hrow|]. split; [exact H2|exact H3].
Defined.

Lemma write_to_rom_grows_table_witness :
  outcome example_pass = inr example_result /\
  (length (values (example_table FONT_POINTER_TABLE_OFFSET))
   < length (fonts example_module))%nat /\
  length (values (font_pointer_table example_result)) = 6%nat.
Proof.
  split; [exact example_pass_succeeds|]. split; [vm_compute; lia|].
  edestruct (write_to_rom_grows_table _ _ _ _ _ _
               (replicate 5 [0; 0; 0; 0]) example_pass_succeeds)
    as (_ & new_table_offset & _ & _ & Hlen & _).
  - vm_compute. reflexivity.
  - vm_compute. lia.
  - exact Hlen.
Defined.

Lemma write_to_rom_relocates_after_rows_witness :
  outcome example_pass = inr example_result /\
  exists address,
    flat_map patched (trace example_pass)
    = map (fun p => (p, address)) FONT_POINTER_TABLE_REFERENCES.
Proof.
  split; [exact example_pass_succeeds|].
  destruct (write_to_rom_relocates_after_rows _ _ _ _ _ _
              example_pass_succeeds)
    as (new_table_offset & address & before & during & afterwards
        & _ & _ & _ & _ & Hpatched & _).
  exists address. exact Hpatched.
Defined.

(** ** The migration walk *)

Section Migration.

Variable image_size : EbFont -> Z * Z.
Variable FONT_IMAGE_PALETTE : list Z.
Context {W : Type} (h : Handler W).

Local Notation "'upgrade'" :=
  (upgrade_project image_size FONT_IMAGE_PALETTE).

Lemma upgrade_project_terminal (depth : nat) (self : FontModule) (v : Z)
    (r w : Opener) :
  upgrade (S depth) self v v r w = Ret (Returned self).
Proof. simpl. by case_decide. Qed.

(** From version 3 on, every step that does not return moves to the next
    version. *)
Lemma upgrade_project_from_3 (new_version : Z) (r w : Opener) (n : nat) :
  forall (old_version : Z) (self : FontModule) (world : W),
  3 <= old_version ->
  new_version - old_version = Z.of_nat n ->
  outcome (run h (upgrade (S n) self old_version new_version r w) world)
  <> inr StillDescending.
Proof.
  induction n as [|n IH]; intros old_version self world H3 Hn.
  - assert (old_version = new_version) as -> by lia.
    by rewrite upgrade_project_terminal.
  - cbn [upgrade_project].
    destruct (decide (old_version = new_version)) as [|_]; [lia|].
    destruct (decide (old_version = 5)) as [->|H5].
    + rewrite run_bind.
      destruct (outcome (run h (for_each _ _ _) world)); [done|].
      cbn [outcome]. apply IH; lia.
    + destruct (decide (old_version <= 2)); [lia|]. apply IH; lia.
Qed.

(** Past the target, every step moves further away from it. *)
Lemma upgrade_project_past_target (new_version : Z) (r w : Opener)
    (depth : nat) :
  forall (old_version : Z) (self self' : FontModule) (world : W),
  3 <= old_version ->
  new_version < old_version ->
  outcome (run h (upgrade depth self old_version new_version r w) world)
  <> inr (Returned self').
Proof.
  induction depth as [|depth IH]; intros old_version self self' world H3 Hlt.
  - done.
  - cbn [upgrade_project].
    destruct (decide (old_version = new_version)) as [|_]; [lia|].
    destruct (decide (old_version = 5)) as [->|H5].
    + rewrite run_bind.
      destruct (outcome (run h (for_each _ _ _) world)); [done|].
      cbn [outcome]. apply IH; lia.
    + destruct (decide (old_version <= 2)); [lia|]. apply IH; lia.
Qed.

(** The walk returns only along a forward path: when it does not start at
    the target, and either starts past it or jumps past it from a version up
    to 2, no depth is enough. *)
Lemma upgrade_project_never_returns (old_version new_version : Z)
    (r w : Opener) (depth : nat) (self self' : FontModule) (world : W) :
  old_version <> new_version ->
  (old_version <= 2 /\ new_version < 3)
  \/ (3 <= old_version /\ new_version < old_version) ->
  outcome (run h (upgrade depth self old_version new_version r w) world)
  <> inr (Returned self').
Proof.
  intros Hne [[H2 Hlt]|[H3 Hlt]].
  - destruct depth as [|depth]; [done|]. cbn [upgrade_project].
    destruct (decide (old_version = new_version)); [done|].
    destruct (decide (old_version = 5)); [lia|].
    destruct (decide (old_version <= 2)); [|lia].
    rewrite run_bind.
    destruct (outcome (run h (read_credits_font_from_rom self) world));
      [done|].
    cbn [outcome]. rewrite run_bind.
    destruct (outcome (run h (write_credits_font_to_project _ _) _));
      [done|].
    cbn [outcome]. apply upgrade_project_past_target; lia.
  - by apply upgrade_project_past_target.
Qed.

(** C2, as the code has it.  The walk reaches the target from a version
    that equals it, from a version up to 2 when the target is at least 3,
    and from a version of 3 or more that is not past the target: some depth
    of recursion is enough for the call to end, by returning or by an
    exception of a collaborator.  Started at the target it returns at once:
    the program makes no call and hands the module back unchanged. *)
Theorem upgrade_project_reaches_target (old_version new_version : Z) :
  old_version = new_version
  \/ (old_version <= 2 /\ 3 <= new_version)
  \/ (3 <= old_version /\ old_version <= new_version) ->
  (exists depth, forall (self : FontModule) (r w : Opener) (world : W),
     outcome (run h (upgrade depth self old_version new_version r w) world)
     <> inr StillDescending) /\
  (forall (depth : nat) (self : FontModule) (r w : Opener),
     upgrade (S depth) self new_version new_version r w
     = Ret (Returned self)).
Proof.
  intros Hpath. split; [|intros; apply upgrade_project_terminal].
  destruct (decide (old_version = new_version)) as [->|Hne].
  { exists 1%nat. intros. by rewrite upgrade_project_terminal. }
  destruct Hpath as [?|[[H2 H3]|[H3 Hle]]]; [done| |].
  - exists (S (S (Z.to_nat (new_version - 3)))). intros self r w world.
    cbn [upgrade_project].
    destruct (decide (old_version = new_version)); [done|].
    destruct (decide (old_version = 5)); [lia|].
    destruct (decide (old_version <= 2)); [|lia].
    rewrite run_bind.
    destruct (outcome (run h (read_credits_font_from_rom self) world));
      [done|].
    cbn [outcome]. rewrite run_bind.
    destruct (outcome (run h (write_credits_font_to_project _ _) _));
      [done|].
    cbn [outcome]. apply upgrade_project_from_3; lia.
  - exists (S (Z.to_nat (new_version - old_version))). intros self r w world.
    apply upgrade_project_from_3; lia.
Qed.

End Migration.

(** ** Discovery of the extra fonts *)

Lemma until_failure_app (tr1 tr2 : list Event) :
  forallb succeeded tr1 = true ->
  until_failure (tr1 ++ tr2) = tr1 ++ until_failure tr2.
Proof.
  induction tr1 as [|ev tr1 IH]; simpl; [done|].
  destruct (succeeded ev); [|done]. simpl. intros H. by rewrite IH.
Qed.

Section Discovery.

Context {W : Type} (h : Handler W).
Variable resource_open : Opener.

(** Reading one font: the image is opened, then the widths, then the font is
    loaded; the first of the three that fails ends it. *)
Lemma font_from_project_run (name : string) (font : EbFont) (w : W) :
  let o := run h (font_from_project resource_open name font) w in
  flat_map probed (trace o) = ["Fonts/" +:+ name] /\
  (forall ne, ne ∈ flat_map opened (trace o) -> ne ∈ font_files name) /\
  match outcome o with
  | inr font' =>
      (exists ff, trace o = font_read_events resource_open name font ff font')
      /\
      flat_map loaded (trace o) = [font'] /\
      forallb succeeded (trace o) = true
  | inl _ =>
      flat_map loaded (trace o) = [] /\
      until_failure (trace o) = trace o /\
      forallb succeeded (trace o) = false
  end.
Proof.
  cbv zeta.
  unfold font_from_project, font_files, font_read_events.
  generalize ("Fonts/" +:+ name) ("Fonts/" +:+ name +:+ "_widths").
  intros png yml.
  rewrite run_bind, run_call.
  destruct (h _ (ResourceOpen resource_open png "png" false) w)
    as [[e|image_file] w1]; cbn [fst snd outcome world trace].
  { repeat split; try done. intros ne Hne.
    apply list_elem_of_singleton in Hne as ->. apply list_elem_of_here. }
  rewrite run_bind, run_call.
  destruct (h _ (ResourceOpen resource_open yml "yml" true) w1)
    as [[e|widths_file] w2]; cbn [fst snd outcome world trace].
  { repeat split; try done. }
  rewrite run_call.
  destruct (h _ (FontFromFiles font image_file widths_file) w2)
    as [[e|font'] w3]; cbn [fst snd outcome world trace];
    repeat split; try done.
  by exists (image_file, widths_file).
Qed.

Lemma probe_font_run (i : nat) (w : W) :
  let o := run h (probe_font resource_open i) w in
  flat_map probed (trace o) = ["Fonts/" +:+ pretty i] /\
  (forall ne, ne ∈ flat_map opened (trace o) -> ne ∈ font_files (pretty i)) /\
  match outcome o with
  | inr font =>
      flat_map loaded (trace o) = [font] /\
      forallb succeeded (trace o) = true
  | inl _ =>
      flat_map loaded (trace o) = [] /\
      until_failure (trace o) = trace o /\
      forallb succeeded (trace o) = false
  end.
Proof.
  cbv zeta. unfold probe_font.
  destruct (font_from_project_run (pretty i) (new_EbFont 128 16 16) w)
    as (Hp & Ho & Hcase).
  split; [done|]. split; [done|].
  destruct (outcome (run h (font_from_project _ _ _) w)); [done|].
  by destruct Hcase as (_ & ? & ?).
Qed.

(** The loop over the indices still to probe. *)
Lemma append_new_fonts_run (indices : list nat) :
  forall (fs : list EbFont) (w : W),
  let o := run h (append_new_fonts resource_open indices fs) w in
  let extra := flat_map loaded (trace o) in
  outcome o = inr (fs ++ extra) /\
  (length extra <= length indices)%nat /\
  flat_map probed (trace o)
  = map (fun i => "Fonts/" +:+ pretty i) (take (S (length extra)) indices) /\
  (forall ne, ne ∈ flat_map opened (trace o) ->
     exists i, i ∈ indices /\ ne ∈ font_files (pretty i)) /\
  until_failure (trace o) = trace o.
Proof.
  induction indices as [|i rest IH]; intros fs w; cbv zeta.
  - cbn. rewrite app_nil_r. repeat split; try done.
    intros ne Hne. by apply elem_of_nil in Hne.
  - cbn [append_new_fonts]. rewrite run_bind, run_try_except.
    cbn [outcome world trace].
    destruct (probe_font_run i w) as (Hprobed & Hopened & Hprobe).
    destruct (outcome (run h (probe_font resource_open i) w))
      as [e|font].
    + destruct Hprobe as (Hloaded & Huntil & _).
      cbn [run outcome world trace]. rewrite app_nil_r.
      rewrite Hloaded, Hprobed, app_nil_r.
      split; [done|]. split; [cbn [length]; lia|]. split; [done|].
      split; [|done].
      intros ne Hne. exists i. split; [apply list_elem_of_here|].
      by apply Hopened.
    + destruct Hprobe as (Hloaded & Hok).
      specialize (IH (fs ++ [font])
                    (world (run h (probe_font resource_open i) w))).
      cbv zeta in IH. destruct IH as (Hout & Hlen & Hpr & Hop & Hun).
      cbn [outcome world trace].
      rewrite !flat_map_app, Hloaded, Hprobed, Hout, Hpr.
      rewrite until_failure_app, Hun by done.
      rewrite <- app_assoc.
      split; [done|]. split; [cbn [length app]; lia|]. split; [done|].
      split; [|done].
      intros ne Hne. apply elem_of_app in Hne as [Hne|Hne].
      * exists i. split; [apply list_elem_of_here|]. by apply Hopened.
      * destruct (Hop ne Hne) as (j & Hj & Hne'). exists j.
        split; [by apply list_elem_of_further|done].
Qed.

End Discovery.



(** C8.  Whatever the collaborators do, the second loop of
    [read_from_project] returns normally: a probe that fails, at whichever
    of its three calls and with whichever exception, ends the loop, and the
    fonts loaded until then are returned after [fs].  Two runs that loaded
    the same fonts return the same list, however they ended. *)
Theorem append_new_fonts_swallows_every_failure (resource_open : Opener)
    (fs : list EbFont) :
  (forall (W : Type) (h : Handler W) (w : W),
     let o := run h (append_new_fonts resource_open
                       (range 5 MAX_FONT_INDEX) fs) w in
     outcome o = inr (fs ++ flat_map loaded (trace o))) /\
  (forall (W1 W2 : Type) (h1 : Handler W1) (h2 : Handler W2) (w1 : W1)
          (w2 : W2),
     let o1 := run h1 (append_new_fonts resource_open
                         (range 5 MAX_FONT_INDEX) fs) w1 in
     let o2 := run h2 (append_new_fonts resource_open
                         (range 5 MAX_FONT_INDEX) fs) w2 in
     flat_map loaded (trace o1) = flat_map loaded (trace o2) ->
     outcome o1 = outcome o2).
Proof.
  split.
  - intros W h w. apply (append_new_fonts_run h).
  - intros W1 W2 h1 h2 w1 w2. cbv zeta. intros Heq.
    rewrite (proj1 (append_new_fonts_run h1 _ _ _ _)).
    rewrite (proj1 (append_new_fonts_run h2 _ _ _ _)).
    by rewrite Heq.
Qed.

(** ** The five default fonts *)

Section DefaultFonts.

Context {W : Type} (h : Handler W).
Variable resource_open : Opener.

Lemma read_default_font_inr (i : nat) (font : EbFont)
    (acc acc' : list EbFont) (w : W) :
  let o := run h (read_default_font resource_open (i, font) acc) w in
  outcome o = inr acc' ->
  exists name ff font',
    FONT_FILENAMES !! i = Some name /\
    acc' = <[i := font']> acc /\
    trace o = font_read_events resource_open name font ff font'.
Proof.
  cbv zeta. unfold read_default_font.
  rewrite run_bind, run_lift. cbn [outcome world trace].
  destruct (getitem FONT_FILENAMES i) as [e|name] eqn:Hname; [done|].
  apply getitem_inr in Hname.
  rewrite run_bind.
  destruct (font_from_project_run h resource_open name font w)
    as (_ & _ & Hcase).
  destruct (outcome (run h (font_from_project resource_open name font) w))
    as [e|font']; [done|].
  destruct Hcase as ([ff Htr] & _ & _).
  cbn [run outcome world trace]. rewrite app_nil_r, Htr.
  intros Heq. injection Heq as <-. by exists name, ff, font'.
Qed.

Lemma write_default_font_inr (i : nat) (font : EbFont) (u : unit) (w : W) :
  let o := run h (write_default_font resource_open (i, font) u) w in
  outcome o = inr tt ->
  exists name ff,
    FONT_FILENAMES !! i = Some name /\
    trace o = font_write_events resource_open name font ff.
Proof.
  cbv zeta. unfold write_default_font, font_to_project, font_write_events.
  rewrite run_bind, run_lift. cbn [outcome world trace].
  destruct (getitem FONT_FILENAMES i) as [e|name] eqn:Hname; [done|].
  apply getitem_inr in Hname.
  rewrite run_bind, run_call.
  destruct (h _ (ResourceOpen resource_open ("Fonts/" +:+ name) "png"
                   false) w) as [[e|image_file] w1];
    cbn [fst snd outcome world trace]; [done|].
  rewrite run_bind, run_call.
  destruct (h _ (ResourceOpen resource_open
                   ("Fonts/" +:+ name +:+ "_widths") "yml" true) w1)
    as [[e|widths_file] w2]; cbn [fst snd outcome world trace]; [done|].
  rewrite run_call.
  destruct (h _ (FontToFiles font image_file widths_file) w2)
    as [[e|[]] w3]; cbn [fst snd outcome world trace]; [done|].
  intros _. by exists name, (image_file, widths_file).
Qed.

(** The first loop of [read_from_project], when it succeeds. *)
Lemma read_default_fonts_inr (fs : list EbFont) :
  forall (i : nat) (acc acc' : list EbFont) (w : W),
  let o := run h (for_each (enumerate_from i fs)
                    (read_default_font resource_open) acc) w in
  outcome o = inr acc' ->
  (i + length fs <= length acc)%nat ->
  ((i <= 5)%nat -> (i + length fs <= 5)%nat) /\
  exists handles fonts',
    length handles = length fs /\
    length fonts' = length fs /\
    acc' = take i acc ++ fonts' ++ drop (i + length fs) acc /\
    trace o
    = concat (zip_with
                (fun nf hf => font_read_events resource_open nf.1 nf.2
                                hf.1 hf.2)
                (zip (drop i FONT_FILENAMES) fs) (zip handles fonts')).
Proof.
  induction fs as [|font fs IH]; intros i acc acc' w; cbv zeta.
  - cbn [enumerate_from for_each run outcome trace length].
    intros Heq Hlen. injection Heq as <-. split; [lia|].
    exists [], []. rewrite Nat.add_0_r. cbn [app]. rewrite take_drop.
    by destruct (drop i FONT_FILENAMES).
  - cbn [enumerate_from for_each]. rewrite run_bind.
    destruct (outcome (run h (read_default_font resource_open (i, font) acc)
                         w)) as [e|acc1] eqn:Hstep; [done|].
    apply read_default_font_inr in Hstep as (name & ff & font' & Hname & -> & ->).
    cbn [outcome world trace].
    intros Hrest Hlen. cbn [length] in Hlen.
    apply IH in Hrest as (Hfive & handles & fonts' & Hlh & Hlf & -> & ->);
      [|rewrite length_insert; lia].
    assert (i < 5)%nat as Hi by (by apply lookup_lt_Some in Hname).
    split; [cbn [length]; lia|].
    exists (ff :: handles), (font' :: fonts'). cbn [length].
    split; [lia|]. split; [lia|]. split.
    + rewrite (take_S_r (<[i:=font']> acc) i font')
        by (apply list_lookup_insert_eq; lia).
      rewrite take_insert_ge by lia. rewrite drop_insert_lt by lia.
      rewrite <- !app_assoc. cbn [app].
      by replace (i + S (length fs))%nat with (S i + length fs)%nat by lia.
    + by rewrite (drop_S _ _ _ Hname).
Qed.

(** The loop of [write_to_project], when it succeeds. *)
Lemma write_default_fonts_inr (fs : list EbFont) :
  forall (i : nat) (w : W) (u : unit),
  let o := run h (for_each (enumerate_from i fs)
                    (write_default_font resource_open) u) w in
  outcome o = inr tt ->
  ((i <= 5)%nat -> (i + length fs <= 5)%nat) /\
  exists handles,
    length handles = length fs /\
    trace o
    = concat (zip_with
                (fun nf ff => font_write_events resource_open nf.1 nf.2 ff)
                (zip (drop i FONT_FILENAMES) fs) handles).
Proof.
  induction fs as [|font fs IH]; intros i w u; cbv zeta.
  - cbn [enumerate_from for_each run outcome trace length].
    intros _. split; [lia|]. exists [].
    by destruct (drop i FONT_FILENAMES).
  - cbn [enumerate_from for_each]. rewrite run_bind.
    destruct (outcome (run h (write_default_font resource_open (i, font) u)
                         w)) as [e|[]] eqn:Hstep; [done|].
    apply write_default_font_inr in Hstep as (name & ff & Hname & ->).
    cbn [outcome world trace].
    intros Hrest.
    apply IH in Hrest as (Hfive & handles & Hlh & ->).
    assert (i < 5)%nat as Hi by (by apply lookup_lt_Some in Hname).
    split; [cbn [length]; lia|].
    exists (ff :: handles). cbn [length].
    split; [lia|]. by rewrite (drop_S _ _ _ Hname).
Qed.

(** A project import that succeeds: the default fonts, read under their
    names into their own places, then the fonts discovered, then the
    credits. *)
Lemma read_from_project_inr (self self' : FontModule) (w : W) :
  let o := run h (read_from_project self resource_open) w in
  outcome o = inr self' ->
  (length (fonts self) <= 5)%nat /\
  exists handles fonts' later,
    length handles = length (fonts self) /\
    length fonts' = length (fonts self) /\
    take (length (fonts self)) (fonts self') = fonts' /\
    (length (fonts self') <= length (fonts self) + 59)%nat /\
    trace o
    = concat (zip_with
                (fun nf hf => font_read_events resource_open nf.1 nf.2
                                hf.1 hf.2)
                (zip FONT_FILENAMES (fonts self)) (zip handles fonts'))
      ++ later.
Proof.
  cbv zeta. unfold read_from_project, enumerate.
  rewrite run_bind.
  destruct (outcome (run h (for_each (enumerate_from 0 (fonts self))
              (read_default_font resource_open) (fonts self)) w))
    as [e|fs1] eqn:Hbase; [done|].
  apply read_default_fonts_inr in Hbase
    as (Hfive & handles & fonts' & Hlh & Hlf & -> & Htr); [|simpl; lia].
  rewrite Htr. cbn [outcome world trace]. rewrite run_bind.
  match goal with |- context [run h (append_new_fonts _ _ ?fs) ?w1] =>
    destruct (append_new_fonts_run h resource_open (range 5 MAX_FONT_INDEX)
                fs w1) as (Hout & Hlen & _);
    rewrite Hout;
    set (disc := run h (append_new_fonts resource_open
                          (range 5 MAX_FONT_INDEX) fs) w1) in *
  end.
  cbn [outcome world trace].
  unfold read_credits_font_from_project.
  rewrite run_bind, run_call.
  destruct (h _ (ResourceOpen resource_open "Fonts/credits" "png" false)
              (world disc)) as [[e|image_file] w2];
    cbn [fst snd outcome world trace]; [done|].
  rewrite run_bind, run_call.
  destruct (h _ (CreditsFromFiles (credits_font _) image_file) w2)
    as [[e|c] w3]; cbn [fst snd outcome world trace run]; [done|].
  intros Heq. injection Heq as <-.
  cbn [with_credits_font with_fonts fonts].
  split; [apply Hfive; lia|].
  exists handles, fonts'. eexists.
  split; [done|]. split; [done|].
  cbn [take app drop] in *. rewrite Nat.add_0_l in *.
  rewrite drop_all, app_nil_r in *.
  split; [by rewrite take_app_length' by done|].
  split; [|by rewrite <- !app_assoc].
  rewrite length_app. change (length (range 5 MAX_FONT_INDEX)) with 59%nat
    in Hlen. lia.
Qed.


End DefaultFonts.

(** C9.  The second loop of [read_from_project] opens no resource but the
    two files of a font numbered from 5 to 63 and loads at most 59 fonts,
    whatever the project holds; and a project import that succeeds leaves at
    most 64 fonts in the module. *)
Theorem read_from_project_at_most_64 {W : Type} (h : Handler W)
    (resource_open : Opener) (self self' : FontModule) (fs : list EbFont)
    (w w' : W) :
  let d := run h (append_new_fonts resource_open (range 5 MAX_FONT_INDEX) fs)
             w' in
  let o := run h (read_from_project self resource_open) w in
  (length (flat_map loaded (trace d)) <= 59)%nat /\
  (forall ne, ne ∈ flat_map opened (trace d) ->
     exists i, (5 <= i < 64)%nat /\ ne ∈ font_files (pretty i)) /\
  (outcome o = inr self' -> (length (fonts self') <= 64)%nat).
Proof.
  cbv zeta.
  destruct (append_new_fonts_run h resource_open (range 5 MAX_FONT_INDEX)
              fs w') as (_ & Hlen & _ & Hop & _).
  split; [exact Hlen|]. split.
  - intros ne Hne. destruct (Hop ne Hne) as (i & Hi & Hfiles).
    exists i. split; [|done].
    unfold range in Hi. apply elem_of_seq in Hi.
    change (MAX_FONT_INDEX - 5)%nat with 59%nat in Hi. lia.
  - intros Hok. apply read_from_project_inr in Hok
      as (Hfive & _ & _ & _ & _ & _ & _ & Hlen' & _).
    lia.
Qed.


(** ** The examples of the spec, run *)

(** Fonts 0 to 4, 6 and 7: the import keeps the five default fonts, probes
    [Fonts/5] and nothing after it. *)
Example import_of_gapped_project :
  (exists self, outcome (example_import gapped_project) = inr self /\
                length (fonts self) = 5%nat) /\
  flat_map probed (trace (example_import gapped_project))
  = ["Fonts/0"; "Fonts/1"; "Fonts/3"; "Fonts/4"; "Fonts/2"; "Fonts/5";
     "Fonts/credits"]%string.
Proof. split; [eexists; split|]; vm_compute; reflexivity. Qed.

(** A font 7 that cannot be decoded ends the import like a missing font 7:
    the same seven fonts. *)
Example import_of_corrupt_project :
  outcome (example_import corrupt_project)
  = outcome (example_import ended_project).
Proof. vm_compute. reflexivity. Qed.

(** A hundred fonts in the project: sixty-four in the module, and
    [Fonts/64] is not opened. *)
Example import_of_crowded_project :
  (exists self, outcome (example_import crowded_project) = inr self /\
                length (fonts self) = 64%nat) /\
  ("Fonts/64", "png")%string
  ∉ flat_map opened (trace (example_import crowded_project)).
Proof.
  split; [eexists; split; vm_compute; reflexivity|].
  apply (bool_decide_unpack _). vm_compute. reflexivity.
Qed.


Lemma append_new_fonts_swallows_every_failure_witness :
  outcome (example_discovery corrupt_project)
  = outcome (example_discovery ended_project).
Proof.
  apply (proj2 (append_new_fonts_swallows_every_failure Reader
                  (fonts example_init))).
  vm_compute. reflexivity.
Defined.

Lemma read_from_project_at_most_64_witness :
  (exists self, outcome (example_import crowded_project) = inr self) /\
  forall self, outcome (example_import crowded_project) = inr self ->
               (length (fonts self) <= 64)%nat.
Proof.
  split; [eexists; vm_compute; reflexivity|].
  intros self.
  apply (read_from_project_at_most_64 project_handler Reader example_init
           self [] crowded_project crowded_project).
Defined.


(** ** The migration walk on the examples *)

Lemma upgrade_project_past_6 (depth : nat) :
  forall v : Z, 6 < v ->
  upgrade_project example_image_size example_palette depth example_init v 6
    Reader Writer
  = Ret StillDescending.
Proof.
  induction depth as [|depth IH]; intros v Hv; [done|].
  cbn [upgrade_project].
  destruct (decide (v = 6)); [lia|].
  destruct (decide (v = 5)); [lia|].
  destruct (decide (v <= 2)); [lia|].
  apply IH. lia.
Qed.

(** From version 7 the walk never reaches version 6: there is no depth of
    recursion at which the call has ended.  It makes no call on the project
    or the ROM on the way, so no collaborator can end it either. *)
Lemma upgrade_project_7_to_6_never_returns :
  ~ exists depth : nat,
      outcome (run project_handler
                 (upgrade_project example_image_size example_palette depth
                    example_init 7 6 Reader Writer)
                 gapped_project)
      <> inr StillDescending.
Proof.
  intros [depth Hended]. apply Hended.
  by rewrite upgrade_project_past_6 by lia.
Qed.

Lemma upgrade_project_reaches_target_witness :
  (4 = 6 \/ (4 <= 2 /\ 3 <= 6) \/ (3 <= 4 /\ 4 <= 6)) /\
  exists depth,
    outcome (run project_handler
               (upgrade_project example_image_size example_palette depth
                  example_init 4 6 Reader Writer)
               gapped_project)
    <> inr StillDescending.
Proof.
  assert (4 = 6 \/ (4 <= 2 /\ 3 <= 6) \/ (3 <= 4 /\ 4 <= 6)) as Hpath
    by (right; right; lia).
  split; [exact Hpath|].
  destruct (upgrade_project_reaches_target example_image_size
              example_palette project_handler 4 6 Hpath)
    as [[depth Hdepth] _].
  exists depth. apply Hdepth.
Defined.

(** ** The version 5 step *)

Lemma default_width_lookup (d : gmap Z Z) (x c : Z) :
  default_width d x !! c
  = if decide (c = x) then Some (default 0 (d !! c)) else d !! c.
Proof.
  unfold default_width. destruct (d !! x) as [v|] eqn:Hx.
  - case_decide as Hc; [|done]. subst c. by rewrite Hx.
  - case_decide as Hc.
    + subst c. by rewrite lookup_insert_eq, Hx.
    + by rewrite lookup_insert_ne.
Qed.

Lemma foldl_default_width_lookup (l : list Z) :
  forall (d : gmap Z Z) (c : Z),
  foldl default_width d l !! c
  = if decide (c ∈ l) then Some (default 0 (d !! c)) else d !! c.
Proof.
  induction l as [|x l IH]; intros d c; cbn [foldl].
  - case_decide as Hc; [by apply elem_of_nil in Hc|done].
  - rewrite IH, default_width_lookup.
    destruct (decide (c ∈ x :: l)) as [Hin|Hnin];
      destruct (decide (c ∈ l)) as [Hl|Hl];
      destruct (decide (c = x)) as [->|Hne]; try done.
    + by apply elem_of_cons in Hin as [?|?].
    + destruct Hnin. apply list_elem_of_here.
    + destruct Hnin. by apply list_elem_of_further.
    + destruct Hnin. apply list_elem_of_here.
Qed.

(** The width table after the step: the characters 96 to 127 are all
    present, with the width they had or 0; nothing else changes. *)
Lemma expand_widths_lookup (d : gmap Z Z) (c : Z) :
  expand_widths d !! c
  = if decide (96 <= c < 128) then Some (default 0 (d !! c)) else d !! c.
Proof.
  unfold expand_widths. rewrite foldl_default_width_lookup.
  unfold rangeZ.
  destruct (decide (96 <= c < 128)) as [Hc|Hc].
  - rewrite decide_True; [done|]. apply elem_of_seqZ. lia.
  - rewrite decide_False; [done|]. rewrite elem_of_seqZ. lia.
Qed.

Lemma elem_of_coordinates (w h : Z) (xy : Z * Z) :
  xy ∈ coordinates w h <-> 0 <= xy.1 < w /\ 0 <= xy.2 < h.
Proof.
  unfold coordinates, rangeZ. rewrite list_elem_of_bind. split.
  - intros (y & Hxy & Hy). apply list_elem_of_bind in Hxy as (x & Hxy & Hx).
    apply list_elem_of_singleton in Hxy as ->.
    apply elem_of_seqZ in Hx, Hy. simpl. lia.
  - intros [Hx Hy]. exists xy.2. split; [|apply elem_of_seqZ; lia].
    apply list_elem_of_bind. exists xy.1.
    split; [|apply elem_of_seqZ; lia].
    destruct xy. apply list_elem_of_here.
Qed.

Lemma fill_row (y : Z) (l : list Z) :
  forall im : Image,
  (forall x, x ∈ l -> in_image im (x, y)) ->
  exists im',
    for_each l (fun x im => lift (putpixel im (x, y) 1)) im = Ret im' /\
    im_width im' = im_width im /\
    im_height im' = im_height im /\
    im_palette im' = im_palette im /\
    forall k, im_data im' !! k
              = if decide (k.2 = y /\ k.1 ∈ l) then Some 1
                else im_data im !! k.
Proof.
  induction l as [|x l IH]; intros im Hin.
  - exists im. repeat split; try done. intros k.
    rewrite decide_False; [done|]. intros [_ H]. by apply elem_of_nil in H.
  - cbn [for_each]. unfold putpixel at 1.
    rewrite decide_True by apply Hin, list_elem_of_here. cbn [lift bind].
    edestruct IH as (im' & -> & Hw & Hh & Hp & Hd).
    { intros x' Hx'. specialize (Hin x' (list_elem_of_further _ _ _ Hx')).
      exact Hin. }
    exists im'. cbn in Hw, Hh, Hp. repeat split; try done.
    intros k. rewrite Hd. cbn [im_data].
    destruct (decide (k.2 = y /\ k.1 ∈ l)) as [[Hy Hl]|Hl].
    + rewrite decide_True; [done|]. split; [done|].
      by apply list_elem_of_further.
    + destruct (decide (k = (x, y))) as [->|Hk].
      * rewrite lookup_insert_eq, decide_True; [done|].
        split; [done|]. apply list_elem_of_here.
      * rewrite lookup_insert_ne by done. rewrite decide_False; [done|].
        intros [Hy [Hx|Hx]%elem_of_cons]; [|tauto].
        destruct k; simpl in *; congruence.
Qed.

Lemma fill_rows (w : Z) (l : list Z) :
  forall im : Image,
  w = im_width im ->
  (forall y, y ∈ l -> 0 <= y < im_height im) ->
  exists im',
    for_each l
      (fun y im =>
         for_each (rangeZ 0 w) (fun x im => lift (putpixel im (x, y) 1)) im)
      im = Ret im' /\
    im_width im' = im_width im /\
    im_height im' = im_height im /\
    im_palette im' = im_palette im /\
    forall k, im_data im' !! k
              = if decide (k.2 ∈ l /\ 0 <= k.1 < w) then Some 1
                else im_data im !! k.
Proof.
  induction l as [|y l IH]; intros im Hw Hin.
  - exists im. repeat split; try done; intros k.
    all: rewrite decide_False; [done|].
    all: intros [H _]; by apply elem_of_nil in H.
  - cbn [for_each].
    destruct (fill_row y (rangeZ 0 w) im) as (im1 & -> & Hw1 & Hh1 & Hp1 & Hd1).
    { intros x Hx. apply elem_of_seqZ in Hx.
      specialize (Hin y (list_elem_of_here _ _)).
      unfold in_image. simpl. lia. }
    cbn [bind].
    destruct (IH im1) as (im' & -> & Hw' & Hh' & Hp' & Hd').
    { congruence. }
    { intros y' Hy'. rewrite Hh1. by apply Hin, list_elem_of_further. }
    exists im'. repeat split; try congruence.
    intros k. rewrite Hd', Hd1.
    destruct (decide (k.2 ∈ l /\ 0 <= k.1 < w)) as [[Hl Hx]|Hl].
    + rewrite decide_True; [done|]. split; [|done].
      by apply list_elem_of_further.
    + destruct (decide (k.2 = y /\ k.1 ∈ rangeZ 0 w)) as [[Hy Hx]|Hy].
      * rewrite decide_True; [done|]. apply elem_of_seqZ in Hx.
        split; [|lia]. subst y. apply list_elem_of_here.
      * rewrite decide_False; [done|].
        intros [[Hy'|Hy']%elem_of_cons Hx]; [|tauto].
        apply Hy. split; [done|]. apply elem_of_seqZ. lia.
Qed.

Lemma paste_pixel_origin (src dst : Image) (data : gmap (Z * Z) Z)
    (xy : Z * Z) :
  paste_pixel src (0, 0) dst data xy
  = match im_data src !! xy with
    | Some v => if decide (in_image dst xy) then <[xy := v]> data else data
    | None => data
    end.
Proof.
  unfold paste_pixel. destruct xy as [x y]. cbn [fst snd].
  by rewrite !Z.add_0_r.
Qed.

Lemma foldl_paste_lookup (src dst : Image) (l : list (Z * Z)) :
  forall (data : gmap (Z * Z) Z) (k : Z * Z),
  foldl (paste_pixel src (0, 0) dst) data l !! k
  = if decide (k ∈ l /\ in_image dst k /\ is_Some (im_data src !! k))
    then im_data src !! k else data !! k.
Proof.
  induction l as [|xy l IH]; intros data k; cbn [foldl].
  - rewrite decide_False; [done|]. intros [H _]. by apply elem_of_nil in H.
  - rewrite IH, paste_pixel_origin.
    destruct (decide (k ∈ l /\ in_image dst k /\ is_Some (im_data src !! k)))
      as [(Hl & Hd & Hs)|Hl].
    + rewrite decide_True; [done|]. split; [|done].
      by apply list_elem_of_further.
    + destruct (decide (k = xy)) as [->|Hne].
      * destruct (im_data src !! xy) as [v|] eqn:Hv.
        -- destruct (decide (in_image dst xy)) as [Hd|Hd].
           ++ rewrite lookup_insert_eq, decide_True; [done|].
              split; [apply list_elem_of_here|]. split; [done|]. by eexists.
           ++ rewrite decide_False; [done|]. tauto.
        -- rewrite decide_False; [done|].
           intros (_ & _ & [? ?]). congruence.
      * assert (forall d' : gmap (Z * Z) Z,
                  (d' = data \/ exists v, d' = <[xy := v]> data) ->
                  d' !! k = data !! k) as Hsame.
        { intros d' [->|[v ->]]; [done|]. by rewrite lookup_insert_ne. }
        rewrite decide_False.
        -- apply Hsame. destruct (im_data src !! xy); [|by left].
           case_decide; [right; by eexists|by left].
        -- intros ([?|?]%elem_of_cons & ? & ?); [done|tauto].
Qed.

(** The canvas after the step: it has the size asked for and the shared
    palette; inside it, a pixel of the original image keeps its index and
    every other pixel has index 1. *)
Lemma expand_image_ret (palette : list Z) (image : Image) (w h : Z) :
  0 <= w -> 0 <= h ->
  exists expanded,
    expand_image palette image w h = Ret expanded /\
    im_width expanded = w /\
    im_height expanded = h /\
    im_palette expanded = Some palette /\
    forall xy, in_image expanded xy ->
      getpixel expanded xy = Some (default 1 (getpixel image xy)).
Proof.
  intros Hw Hh. unfold expand_image, Image_new.
  rewrite decide_True by done. cbn [lift bind]. unfold fill_blank.
  edestruct (fill_rows w (rangeZ 0 h)) as (im1 & -> & Hw1 & Hh1 & Hp1 & Hd1);
    [reflexivity| |].
  { intros y Hy. apply elem_of_seqZ in Hy. simpl. lia. }
  cbn [bind]. eexists. split; [reflexivity|].
  cbn [paste palette_to_image im_width im_height im_palette im_data] in *.
  split; [done|]. split; [done|]. split; [done|].
  intros xy Hxy. unfold getpixel.
  rewrite decide_True by done.
  unfold in_image in *.
  cbn [paste palette_to_image im_data im_width im_height] in *.
  rewrite foldl_paste_lookup, Hd1.
  unfold in_image. cbn [palette_to_image im_width im_height].
  rewrite Hw1, Hh1 in *.
  destruct (decide (0 <= xy.1 < im_width image /\ 0 <= xy.2 < im_height image))
    as [Hsrc|Hsrc].
  - destruct (im_data image !! xy) as [v|] eqn:Hv.
    + rewrite decide_True; [done|].
      split; [by apply elem_of_coordinates|]. split; [lia|]. by eexists.
    + rewrite decide_False by (intros (_ & _ & [? ?]); congruence).
      rewrite decide_True; [done|]. split; [|lia].
      apply elem_of_seqZ. lia.
  - rewrite decide_False
      by (intros (Hc & _); by apply elem_of_coordinates in Hc).
    rewrite decide_True; [done|]. split; [|lia]. apply elem_of_seqZ. lia.
Qed.

Section ExpandFont.

Variable image_size : EbFont -> Z * Z.
Variable FONT_IMAGE_PALETTE : list Z.
Context {W : Type} (h : Handler W).
Variables resource_open_r resource_open_w : Opener.

(** C5.  The version 5 step on one font, when it succeeds.  The image saved
    is the one decoded, pasted at the origin of a canvas of the size of the
    font's image, in which every other pixel has palette index 1; the width
    table dumped is the one loaded, in which every character from 96 to 127
    is present, with the width it had or else 0, and no other entry has
    changed. *)
Theorem expand_font_widens (i : nat) (font : EbFont) (w : W) :
  let o := run h (expand_font image_size FONT_IMAGE_PALETTE resource_open_r
                    resource_open_w (i, font) tt) w in
  outcome o = inr tt ->
  exists image expanded widths_dict,
    flat_map image_opened (trace o) = [image] /\
    flat_map image_saved (trace o) = [expanded] /\
    flat_map widths_loaded (trace o) = [widths_dict] /\
    flat_map widths_dumped (trace o) = [expand_widths widths_dict] /\
    (im_width expanded, im_height expanded) = image_size font /\
    (forall xy, in_image expanded xy ->
       getpixel expanded xy = Some (default 1 (getpixel image xy))) /\
    (forall c, 96 <= c < 128 ->
       expand_widths widths_dict !! c = Some (default 0 (widths_dict !! c)))
    /\
    (forall c, ~ 96 <= c < 128 ->
       expand_widths widths_dict !! c = widths_dict !! c).
Proof.
  cbv zeta.
  remember (run h (expand_font image_size FONT_IMAGE_PALETTE resource_open_r
                     resource_open_w (i, font) tt) w) as o eqn:Ho.
  unfold expand_font in Ho.
  rewrite run_bind, run_lift in Ho. cbn [outcome world trace] in Ho.
  destruct (getitem FONT_FILENAMES i) as [e|name]; [by subst o|].
  destruct (image_size font) as [new_image_w new_image_h] eqn:Hsize.
  rewrite run_bind, run_call in Ho.
  destruct (h _ (ResourceOpen resource_open_r ("Fonts/" +:+ name) "png"
                   false) w) as [[e|image_file] w1];
    cbn [fst snd outcome world trace] in Ho; [by subst o|].
  rewrite run_bind, run_call in Ho.
  destruct (h _ (OpenIndexedImage image_file) w1) as [[e|image] w2];
    cbn [fst snd outcome world trace] in Ho; [by subst o|].
  rewrite run_bind in Ho.
  destruct (decide (0 <= new_image_w /\ 0 <= new_image_h)) as [[Hw Hh]|Hneg].
  2: { unfold expand_image, Image_new in Ho.
       rewrite decide_False in Ho by done. by subst o. }
  destruct (expand_image_ret FONT_IMAGE_PALETTE image _ _ Hw Hh)
    as (expanded & Hexp & Hew & Heh & _ & Hpix).
  rewrite Hexp in Ho. cbn [run outcome world trace] in Ho.
  rewrite run_bind, run_call in Ho.
  destruct (h _ (ResourceOpen resource_open_w ("Fonts/" +:+ name) "png"
                   false) w2) as [[e|image_file2] w3];
    cbn [fst snd outcome world trace] in Ho; [by subst o|].
  rewrite run_bind, run_call in Ho.
  destruct (h _ (ImageSave expanded image_file2) w3) as [[e|[]] w4];
    cbn [fst snd outcome world trace] in Ho; [by subst o|].
  rewrite run_bind, run_call in Ho.
  destruct (h _ (ResourceOpen resource_open_r
                   ("Fonts/" +:+ name +:+ "_widths") "yml" true) w4)
    as [[e|widths_file] w5];
    cbn [fst snd outcome world trace] in Ho; [by subst o|].
  rewrite run_bind, run_call in Ho.
  destruct (h _ (YmlLoad widths_file) w5) as [[e|widths_dict] w6];
    cbn [fst snd outcome world trace] in Ho; [by subst o|].
  rewrite run_bind, run_call in Ho.
  destruct (h _ (ResourceOpen resource_open_w
                   ("Fonts/" +:+ name +:+ "_widths") "yml" true) w6)
    as [[e|widths_file2] w7];
    cbn [fst snd outcome world trace] in Ho; [by subst o|].
  rewrite run_call in Ho.
  destruct (h _ (YmlDump (expand_widths widths_dict) widths_file2) w7)
    as [[e|[]] w8];
    cbn [fst snd outcome world trace] in Ho; [by subst o|].
  subst o. cbn [outcome trace app]. intros _.
  exists image, expanded, widths_dict.
  split; [done|]. split; [done|]. split; [done|]. split; [done|].
  split; [by rewrite Hew, Heh|]. split; [done|].
  split.
  - intros c Hc. rewrite expand_widths_lookup. by rewrite decide_True.
  - intros c Hc. rewrite expand_widths_lookup. by rewrite decide_False.
Qed.

End ExpandFont.

(** The example of section 8 of the spec: the table with entries 0 and 10
    comes out with these two and a zero for each of 96 to 127. *)
Example expansion_of_old_widths :
  expand_widths old_widths
  = list_to_map ([(0, 5); (10, 3)] ++ map (fun c => (c, 0)) (rangeZ 96 128)).
Proof. vm_compute. reflexivity. Qed.

Example expansion_of_old_project :
  outcome example_expansion = inr tt /\
  resources (world example_expansion) !! ("Fonts/0_widths", "yml")%string
  = Some (RawYml (expand_widths old_widths)).
Proof. split; vm_compute; reflexivity. Qed.

Lemma expand_font_widens_witness :
  outcome example_expansion = inr tt /\
  exists expanded,
    flat_map image_saved (trace example_expansion) = [expanded] /\
    (im_width expanded, im_height expanded) = (16, 8) /\
    getpixel expanded (3, 5) = Some 2 /\
    getpixel expanded (3, 6) = Some 1.
Proof.
  assert (outcome example_expansion = inr tt) as Hok
    by (vm_compute; reflexivity).
  split; [exact Hok|].
  destruct (expand_font_widens example_image_size example_palette
              project_handler Reader Writer 0 old_font old_project Hok)
    as (image & expanded & widths_dict & Hopened & Hsaved & _ & _ & Hsize
        & Hpix & _).
  assert (example_image_size old_font = (16, 8)) as Hcanvas
    by (vm_compute; reflexivity).
  rewrite Hcanvas in Hsize.
  exists expanded. split; [exact Hsaved|]. split; [exact Hsize|].
  assert (image = old_image) as ->.
  { assert (flat_map image_opened (trace example_expansion) = [old_image])
      as Hold by (vm_compute; reflexivity).
    unfold example_expansion in Hold. rewrite Hold in Hopened.
    by injection Hopened as <-. }
  injection Hsize as Hw Hh.
  split.
  - rewrite Hpix by (unfold in_image; rewrite Hw, Hh; cbn [fst snd]; lia).
    vm_compute. reflexivity.
  - rewrite Hpix by (unfold in_image; rewrite Hw, Hh; cbn [fst snd]; lia).
    vm_compute. reflexivity.
Defined.

(** ** Writing twice *)

Lemma store_app (d : gmap Z Z) (ws1 ws2 : list (Z * Z)) :
  store (store d ws1) ws2 = store d (ws1 ++ ws2).
Proof. unfold store. by rewrite foldl_app. Qed.

Lemma store_union (ws : list (Z * Z)) :
  forall d : gmap Z Z, store d ws = store ∅ ws ∪ d.
Proof.
  induction ws as [|[o b] ws IH]; intros d.
  - cbn. by rewrite (left_id_L ∅ (∪)).
  - unfold store in *. cbn [foldl fst snd].
    rewrite IH. rewrite (IH (<[o:=b]> ∅)).
    rewrite <- (assoc_L (∪)). f_equal.
    rewrite insert_union_singleton_l.
    rewrite (insert_union_singleton_l ∅).
    by rewrite (right_id_L ∅ (∪)).
Qed.

(** Writing the same bytes a second time changes nothing. *)
Lemma store_twice (d : gmap Z Z) (ws : list (Z * Z)) :
  store (store d ws) ws = store d ws.
Proof.
  rewrite (store_union ws (store d ws)), (store_union ws d).
  by rewrite (assoc_L (∪)), (idemp_L (∪)).
Qed.

Lemma sim_bind {A B A' B' : Type} (R : A -> B -> Prop)
    (S : A' -> B' -> Prop) (p : Prog A) (q : Prog B) (f : A -> Prog A')
    (g : B -> Prog B') :
  sim R p q ->
  (forall a b, R a b -> sim S (f a) (g b)) ->
  sim S (x <- p ;; f x) (x <- q ;; g x).
Proof.
  intros Hpq Hfg. induction Hpq as [a b Hab|e|X c k1 k2 Hc Hk IH]; cbn.
  - by apply Hfg.
  - apply sim_raise.
  - apply sim_vis; [done|]. intros r. apply IH.
Qed.

Lemma sim_lift {A : Type} (r : result A) : sim eq (lift r) (lift r).
Proof. destruct r; [apply sim_raise|by apply sim_ret]. Qed.

Lemma sim_call {X : Type} (c : Call X) :
  writes_only c -> sim eq (call c) (call c).
Proof. intros Hc. apply sim_vis; [done|]. intros r. apply sim_lift. Qed.

Lemma table_set_Some (t : EbTable) (i j : nat) (v : Z) (row : list Z) :
  values t !! i = Some row ->
  (j < length row)%nat ->
  table_set t i j v
  = inr {| num_rows := num_rows t;
           values := <[i := <[j := v]> row]> (values t) |}.
Proof. intros Hrow Hj. apply table_set_inr. by exists row. Qed.

Lemma rows_agree_all (n : nat) (ta tb : EbTable) :
  rows_agree n n ta tb -> ta = tb.
Proof.
  intros (Hnr & Hla & Hlb & Hsame & _).
  destruct ta as [na va], tb as [nb vb]. cbn in *. f_equal; [done|].
  apply list_eq. intros j. destruct (decide (j < n)%nat) as [Hj|Hj].
  - by apply Hsame.
  - rewrite !(proj2 (lookup_ge_None _ _)); [done|lia|lia].
Qed.

Lemma rows_agree_grow (n : nat) (nr : Z) (va vb : list (list Z)) :
  (length va <= n)%nat -> (length vb <= n)%nat ->
  Forall (fun row => length row = 4%nat) va ->
  Forall (fun row => length row = 4%nat) vb ->
  rows_agree n 0 {| num_rows := nr; values := grow va n |}
    {| num_rows := nr; values := grow vb n |}.
Proof.
  intros Hla Hlb Hfa Hfb. unfold rows_agree. cbn [num_rows values].
  rewrite !grow_length.
  assert (forall (v : list (list Z)),
            Forall (fun row => length row = 4%nat) v ->
            forall j row, grow v n !! j = Some row -> length row = 4%nat)
    as Hfour.
  { intros v Hv j row. rewrite grow_spec.
    intros [Hj|[_ Hj]]%lookup_app_Some.
    - by eapply (proj1 (Forall_lookup _ _) Hv).
    - by apply lookup_replicate_1 in Hj as [-> _]. }
  split; [done|]. split; [lia|]. split; [lia|]. split; [intros; lia|].
  split; intros j row _; by apply Hfour.
Qed.

Section WritingTwice.

Variable from_snes_address : Z -> result Z.
Variable to_snes_address : Z -> result Z.
Variable effect : forall X : Type, Call X -> list (Z * Z) -> Effect X.
Variable table_rows : EbTable -> Z -> gmap Z Z -> result (list (list Z)).

Local Notation "'handler'" := (rom_handler effect table_rows).

Lemma rom_handler_writes_only {X : Type} (c : Call X) (rom : Rom) :
  writes_only c ->
  handler X c rom = commit rom (effect X c (rom_free rom)).
Proof. by destruct c. Qed.

(** Two programs alike, run on two ROMs with the same free ranges: they end
    alike, leave the same free ranges, and have written the same bytes. *)
Lemma sim_run {A B : Type} (R : A -> B -> Prop) (p : Prog A) (q : Prog B) :
  sim R p q ->
  forall ra rb : Rom,
  rom_free ra = rom_free rb ->
  let oa := run handler p ra in
  let ob := run handler q rb in
  alike R (outcome oa) (outcome ob) /\
  rom_free (world oa) = rom_free (world ob) /\
  exists ws,
    rom_data (world oa) = store (rom_data ra) ws /\
    rom_data (world ob) = store (rom_data rb) ws.
Proof.
  induction 1 as [a b Hab|e|X c k1 k2 Hc Hk IH]; intros ra rb Hfree;
    cbv zeta.
  - cbn. split; [done|]. split; [done|]. by exists [].
  - cbn. split; [done|]. split; [done|]. by exists [].
  - cbn [run]. rewrite !rom_handler_writes_only by done.
    rewrite <- Hfree. unfold commit.
    set (e := effect X c (rom_free ra)).
    cbn [after outcome world trace].
    edestruct (IH (answer e)) as (Hout & Hfr & ws & Ha & Hb);
      [|split; [exact Hout|split; [exact Hfr|]]]; [done|].
    exists (writes e ++ ws). rewrite Ha, Hb. cbn [rom_data].
    by rewrite !store_app.
Qed.

Lemma sim_write_font (n i : nat) (font : EbFont) (ta tb : EbTable) :
  (i < n)%nat ->
  rows_agree n i ta tb ->
  sim (rows_agree n (S i))
    (write_font_to_rom to_snes_address (i, font) ta)
    (write_font_to_rom to_snes_address (i, font) tb).
Proof.
  intros Hi (Hnr & Hla & Hlb & Hsame & Hfa & Hfb).
  destruct (lookup_lt_is_Some_2 (values ta) i) as [ra Hra]; [lia|].
  destruct (lookup_lt_is_Some_2 (values tb) i) as [rb Hrb]; [lia|].
  pose proof (Hfa i ra (le_n _) Hra) as Hwa.
  pose proof (Hfb i rb (le_n _) Hrb) as Hwb.
  unfold write_font_to_rom, call. cbn [bind].
  apply sim_vis; [done|]. intros [e|offsets]; cbn [lift bind];
    [apply sim_raise|].
  destruct (to_snes_address offsets.2) as [e|a0]; cbn [lift bind];
    [apply sim_raise|].
  rewrite (table_set_Some ta i 0 a0 ra), (table_set_Some tb i 0 a0 rb)
    by (done || lia).
  cbn [lift bind].
  destruct (to_snes_address offsets.1) as [e|a1]; cbn [lift bind];
    [apply sim_raise|].
  rewrite (table_set_Some _ i 1 a1 (<[0%nat:=a0]> ra)),
    (table_set_Some _ i 1 a1 (<[0%nat:=a0]> rb));
    cbn [values num_rows];
    try (rewrite ?length_insert; lia);
    try (apply list_lookup_insert_eq; lia).
  cbn [lift bind].
  set (b2 := tile_height (tileset font) * tile_width (tileset font) / 8).
  set (b3 := tile_height (tileset font)).
  rewrite (table_set_Some _ i 2 b2 (<[1%nat:=a1]> (<[0%nat:=a0]> ra))),
    (table_set_Some _ i 2 b2 (<[1%nat:=a1]> (<[0%nat:=a0]> rb)));
    cbn [values num_rows];
    try (rewrite ?length_insert; lia);
    try (apply list_lookup_insert_eq; rewrite ?length_insert; lia).
  cbn [lift bind].
  rewrite (table_set_Some _ i 3 b3
             (<[2%nat:=b2]> (<[1%nat:=a1]> (<[0%nat:=a0]> ra)))),
    (table_set_Some _ i 3 b3
             (<[2%nat:=b2]> (<[1%nat:=a1]> (<[0%nat:=a0]> rb))));
    cbn [values num_rows];
    try (rewrite ?length_insert; lia);
    try (apply list_lookup_insert_eq; rewrite ?length_insert; lia).
  cbn [lift]. apply sim_ret.
  rewrite !list_insert_insert_eq.
  destruct ra as [|x0 [|x1 [|x2 [|x3 [|]]]]]; try done.
  destruct rb as [|y0 [|y1 [|y2 [|y3 [|]]]]]; try done.
  cbn. unfold rows_agree. cbn [num_rows values].
  rewrite !length_insert.
  split; [done|]. split; [done|]. split; [done|]. split; [|split].
  - intros j Hj. destruct (decide (j = i)) as [->|Hne].
    + by rewrite !list_lookup_insert_eq by lia.
    + rewrite !list_lookup_insert_ne by done. apply Hsame. lia.
  - intros j row Hj. rewrite list_lookup_insert_ne by lia.
    apply Hfa. lia.
  - intros j row Hj. rewrite list_lookup_insert_ne by lia.
    apply Hfb. lia.
Qed.

Lemma sim_write_fonts (n : nat) (fs : list EbFont) :
  forall (i : nat) (ta tb : EbTable),
  (i + length fs <= n)%nat ->
  rows_agree n i ta tb ->
  sim (rows_agree n (i + length fs))
    (for_each (enumerate_from i fs) (write_font_to_rom to_snes_address) ta)
    (for_each (enumerate_from i fs) (write_font_to_rom to_snes_address) tb).
Proof.
  induction fs as [|font fs IH]; intros i ta tb Hlen Hrel.
  - cbn. rewrite Nat.add_0_r. by apply sim_ret.
  - cbn [enumerate_from for_each length] in *.
    apply (sim_bind (rows_agree n (S i))).
    + apply sim_write_font; [lia|done].
    + intros ta' tb' Hrel'.
      replace (i + S (length fs))%nat with (S i + length fs)%nat by lia.
      apply IH; [lia|done].
Qed.

Lemma sim_write_pointers (new_table_offset : Z)
    (refs : list PointerReference) (u : unit) :
  sim eq
    (for_each refs (write_pointer to_snes_address new_table_offset) u)
    (for_each refs (write_pointer to_snes_address new_table_offset) u).
Proof.
  revert u. induction refs as [|p refs IH]; intros u.
  - by apply sim_ret.
  - cbn [for_each]. apply (sim_bind eq).
    + unfold write_pointer. apply (sim_bind eq); [apply sim_lift|].
      intros a ? <-. by apply sim_call.
    + intros v ? <-. apply IH.
Qed.

(** The write pass after the table is read, on two modules with the same
    fonts and credits font and two sets of rows: the same calls, and the
    same table at the end. *)
Lemma sim_write_to_rom_loaded (sa sb : FontModule)
    (va vb : list (list Z)) :
  fonts sa = fonts sb ->
  credits_font sa = credits_font sb ->
  (length va <= length (fonts sa))%nat ->
  (length vb <= length (fonts sa))%nat ->
  Forall (fun row => length row = 4%nat) va ->
  Forall (fun row => length row = 4%nat) vb ->
  sim (fun a b => exists t, a = with_table sa t /\ b = with_table sb t)
    (write_to_rom_loaded to_snes_address sa va)
    (write_to_rom_loaded to_snes_address sb vb).
Proof.
  intros Hfonts Hcredits Hla Hlb Hfa Hfb.
  unfold write_to_rom_loaded, enumerate. rewrite <- Hfonts.
  set (n := length (fonts sa)).
  apply (sim_bind (rows_agree n (0 + n))).
  { apply sim_write_fonts; [done|]. by apply rows_agree_grow. }
  intros ta tb Hrel. apply rows_agree_all in Hrel as <-.
  apply (sim_bind eq); [by apply sim_call|].
  intros new_table_offset ? <-.
  apply (sim_bind eq); [apply sim_write_pointers|].
  intros [] ? <-.
  apply (sim_bind eq); [by apply sim_call|].
  intros [] ? <-.
  unfold write_credits_font_to_rom.
  cbn [with_table credits_font]. rewrite <- Hcredits.
  apply (sim_bind eq); [by apply sim_call|].
  intros [] ? <-. apply sim_ret. by exists ta.
Qed.

Lemma write_to_rom_after_load (self : FontModule) :
  write_to_rom from_snes_address to_snes_address self
  = (at_offset <- lift (from_snes_address FONT_POINTER_TABLE_OFFSET) ;;
     vals <- call (TableFromBlock (font_pointer_table self) at_offset) ;;
     write_to_rom_loaded to_snes_address self vals).
Proof. reflexivity. Qed.

Lemma run_write_to_rom (self : FontModule) (rom : Rom) :
  run handler (write_to_rom from_snes_address to_snes_address self) rom =
  match from_snes_address FONT_POINTER_TABLE_OFFSET with
  | inl e => {| outcome := inl e; world := rom; trace := [] |}
  | inr at_offset =>
      let r := table_rows (font_pointer_table self) at_offset
                 (rom_data rom) in
      after (Ev (TableFromBlock (font_pointer_table self) at_offset) r)
        match r with
        | inl e => {| outcome := inl e; world := rom; trace := [] |}
        | inr vals =>
            run handler (write_to_rom_loaded to_snes_address self vals) rom
        end
  end.
Proof.
  unfold write_to_rom.
  destruct (from_snes_address FONT_POINTER_TABLE_OFFSET) as [e|at_offset];
    [done|].
  cbn [lift bind call run rom_handler].
  by destruct (table_rows (font_pointer_table self) at_offset (rom_data rom)).
Qed.

Hypothesis table_rows_shape :
  forall (table : EbTable) (at_offset : Z) (data : gmap Z Z)
         (vals : list (list Z)),
  table_rows table at_offset data = inr vals ->
  length vals = Z.to_nat (num_rows table) /\
  Forall (fun row => length row = 4%nat) vals.

(** C6.  A ROM whose collaborators only write, as section 6 of the spec has
    it; the table's [from_block] reads as many rows as the table counts, of
    four fields each, and the table counts no more rows than there are
    fonts.  A first write pass succeeds; the free ranges are put back as
    they were, the bytes are left as the pass wrote them, and a second pass
    of the same module succeeds.  Then the second pass leaves every byte as
    the first did, and the module as well. *)
Theorem write_to_rom_twice (self self1 self2 : FontModule) (rom0 : Rom) :
  let o1 := run handler
              (write_to_rom from_snes_address to_snes_address self) rom0 in
  let rom1 := {| rom_data := rom_data (world o1);
                 rom_free := rom_free rom0 |} in
  let o2 := run handler
              (write_to_rom from_snes_address to_snes_address self1) rom1 in
  num_rows (font_pointer_table self) <= Z.of_nat (length (fonts self)) ->
  outcome o1 = inr self1 ->
  outcome o2 = inr self2 ->
  rom_data (world o2) = rom_data (world o1) /\ self2 = self1.
Proof.
  cbv zeta. intros Hrows Hok1 Hok2.
  destruct (write_to_rom_inr _ _ _ _ _ _ Hok1)
    as (at0 & vals0 & offs0 & new0 & address0 & _ & _ & _
        & Hfonts & Hcredits & Hnr & _).
  clear at0 vals0 offs0 new0 address0.
  revert Hok1 Hok2. rewrite !run_write_to_rom.
  destruct (from_snes_address FONT_POINTER_TABLE_OFFSET) as [e|at_offset];
    [done|].
  cbv zeta.
  destruct (table_rows (font_pointer_table self) at_offset (rom_data rom0))
    as [e|va] eqn:Hva; [done|].
  cbn [after outcome world trace].
  set (oa := run handler (write_to_rom_loaded to_snes_address self va) rom0).
  set (rom1 := {| rom_data := rom_data (world oa);
                  rom_free := rom_free rom0 |}).
  destruct (table_rows (font_pointer_table self1) at_offset (rom_data rom1))
    as [e|vb] eqn:Hvb; [done|].
  cbn [after outcome world trace].
  set (ob := run handler (write_to_rom_loaded to_snes_address self1 vb) rom1).
  intros Hok1 Hok2.
  apply table_rows_shape in Hva as [Hla Hfa].
  apply table_rows_shape in Hvb as [Hlb Hfb].
  destruct (sim_run _ _ _
              (sim_write_to_rom_loaded self self1 va vb
                 (eq_sym Hfonts) (eq_sym Hcredits)
                 ltac:(lia) ltac:(lia) Hfa Hfb)
              rom0 rom1 eq_refl)
    as (Halike & _ & ws & Ha & Hb).
  fold oa ob in Halike, Ha, Hb.
  rewrite Hok1, Hok2 in Halike. cbn in Halike.
  destruct Halike as (t & H1 & H2).
  split.
  - rewrite Hb, Ha. cbn [rom1 rom_data]. rewrite Ha. apply store_twice.
  - by rewrite H2, H1.
Qed.

End WritingTwice.

Lemma example_table_rows_shape (table : EbTable) (at_offset : Z)
    (data : gmap Z Z) (vals : list (list Z)) :
  example_table_rows table at_offset data = inr vals ->
  length vals = Z.to_nat (num_rows table) /\
  Forall (fun row => length row = 4%nat) vals.
Proof.
  unfold example_table_rows. intros Heq. injection Heq as <-.
  split; [by rewrite length_map, length_seq|].
  apply Forall_forall. intros row Hrow.
  apply list_elem_of_fmap in Hrow as (i & -> & _). done.
Qed.

Lemma write_to_rom_twice_witness :
  outcome example_pass = inr example_result /\
  outcome example_second_pass = inr example_result /\
  rom_data (world example_second_pass) = rom_data (world example_pass).
Proof.
  assert (outcome example_second_pass = inr example_result) as Hok2
    by (vm_compute; reflexivity).
  split; [exact example_pass_succeeds|]. split; [exact Hok2|].
  refine (proj1 (write_to_rom_twice example_from_snes_address
                   example_to_snes_address (example_effect to_banked)
                   example_table_rows example_table_rows_shape
                   example_module example_result example_result example_rom
                   _ example_pass_succeeds Hok2)).
  vm_compute. discriminate.
Defined.

(** A round trip through the example project: five fonts exported and then
    imported into the same module come back each in its own place. *)
Lemma project_round_trip (f0 f1 f2 f3 f4 : EbFont) (c : EbCreditsFont)
    (table : EbTable) :
  let self := {| font_pointer_table := table; fonts := [f0; f1; f2; f3; f4];
                 credits_font := c |} in
  let exported := run project_handler (write_to_project self Writer)
                    empty_project in
  outcome exported = inr tt /\
  outcome (run project_handler (read_from_project self Reader)
             (world exported)) = inr self.
Proof.
  destruct f0 as [? [? ? ?] ?], f1 as [? [? ? ?] ?], f2 as [? [? ? ?] ?],
    f3 as [? [? ? ?] ?], f4 as [? [? ? ?] ?], c, table.
  split; vm_compute; reflexivity.
Qed.

(** * Further properties *)

(** ** The write pass, failed or not *)

Section WritePassOrder.

Variable from_snes_address : Z -> result Z.
Variable to_snes_address : Z -> result Z.
Context {W : Type} (h : Handler W).

(** Storing one font makes one call, whatever becomes of the row. *)
Lemma write_font_to_rom_trace (i : nat) (font : EbFont) (table : EbTable)
    (w : W) :
  trace (run h (write_font_to_rom to_snes_address (i, font) table) w)
  = [Ev (FontToBlock font) (h _ (FontToBlock font) w).1].
Proof.
  unfold write_font_to_rom.
  rewrite run_bind, run_call. simpl.
  destruct (h _ (FontToBlock font) w) as [[e|offsets] w']; simpl; [done|].
  rewrite run_bind, run_lift. simpl.
  destruct (to_snes_address offsets.2) as [e|a0]; simpl; [done|].
  rewrite run_bind, run_lift. simpl.
  destruct (table_set table i 0 a0) as [e|t1]; simpl; [done|].
  rewrite run_bind, run_lift. simpl.
  destruct (to_snes_address offsets.1) as [e|a1]; simpl; [done|].
  rewrite run_bind, run_lift. simpl.
  destruct (table_set t1 i 1 a1) as [e|t2]; simpl; [done|].
  rewrite run_bind, run_lift. simpl.
  destruct (table_set t2 i 2 _) as [e|t3]; simpl; [done|].
  rewrite run_lift. simpl. done.
Qed.

(** The first loop stores fonts and does nothing else. *)
Lemma write_fonts_run (fs : list EbFont) :
  forall (i : nat) (table : EbTable) (w : W),
  let o := run h (for_each (enumerate_from i fs)
                    (write_font_to_rom to_snes_address) table) w in
  flat_map patched (trace o) = [] /\
  flat_map tabled (trace o) = [] /\
  flat_map allocated (trace o) = [] /\
  flat_map credits_stored (trace o) = [] /\
  (forall table', outcome o = inr table' ->
     map fst (flat_map stored (trace o)) = fs).
Proof.
  induction fs as [|f fs IH]; intros i table w; cbv zeta.
  - by cbn.
  - cbn [enumerate_from for_each]. rewrite run_bind.
    pose proof (write_font_to_rom_trace i f table w) as Htr.
    destruct (outcome (run h (write_font_to_rom _ (i, f) table) w))
      as [e|t1] eqn:Hstep; cbn [outcome world trace].
    + rewrite Htr. cbn [flat_map patched tabled allocated credits_stored].
      by repeat split.
    + apply write_font_to_rom_inr in Hstep
        as (o0 & _ & _ & _ & Hans & _ & _ & _ & _ & _ & Htr' & _).
      destruct (IH (S i) t1
                  (world (run h (write_font_to_rom to_snes_address (i, f)
                                   table) w)))
        as (Hp & Ht & Ha & Hc & Hs).
      rewrite !flat_map_app, Hp, Ht, Ha, Hc, Htr'.
      cbn [flat_map patched tabled allocated credits_stored stored app].
      repeat split; try done.
      intros table' Hok. cbn [map fst]. f_equal. by eapply Hs.
Qed.

(** The second loop writes references, in the order of the list and each
    with the banked address of the new table, up to the first write that
    fails. *)
Lemma write_pointers_run (new_table_offset : Z)
    (refs : list PointerReference) :
  forall (w : W) (u : unit),
  let o := run h (for_each refs
                    (write_pointer to_snes_address new_table_offset) u) w in
  flat_map stored (trace o) = [] /\
  flat_map tabled (trace o) = [] /\
  flat_map allocated (trace o) = [] /\
  flat_map credits_stored (trace o) = [] /\
  exists k address,
    (k <= length refs)%nat /\
    flat_map patched (trace o) = take k (map (fun p => (p, address)) refs) /\
    (outcome o = inr tt -> k = length refs).
Proof.
  induction refs as [|p refs IH]; intros w u; cbv zeta.
  - cbn. repeat split; try done. exists 0%nat, 0. by repeat split.
  - cbn [for_each]. rewrite run_bind, run_write_pointer.
    destruct (to_snes_address new_table_offset) as [e|address] eqn:Ha;
      cbn [outcome world trace].
    { cbn. repeat split; try done. exists 0%nat, 0.
      repeat split; try done; lia. }
    destruct (h _ (PointerWrite p address) w) as [[e|[]] w'] eqn:Hw;
      cbn [fst snd outcome world trace].
    { cbn. repeat split; try done. exists 0%nat, address.
      repeat split; try done; lia. }
    destruct (IH w' tt) as (Hs & Ht & Hal & Hc & k & address' & Hk & Hp & Hok).
    cbn [flat_map stored tabled allocated credits_stored patched app].
    repeat split; try done.
    destruct refs as [|p' refs'].
    + exists 1%nat, address. cbn. by repeat split.
    + assert (address' = address \/ k = 0%nat) as Hsame.
      { revert Hp. cbn [for_each]. rewrite run_bind, run_write_pointer, Ha.
        cbn [outcome world trace].
        destruct (h _ (PointerWrite p' address) w') as [[e|[]] w''];
          cbn [fst snd outcome world trace flat_map patched app].
        - destruct k; [by right|]. done.
        - destruct k; [by right|]. cbn. intros Heq. injection Heq as <-.
          by left. }
      exists (S k), address. cbn [length] in *. split; [lia|].
      split; [|intros Hrest; f_equal; by apply Hok].
      rewrite Hp. cbn [map take]. f_equal.
      destruct Hsame as [-> | ->]; [done|]. by rewrite !take_0.
Qed.

(** X1.  A write pass, failed or not.  The references written are an initial
    part of [FONT_POINTER_TABLE_REFERENCES], each with the same address.
    None is written before every font has been stored and the table
    allocated; the table is written only after all of them; the credits font
    is stored only after the table, and a pass that raises has not stored
    it. *)
Theorem write_to_rom_order (self : FontModule) (w : W) :
  let o := run h (write_to_rom from_snes_address to_snes_address self) w in
  let n := length (fonts self) in
  exists k address,
    (k <= length FONT_POINTER_TABLE_REFERENCES)%nat /\
    flat_map patched (trace o)
    = take k (map (fun p => (p, address)) FONT_POINTER_TABLE_REFERENCES) /\
    (flat_map patched (trace o) <> [] ->
     map fst (flat_map stored (trace o)) = fonts self /\
     exists new_table_offset,
       flat_map allocated (trace o)
       = [(Z.of_nat n * FONT_POINTER_TABLE_ENTRY_SIZE, new_table_offset)]) /\
    (flat_map tabled (trace o) <> [] ->
     k = length FONT_POINTER_TABLE_REFERENCES) /\
    (flat_map credits_stored (trace o) <> [] ->
     flat_map tabled (trace o) <> []) /\
    (forall e, outcome o = inl e ->
       flat_map credits_stored (trace o) = []).
Proof.
  cbv zeta.
  remember (run h (write_to_rom from_snes_address to_snes_address self) w)
    as o eqn:Ho.
  assert (forall tr : list Event,
            flat_map patched tr = [] -> flat_map tabled tr = [] ->
            flat_map credits_stored tr = [] ->
            exists k address,
              (k <= length FONT_POINTER_TABLE_REFERENCES)%nat /\
              flat_map patched tr
              = take k (map (fun p => (p, address))
                          FONT_POINTER_TABLE_REFERENCES) /\
              (flat_map patched tr <> [] ->
               map fst (flat_map stored tr) = fonts self /\
               exists new_table_offset,
                 flat_map allocated tr
                 = [(Z.of_nat (length (fonts self))
                     * FONT_POINTER_TABLE_ENTRY_SIZE, new_table_offset)]) /\
              (flat_map tabled tr <> [] ->
               k = length FONT_POINTER_TABLE_REFERENCES) /\
              (flat_map credits_stored tr <> [] -> flat_map tabled tr <> []) /\
              (forall e : exn, outcome o = inl e ->
                 flat_map credits_stored tr = [])) as Hearly.
  { intros tr Hp Ht Hc. exists 0%nat, 0. rewrite Hp, Ht, Hc.
    repeat split; try done; lia. }
  unfold write_to_rom, write_credits_font_to_rom, enumerate in Ho.
  rewrite run_bind, run_lift in Ho. cbn [outcome world trace] in Ho.
  destruct (from_snes_address FONT_POINTER_TABLE_OFFSET)
    as [e|at_offset] eqn:Hat.
  { subst o. by apply Hearly. }
  rewrite run_bind, run_call in Ho.
  destruct (h _ (TableFromBlock (font_pointer_table self) at_offset) w)
    as [[e|vals] w1]; cbn [fst snd outcome world trace] in Ho.
  { subst o. cbn [trace]. by apply Hearly. }
  rewrite run_bind in Ho.
  match type of Ho with
  | context [run h (for_each (enumerate_from _ _) _ ?t) w1] =>
      set (t0 := t) in Ho
  end.
  destruct (write_fonts_run (fonts self) 0 t0 w1)
    as (Hp1 & Ht1 & Ha1 & Hc1 & Hs1).
  destruct (outcome (run h (for_each (enumerate_from 0 (fonts self))
              (write_font_to_rom to_snes_address) t0) w1))
    as [e|t1] eqn:Hloop.
  { subst o. cbn [trace]. apply Hearly; by cbn. }
  specialize (Hs1 t1 eq_refl).
  set (w2 := world (run h (for_each (enumerate_from 0 (fonts self))
              (write_font_to_rom to_snes_address) t0) w1)) in *.
  set (tr1 := trace (run h (for_each (enumerate_from 0 (fonts self))
              (write_font_to_rom to_snes_address) t0) w1)) in *.
  cbn [outcome world trace] in Ho.
  rewrite run_bind, run_call in Ho.
  destruct (h _ (RomAllocate (Z.of_nat (length (fonts self))
                              * FONT_POINTER_TABLE_ENTRY_SIZE)) w2)
    as [[e|new_table_offset] w3]; cbn [fst snd outcome world trace] in Ho.
  { subst o. cbn [trace]. apply Hearly; split_trace;
      rewrite ?Hp1, ?Ht1, ?Hc1; by cbn. }
  rewrite run_bind in Ho.
  destruct (write_pointers_run new_table_offset
              FONT_POINTER_TABLE_REFERENCES w3 tt)
    as (Hs2 & Ht2 & Ha2 & Hc2 & k & address & Hk & Hp2 & Hfull).
  set (w4 := world (run h (for_each FONT_POINTER_TABLE_REFERENCES
              (write_pointer to_snes_address new_table_offset) tt) w3)) in *.
  set (tr2 := trace (run h (for_each FONT_POINTER_TABLE_REFERENCES
              (write_pointer to_snes_address new_table_offset) tt) w3)) in *.
  assert (forall tail : list Event,
            flat_map patched tail = [] -> flat_map stored tail = [] ->
            flat_map allocated tail = [] ->
            (flat_map tabled tail <> [] ->
             k = length FONT_POINTER_TABLE_REFERENCES) ->
            (flat_map credits_stored tail <> [] ->
             flat_map tabled tail <> []) ->
            (forall e : exn, outcome o = inl e ->
               flat_map credits_stored tail = []) ->
            let tr := Ev (TableFromBlock (font_pointer_table self) at_offset)
                        (inr vals)
                      :: tr1
                      ++ Ev (RomAllocate (Z.of_nat (length (fonts self))
                                          * FONT_POINTER_TABLE_ENTRY_SIZE))
                           (inr new_table_offset)
                      :: tr2 ++ tail in
            exists k address,
              (k <= length FONT_POINTER_TABLE_REFERENCES)%nat /\
              flat_map patched tr
              = take k (map (fun p => (p, address))
                          FONT_POINTER_TABLE_REFERENCES) /\
              (flat_map patched tr <> [] ->
               map fst (flat_map stored tr) = fonts self /\
               exists new_table_offset,
                 flat_map allocated tr
                 = [(Z.of_nat (length (fonts self))
                     * FONT_POINTER_TABLE_ENTRY_SIZE, new_table_offset)]) /\
              (flat_map tabled tr <> [] ->
               k = length FONT_POINTER_TABLE_REFERENCES) /\
              (flat_map credits_stored tr <> [] -> flat_map tabled tr <> []) /\
              (forall e : exn, outcome o = inl e ->
                 flat_map credits_stored tr = [])) as Hlate.
  { intros tail Hp Hs Ha Ht Hc He. cbv zeta. exists k, address.
    split_trace.
    rewrite Hp1, Ht1, Ha1, Hc1, Hs2, Ht2, Ha2, Hc2, Hp2, Hp, Hs, Ha.
    cbn [patched tabled allocated credits_stored stored app].
    rewrite ?app_nil_r.
    split; [done|]. split; [done|]. split.
    { intros _. split; [done|]. by exists new_table_offset. }
    by repeat split. }
  destruct (outcome (run h (for_each FONT_POINTER_TABLE_REFERENCES
              (write_pointer to_snes_address new_table_offset) tt) w3))
    as [e|[]] eqn:Hptr.
  { subst o. cbn [trace].
    pose proof (Hlate []) as Hnil. cbv zeta in Hnil.
    rewrite app_nil_r in Hnil. by apply Hnil. }
  specialize (Hfull eq_refl).
  cbn [outcome world trace] in Ho.
  rewrite run_bind, run_call in Ho.
  destruct (h _ (TableToBlock t1 new_table_offset) w4)
    as [[e|[]] w5]; cbn [fst snd outcome world trace] in Ho.
  { subst o. cbn [trace]. by apply Hlate. }
  rewrite run_bind, run_call in Ho.
  destruct (h _ (CreditsToBlock _ _ _) w5)
    as [[e|[]] w6]; cbn [fst snd outcome world trace] in Ho.
  { subst o. cbn [trace]. rewrite <- ?app_assoc. cbn [app].
    apply Hlate; try done. }
  cbn [run outcome world trace] in Ho.
  subst o. cbn [trace]. rewrite ?app_nil_r, <- ?app_assoc. cbn [app].
  apply Hlate; try done.
Qed.

(** X2.  A table read with more rows than there are fonts is not cut: the
    table that a write pass that succeeds stores keeps every row it was read
    with, the rows past the fonts as they were, while its [num_rows] is the
    number of fonts. *)
Theorem write_to_rom_keeps_surplus_rows (self self' : FontModule) (w : W)
    (vals : list (list Z)) :
  let o := run h (write_to_rom from_snes_address to_snes_address self) w in
  let n := length (fonts self) in
  outcome o = inr self' ->
  flat_map untabled (trace o) = [vals] ->
  (n <= length vals)%nat ->
  (exists new_table_offset,
     flat_map tabled (trace o)
     = [(font_pointer_table self', new_table_offset)]) /\
  num_rows (font_pointer_table self') = Z.of_nat n /\
  length (values (font_pointer_table self')) = length vals /\
  forall j, (n <= j)%nat ->
    values (font_pointer_table self') !! j = vals !! j.
Proof.
  cbv zeta. intros Hok.
  destruct (write_to_rom_inr _ _ _ _ _ _ Hok)
    as (at_offset & vals' & offs & new_table_offset & address & _ & _ & Hlo
        & _ & _ & Hnr & Hlv & Hrest & _ & ->).
  split_trace.
  rewrite untabled_zip, untabled_map, tabled_zip, tabled_map. simpl.
  rewrite ?app_nil_r.
  intros Heq Hle. injection Heq as ->.
  split; [by exists new_table_offset|]. split; [done|].
  split; [lia|]. done.
Qed.

End WritePassOrder.

Lemma write_to_rom_order_witness :
  outcome example_failed_pass = inl BufferBoundsError /\
  length (flat_map patched (trace example_failed_pass)) = 2%nat /\
  flat_map tabled (trace example_failed_pass) = [] /\
  exists k address,
    flat_map patched (trace example_failed_pass)
    = take k (map (fun p => (p, address)) FONT_POINTER_TABLE_REFERENCES).
Proof.
  split; [vm_compute; reflexivity|]. split; [vm_compute; reflexivity|].
  split; [vm_compute; reflexivity|].
  destruct (write_to_rom_order example_from_snes_address
              example_to_snes_address (failing_at 0x43E98) example_module
              example_rom) as (k & address & _ & Hp & _).
  exists k, address. exact Hp.
Defined.

Lemma write_to_rom_keeps_surplus_rows_witness :
  (exists self, outcome surplus_pass = inr self /\
     num_rows (font_pointer_table self) = 6 /\
     length (values (font_pointer_table self)) = 8%nat).
Proof.
  assert (exists self, outcome surplus_pass = inr self) as [self Hok]
    by (eexists; vm_compute; reflexivity).
  exists self. split; [exact Hok|].
  edestruct (write_to_rom_keeps_surplus_rows example_from_snes_address
               example_to_snes_address example_handler surplus_module self
               example_rom (replicate 8 [0; 0; 0; 0]) Hok)
    as (_ & Hnr & Hlen & _).
  - vm_compute. reflexivity.
  - vm_compute. lia.
  - split; [exact Hnr|exact Hlen].
Defined.

(** ** Reading the fonts from the ROM *)

Lemma table_get_inr (t : EbTable) (i j : nat) (v : Z) :
  table_get t i j = inr v <->
  exists row, values t !! i = Some row /\ row !! j = Some v.
Proof.
  unfold table_get. destruct (getitem (values t) i) as [e|row] eqn:Hg.
  - split; [done|]. intros (row & Hrow & _). apply getitem_inr in Hrow.
    congruence.
  - apply getitem_inr in Hg. rewrite getitem_inr. split.
    + intros Hv. by exists row.
    + intros (row' & Hrow & Hv). congruence.
Qed.

Lemma unblocked_zip (fs : list EbFont) (ofs : list (Z * Z * EbFont)) :
  flat_map unblocked (zip_with unblocked_event fs ofs)
  = zip fs (map fst ofs).
Proof.
  revert ofs. induction fs as [|f fs IH]; intros [|[[t wo] f'] ofs]; simpl;
    auto.
  by rewrite IH.
Qed.

Lemma block_fonts_zip (fs : list EbFont) (ofs : list (Z * Z * EbFont)) :
  length ofs = length fs ->
  flat_map block_fonts (zip_with unblocked_event fs ofs) = map snd ofs.
Proof.
  revert ofs. induction fs as [|f fs IH]; intros [|[[t wo] f'] ofs]; simpl;
    auto; try done.
  intros Hl. rewrite IH; [done|lia].
Qed.

Section ReadPass.

Variable from_snes_address : Z -> result Z.
Context {W : Type} (h : Handler W).

(** Reading one font: its name is looked up, then the two addresses of its
    row are translated, then the font reads itself. *)
Lemma read_font_from_rom_inr (table : EbTable) (i : nat) (font : EbFont)
    (fs fs' : list EbFont) (w : W) :
  let o := run h (read_font_from_rom from_snes_address table (i, font) fs)
             w in
  outcome o = inr fs' ->
  exists row a0 a1 tileset_offset character_widths_offset font',
    (i < 5)%nat /\
    values table !! i = Some row /\
    row !! 0%nat = Some a0 /\
    row !! 1%nat = Some a1 /\
    from_snes_address a1 = inr tileset_offset /\
    from_snes_address a0 = inr character_widths_offset /\
    fs' = <[i := font']> fs /\
    trace o = [Ev (FontFromBlock font tileset_offset character_widths_offset)
                 (inr font')].
Proof.
  cbv zeta. unfold read_font_from_rom.
  rewrite run_bind, run_lift. cbn [outcome world trace].
  destruct (getitem FONT_FILENAMES i) as [e|name] eqn:Hname; [done|].
  apply getitem_inr, lookup_lt_Some in Hname.
  rewrite run_bind, run_lift. cbn [outcome world trace].
  destruct (table_get table i 1) as [e|a1] eqn:H1; [done|].
  rewrite run_bind, run_lift. cbn [outcome world trace].
  destruct (from_snes_address a1) as [e|tileset_offset] eqn:Ht; [done|].
  rewrite run_bind, run_lift. cbn [outcome world trace].
  destruct (table_get table i 0) as [e|a0] eqn:H0; [done|].
  rewrite run_bind, run_lift. cbn [outcome world trace].
  destruct (from_snes_address a0) as [e|character_widths_offset] eqn:Hw;
    [done|].
  rewrite run_bind, run_call.
  destruct (h _ (FontFromBlock font tileset_offset character_widths_offset) w)
    as [[e|font'] w']; cbn [fst snd outcome world trace run]; [done|].
  intros Heq. injection Heq as <-.
  apply table_get_inr in H1 as (row & Hrow & Hr1).
  apply table_get_inr in H0 as (row' & Hrow' & Hr0).
  assert (row' = row) as -> by congruence.
  exists row, a0, a1, tileset_offset, character_widths_offset, font'.
  by repeat split.
Qed.

Lemma read_fonts_inr (table : EbTable) (fs : list EbFont) :
  forall (i : nat) (acc acc' : list EbFont) (w : W),
  let o := run h (for_each (enumerate_from i fs)
                    (read_font_from_rom from_snes_address table) acc) w in
  outcome o = inr acc' ->
  (i + length fs <= length acc)%nat ->
  ((i <= 5)%nat -> (i + length fs <= 5)%nat) /\
  exists ofs,
    length ofs = length fs /\
    acc' = take i acc ++ map snd ofs ++ drop (i + length fs) acc /\
    trace o = zip_with unblocked_event fs ofs /\
    forall k tileset_offset character_widths_offset font',
      ofs !! k = Some (tileset_offset, character_widths_offset, font') ->
      exists row a0 a1,
        values table !! (i + k)%nat = Some row /\
        row !! 0%nat = Some a0 /\
        row !! 1%nat = Some a1 /\
        from_snes_address a1 = inr tileset_offset /\
        from_snes_address a0 = inr character_widths_offset.
Proof.
  induction fs as [|font fs IH]; intros i acc acc' w; cbv zeta.
  - cbn [enumerate_from for_each run outcome trace length].
    intros Heq Hlen. injection Heq as <-. split; [lia|].
    exists []. rewrite Nat.add_0_r. cbn [map app]. rewrite take_drop.
    repeat split; try done.
  - cbn [enumerate_from for_each]. rewrite run_bind.
    destruct (outcome (run h (read_font_from_rom from_snes_address table
                                (i, font) acc) w)) as [e|acc1] eqn:Hstep;
      [done|].
    apply read_font_from_rom_inr in Hstep
      as (row & a0 & a1 & t & wo & font' & Hi & Hrow & Hr0 & Hr1 & Ht & Hwo
          & -> & ->).
    cbn [outcome world trace].
    intros Hrest Hlen. cbn [length] in Hlen.
    apply IH in Hrest as (Hfive & ofs & Hlo & -> & -> & Hrows);
      [|rewrite length_insert; lia].
    split; [cbn [length]; lia|].
    exists ((t, wo, font') :: ofs). cbn [length map snd].
    split; [lia|]. split; [|split; [done|]].
    + rewrite (take_S_r (<[i:=font']> acc) i font')
        by (apply list_lookup_insert_eq; lia).
      rewrite take_insert_ge by lia. rewrite drop_insert_lt by lia.
      rewrite <- !app_assoc. cbn [app].
      by replace (i + S (length fs))%nat with (S i + length fs)%nat by lia.
    + intros [|k] t' wo' f' Hk; cbn in Hk.
      * injection Hk as <- <- <-. exists row, a0, a1.
        rewrite Nat.add_0_r. by repeat split.
      * replace (i + S k)%nat with (S i + k)%nat by lia. by eapply Hrows.
Qed.

(** A read pass that succeeds: the calls it made and the module it
    leaves. *)
Lemma read_from_rom_inr (self self' : FontModule) (w : W) :
  let o := run h (read_from_rom from_snes_address self) w in
  outcome o = inr self' ->
  (length (fonts self) <= 5)%nat /\
  exists at_offset vals c before,
    from_snes_address FONT_POINTER_TABLE_OFFSET = inr at_offset /\
    trace o
    = Ev (TableFromBlock (font_pointer_table self) at_offset) (inr vals)
      :: before
      ++ [Ev (CreditsFromBlock (credits_font self)
                CREDITS_GRAPHICS_ASM_POINTER CREDITS_PALETTES_ADDRESS)
            (inr c)] /\
    font_pointer_table self'
    = {| num_rows := num_rows (font_pointer_table self); values := vals |} /\
    credits_font self' = c /\
    fonts self' = flat_map block_fonts before /\
    length (fonts self') = length (fonts self) /\
    map fst (flat_map unblocked before) = fonts self /\
    flat_map unblocked (trace o) = flat_map unblocked before /\
    forall i font tileset_offset character_widths_offset,
      flat_map unblocked before !! i
      = Some (font, (tileset_offset, character_widths_offset)) ->
      exists row a0 a1,
        vals !! i = Some row /\
        row !! 0%nat = Some a0 /\
        row !! 1%nat = Some a1 /\
        from_snes_address a1 = inr tileset_offset /\
        from_snes_address a0 = inr character_widths_offset.
Proof.
  cbv zeta.
  remember (run h (read_from_rom from_snes_address self) w) as o eqn:Ho.
  unfold read_from_rom, read_credits_font_from_rom, enumerate in Ho.
  rewrite run_bind, run_lift in Ho. cbn [outcome world trace] in Ho.
  destruct (from_snes_address FONT_POINTER_TABLE_OFFSET)
    as [e|at_offset] eqn:Hat; [by subst o|].
  rewrite run_bind, run_call in Ho.
  destruct (h _ (TableFromBlock (font_pointer_table self) at_offset) w)
    as [[e|vals] w1]; cbn [fst snd outcome world trace] in Ho;
    [by subst o|].
  rewrite run_bind in Ho.
  match type of Ho with
  | context [run h (for_each (enumerate_from _ _) (_ _ ?t) _) w1] =>
      set (t0 := t) in Ho
  end.
  destruct (outcome (run h (for_each (enumerate_from 0 (fonts self))
              (read_font_from_rom from_snes_address t0) (fonts self)) w1))
    as [e|fs1] eqn:Hloop; [by subst o|].
  apply read_fonts_inr in Hloop
    as (Hfive & ofs & Hlo & Hfs & Htr & Hrows); [|simpl; lia].
  set (w2 := world (run h (for_each (enumerate_from 0 (fonts self))
              (read_font_from_rom from_snes_address t0) (fonts self)) w1))
    in *.
  cbn [outcome world trace] in Ho.
  rewrite run_bind, run_call in Ho.
  cbn [with_fonts with_table credits_font] in Ho.
  destruct (h _ (CreditsFromBlock (credits_font self) _ _) w2)
    as [[e|c] w3]; cbn [fst snd outcome world trace run] in Ho;
    [by subst o|].
  subst o. cbn [outcome world trace]. intros Heq. injection Heq as <-.
  cbn [with_credits_font with_fonts with_table fonts credits_font
         font_pointer_table].
  split; [apply Hfive; lia|].
  exists at_offset, vals, c, (zip_with unblocked_event (fonts self) ofs).
  rewrite Htr, app_nil_r. cbn [app].
  split; [done|]. split; [done|]. split; [done|]. split; [done|].
  rewrite take_0, Nat.add_0_l, drop_all, app_nil_r in Hfs. cbn [app] in Hfs.
  rewrite block_fonts_zip, unblocked_zip by done.
  split; [done|]. split; [by rewrite Hfs, length_map|].
  split; [by rewrite fst_zip by (rewrite length_map; lia)|].
  split.
  { cbn [flat_map unblocked app]. rewrite flat_map_app, unblocked_zip.
    cbn. by rewrite app_nil_r. }
  intros i font t wo Hi.
  apply lookup_zip_with_Some in Hi as (f & two & Heq & Hf & Htwo).
  injection Heq as -> <-.
  apply list_lookup_fmap_Some in Htwo as ([[t' wo'] f'] & Heq & Hofs).
  cbn in Heq. injection Heq as <- <-.
  destruct (Hrows i _ _ _ Hofs) as (row & a0 & a1 & Hrow & ?).
  exists row, a0, a1. split; [exact Hrow|done].
Qed.

(** X4.  A read pass that succeeds.  The table is read at the offset of
    [FONT_POINTER_TABLE_OFFSET]; then the fonts of the module, of which
    there are at most five, read themselves in order, font [i] with the
    tileset offset translated from field 1 of row [i] and the widths offset
    translated from field 0; then the credits font is read.  The module
    holds the rows read, as many fonts as before, and what the fonts and the
    credits font became. *)
Theorem read_from_rom_by_rows (self self' : FontModule) (w : W) :
  let o := run h (read_from_rom from_snes_address self) w in
  outcome o = inr self' ->
  (length (fonts self) <= 5)%nat /\
  exists at_offset vals c before,
    from_snes_address FONT_POINTER_TABLE_OFFSET = inr at_offset /\
    trace o
    = Ev (TableFromBlock (font_pointer_table self) at_offset) (inr vals)
      :: before
      ++ [Ev (CreditsFromBlock (credits_font self)
                CREDITS_GRAPHICS_ASM_POINTER CREDITS_PALETTES_ADDRESS)
            (inr c)] /\
    font_pointer_table self'
    = {| num_rows := num_rows (font_pointer_table self); values := vals |} /\
    credits_font self' = c /\
    fonts self' = flat_map block_fonts before /\
    length (fonts self') = length (fonts self) /\
    map fst (flat_map unblocked before) = fonts self /\
    flat_map unblocked (trace o) = flat_map unblocked before /\
    forall i font tileset_offset character_widths_offset,
      flat_map unblocked before !! i
      = Some (font, (tileset_offset, character_widths_offset)) ->
      exists row a0 a1,
        vals !! i = Some row /\
        row !! 0%nat = Some a0 /\
        row !! 1%nat = Some a1 /\
        from_snes_address a1 = inr tileset_offset /\
        from_snes_address a0 = inr character_widths_offset.
Proof. apply read_from_rom_inr. Qed.

End ReadPass.

(** X5.  The two passes agree on the fields of a row.  When
    [from_snes_address] undoes [to_snes_address], and a read pass that
    succeeds is handed the rows that a write pass left in the table, every
    font is asked to read itself from the tileset offset and the widths
    offset that its [to_block] returned in the write pass. *)
Theorem read_from_rom_after_write {W1 W2 : Type} (h1 : Handler W1)
    (h2 : Handler W2) (from_snes_address to_snes_address : Z -> result Z)
    (self written reread : FontModule) (w1 : W1) (w2 : W2) :
  (forall o a, to_snes_address o = inr a -> from_snes_address a = inr o) ->
  let wr := run h1 (write_to_rom from_snes_address to_snes_address self) w1 in
  let rd := run h2 (read_from_rom from_snes_address written) w2 in
  outcome wr = inr written ->
  outcome rd = inr reread ->
  flat_map untabled (trace rd) = [values (font_pointer_table written)] ->
  flat_map unblocked (trace rd) = flat_map stored (trace wr).
Proof.
  cbv zeta. intros Hinv Hwr Hrd.
  destruct (write_to_rom_inr _ _ _ _ _ _ Hwr)
    as (at_offset & vals & offs & new_table_offset & address & _ & _ & Hlo
        & Hfonts & _ & _ & _ & _ & Hrows & Htr).
  destruct (read_from_rom_inr _ _ _ _ _ Hrd)
    as (_ & at_offset' & vals' & c & before & _ & Htr' & _ & _ & _ & _
        & Hfst & Hun & Hread).
  intros Heq. rewrite Htr' in Heq. cbn [flat_map untabled app] in Heq.
  injection Heq as Hvals _. subst vals'.
  rewrite Hun, Htr.
  split_trace.
  rewrite stored_zip, stored_map. cbn [stored app]. rewrite app_nil_r.
  rewrite Hfonts in Hfst.
  assert (length (flat_map unblocked before) = length (fonts self)) as Hlen
    by (by rewrite <- Hfst, length_map).
  apply list_eq. intros i.
  destruct (flat_map unblocked before !! i) as [[font [t wo]]|] eqn:Hi.
  - assert (fonts self !! i = Some font) as Hfont.
    { rewrite <- Hfst. change (map fst) with (fmap (M := list) (@fst EbFont (Z * Z))).
      by rewrite list_lookup_fmap, Hi. }
    destruct (lookup_lt_is_Some_2 offs i) as [o Ho].
    { apply lookup_lt_Some in Hfont. lia. }
    destruct (Hread i font t wo Hi)
      as (row & a0' & a1' & Hrow & Hr0 & Hr1 & Ht & Hwo).
    destruct (Hrows i font o Hfont Ho)
      as (a0 & a1 & row0 & Ha0 & Ha1 & _ & _ & Hrow').
    rewrite Hrow' in Hrow. injection Hrow as <-.
    cbn in Hr0, Hr1. injection Hr0 as <-. injection Hr1 as <-.
    rewrite (Hinv _ _ Ha0) in Hwo. rewrite (Hinv _ _ Ha1) in Ht.
    injection Hwo as <-. injection Ht as <-.
    symmetry. apply lookup_zip_with_Some. exists font, o.
    by destruct o.
  - symmetry. apply lookup_ge_None. apply lookup_ge_None in Hi.
    rewrite length_zip. lia.
Qed.

Lemma read_from_rom_by_rows_witness :
  (exists self, outcome five_reread = inr self /\
     length (fonts self) = 5%nat /\
     values (font_pointer_table self)
     = values (font_pointer_table five_result)).
Proof.
  assert (exists self, outcome five_reread = inr self) as [self Hok]
    by (eexists; vm_compute; reflexivity).
  exists self. split; [exact Hok|].
  destruct (read_from_rom_by_rows example_from_snes_address
              (replay_handler (values (font_pointer_table five_result)))
              five_result self tt Hok)
    as (_ & at_offset & vals & c & before & _ & Htr & Htable & _ & _ & Hlen
        & _).
  split; [rewrite Hlen; vm_compute; reflexivity|].
  rewrite Htable. cbn [values].
  assert (flat_map untabled (trace five_reread)
          = [values (font_pointer_table five_result)]) as Hrows
    by (vm_compute; reflexivity).
  unfold five_reread in Hrows. rewrite Htr in Hrows.
  cbn [flat_map untabled app] in Hrows.
  remember (values (font_pointer_table five_result)) as rows eqn:Hr in *.
  clear Hr. injection Hrows as Hv. exact Hv.
Defined.

(** On the example ROM, translating an offset and translating it back
    gives the offset. *)
Lemma example_addresses_invert (o a : Z) :
  example_to_snes_address o = inr a -> example_from_snes_address a = inr o.
Proof.
  unfold example_to_snes_address, example_from_snes_address, to_banked.
  destruct (decide (0 <= o < 6291456)) as [Ho|Ho]; [|done].
  intros Heq. injection Heq as <-.
  destruct (decide (o < 4194304)) as [Hlow|Hhigh].
  - rewrite decide_True by lia. f_equal. lia.
  - rewrite decide_False by lia. by rewrite decide_True by lia.
Qed.

Lemma read_from_rom_after_write_witness :
  outcome five_pass = inr five_result /\
  (exists self, outcome five_reread = inr self) /\
  flat_map unblocked (trace five_reread) = flat_map stored (trace five_pass).
Proof.
  assert (outcome five_pass = inr five_result) as Hwr
    by (vm_compute; reflexivity).
  assert (exists self, outcome five_reread = inr self) as [self Hrd]
    by (eexists; vm_compute; reflexivity).
  split; [exact Hwr|]. split; [by exists self|].
  apply (read_from_rom_after_write example_handler
           (replay_handler (values (font_pointer_table five_result)))
           example_from_snes_address example_to_snes_address
           five_module five_result self example_rom tt).
  - exact example_addresses_invert.
  - exact Hwr.
  - exact Hrd.
  - vm_compute. reflexivity.
Defined.

(** ** The project passes, failed or not *)

Lemma failures_app (tr1 tr2 : list Event) :
  failures (tr1 ++ tr2) = (failures tr1 + failures tr2)%nat.
Proof.
  induction tr1 as [|ev tr1 IH]; cbn [app failures]; [done|].
  rewrite IH. lia.
Qed.

Lemma failures_succeeded (tr : list Event) :
  forallb succeeded tr = true <-> failures tr = 0%nat.
Proof.
  induction tr as [|ev tr IH]; cbn [forallb failures]; [done|].
  destruct (succeeded ev); cbn [andb]; [by rewrite IH|]. split; [done|lia].
Qed.

Lemma failures_until_failure (tr : list Event) :
  until_failure tr = tr -> (failures tr <= 1)%nat.
Proof.
  induction tr as [|ev tr IH]; cbn [until_failure failures]; [lia|].
  destruct (succeeded ev).
  - intros Heq. injection Heq as Heq. specialize (IH Heq). lia.
  - intros Heq. injection Heq as <-. cbn. lia.
Qed.

(** The files of a default font are not the credits image, nor the image of
    a font numbered 5 or more. *)
Lemma default_font_files (name : string) (ne : string * string) :
  name ∈ FONT_FILENAMES ->
  ne ∈ font_files name ->
  ne <> ("Fonts/credits", "png")%string /\
  forall i : nat, (5 <= i)%nat -> ne <> ("Fonts/" +:+ pretty i, "png")%string.
Proof.
  intros Hname Hne.
  assert (exists j : nat, (j < 5)%nat /\ name = pretty j) as (j & Hj & ->).
  { unfold FONT_FILENAMES in Hname.
    repeat (apply elem_of_cons in Hname as [->|Hname]).
    - exists 0%nat. split; [lia|reflexivity].
    - exists 1%nat. split; [lia|reflexivity].
    - exists 3%nat. split; [lia|reflexivity].
    - exists 4%nat. split; [lia|reflexivity].
    - exists 2%nat. split; [lia|reflexivity].
    - by apply elem_of_nil in Hname. }
  unfold font_files in Hne.
  apply elem_of_cons in Hne as [->|Hne].
  - split.
    + intros Heq. injection Heq as Heq.
      do 5 (destruct j as [|j]; [by vm_compute in Heq|]). lia.
    + intros i Hi Heq. injection Heq as Heq.
      change (pretty j = pretty i) in Heq. apply (inj pretty) in Heq. lia.
  - apply list_elem_of_singleton in Hne as ->.
    split; [|intros i _]; intros Heq; by injection Heq.
Qed.

Lemma succeeded_read_events (resource_open : Opener)
    (names : list (string * EbFont)) :
  forall hfs : list ((File * File) * EbFont),
  failures (concat (zip_with
                      (fun nf hf => font_read_events resource_open nf.1 nf.2
                                      hf.1 hf.2) names hfs)) = 0%nat.
Proof.
  induction names as [|nf names IH]; intros [|hf hfs]; try done.
  cbn [zip_with concat]. rewrite failures_app, IH. done.
Qed.

Lemma opened_read_events (resource_open : Opener)
    (names : list (string * EbFont)) :
  forall (hfs : list ((File * File) * EbFont)) (ne : string * string),
  ne ∈ flat_map opened
         (concat (zip_with
                    (fun nf hf => font_read_events resource_open nf.1 nf.2
                                    hf.1 hf.2) names hfs)) ->
  exists nf, nf ∈ names /\ ne ∈ font_files nf.1.
Proof.
  induction names as [|nf names IH]; intros [|hf hfs] ne; cbn [zip_with concat];
    try (intros H; by apply elem_of_nil in H).
  rewrite flat_map_app. intros [Hne|Hne]%elem_of_app.
  - exists nf. split; [apply list_elem_of_here|exact Hne].
  - destruct (IH _ _ Hne) as (nf' & Hnf & Hfiles).
    exists nf'. split; [by apply list_elem_of_further|done].
Qed.

Section ProjectOrder.

Context {W : Type} (h : Handler W).
Variable resource_open : Opener.

(** Writing one font: the image is opened, then the widths, then the font is
    written; the first of the three that fails ends it. *)
Lemma font_to_project_run (name : string) (font : EbFont) (w : W) :
  let o := run h (font_to_project resource_open name font) w in
  (forall ne, ne ∈ flat_map opened (trace o) -> ne ∈ font_files name) /\
  match outcome o with
  | inr _ =>
      flat_map exported (trace o) = [font] /\ failures (trace o) = 0%nat
  | inl _ =>
      flat_map exported (trace o) = [] /\ failures (trace o) <> 0%nat
  end.
Proof.
  cbv zeta.
  unfold font_to_project, font_files.
  generalize ("Fonts/" +:+ name) ("Fonts/" +:+ name +:+ "_widths").
  intros png yml.
  rewrite run_bind, run_call.
  destruct (h _ (ResourceOpen resource_open png "png" false) w)
    as [[e|image_file] w1]; cbn [fst snd outcome world trace].
  { repeat split; try done. intros ne Hne.
    apply list_elem_of_singleton in Hne as ->. apply list_elem_of_here. }
  rewrite run_bind, run_call.
  destruct (h _ (ResourceOpen resource_open yml "yml" true) w1)
    as [[e|widths_file] w2]; cbn [fst snd outcome world trace].
  { repeat split; try done. }
  rewrite run_call.
  destruct (h _ (FontToFiles font image_file widths_file) w2)
    as [[e|[]] w3]; cbn [fst snd outcome world trace];
    repeat split; try done.
Qed.

Lemma write_default_font_run (i : nat) (font : EbFont) (u : unit) (w : W) :
  let o := run h (write_default_font resource_open (i, font) u) w in
  match FONT_FILENAMES !! i with
  | None => outcome o = inl IndexError /\ trace o = []
  | Some name =>
      (forall ne, ne ∈ flat_map opened (trace o) -> ne ∈ font_files name) /\
      match outcome o with
      | inr _ =>
          flat_map exported (trace o) = [font] /\ failures (trace o) = 0%nat
      | inl _ =>
          flat_map exported (trace o) = [] /\ failures (trace o) <> 0%nat
      end
  end.
Proof.
  cbv zeta. unfold write_default_font.
  rewrite run_bind, run_lift. cbn [outcome world trace]. unfold getitem.
  destruct (FONT_FILENAMES !! i) as [name|]; [|done].
  cbn [app].
  destruct (font_to_project_run name font w) as [Hop Hcase].
  destruct (run h (font_to_project resource_open name font) w)
    as [[e|[]] w' tr]; done.
Qed.

(** The loop of [write_to_project], however it ends. *)
Lemma write_default_fonts_run (fs : list EbFont) :
  forall (i : nat) (w : W) (u : unit),
  let o := run h (for_each (enumerate_from i fs)
                    (write_default_font resource_open) u) w in
  (forall ne, ne ∈ flat_map opened (trace o) ->
     exists name, name ∈ FONT_FILENAMES /\ ne ∈ font_files name) /\
  exists k,
    (k <= length fs)%nat /\
    ((i <= 5)%nat -> (i + k <= 5)%nat) /\
    flat_map exported (trace o) = take k fs /\
    match outcome o with
    | inr _ => k = length fs
    | inl e =>
        failures (trace o) = 0%nat ->
        e = IndexError /\
        ((i <= 5)%nat -> (i + k = 5)%nat /\ (k < length fs)%nat)
    end.
Proof.
  induction fs as [|font fs IH]; intros i w u; cbv zeta.
  - cbn [enumerate_from for_each run outcome trace length flat_map].
    split; [intros ne Hne; by apply elem_of_nil in Hne|].
    exists 0%nat. repeat split; try done; lia.
  - cbn [enumerate_from for_each]. rewrite run_bind.
    pose proof (write_default_font_run i font u w) as Hstep.
    cbv zeta in Hstep.
    destruct (FONT_FILENAMES !! i) as [name|] eqn:Hname.
    + assert (i < 5)%nat as Hi by (by apply lookup_lt_Some in Hname).
      destruct Hstep as [Hop Hcase].
      destruct (outcome (run h (write_default_font resource_open (i, font) u)
                           w)) as [e|[]].
      * destruct Hcase as [Hex Hfail]. cbn [outcome world trace].
        split.
        { intros ne Hne. exists name.
          split; [by eapply list_elem_of_lookup_2|by apply Hop]. }
        exists 0%nat. rewrite Hex. cbn [length take].
        repeat split; try done; lia.
      * destruct Hcase as [Hex Hfail].
        destruct (IH (S i)
                    (world (run h (write_default_font resource_open
                                     (i, font) u) w)) tt)
          as (Hop' & k & Hk & Hfive & Hex' & Hcase').
        cbn [outcome world trace].
        split.
        { intros ne Hne. rewrite flat_map_app in Hne.
          apply elem_of_app in Hne as [Hne|Hne]; [|by apply Hop'].
          exists name.
          split; [by eapply list_elem_of_lookup_2|by apply Hop]. }
        exists (S k). rewrite flat_map_app, Hex, Hex'. cbn [length take app].
        split; [lia|]. split; [lia|]. split; [done|].
        destruct (outcome (run h (for_each _ _ _) _)) as [e|[]];
          cbn [outcome]; [|lia].
        rewrite failures_app, Hfail. cbn [Nat.add]. intros Hnone.
        destruct (Hcase' Hnone) as [-> Hk5]. split; [done|]. lia.
    + destruct Hstep as [Hout Htr]. rewrite Hout, Htr.
      cbn [outcome world trace flat_map].
      split; [intros ne Hne; by apply elem_of_nil in Hne|].
      apply lookup_ge_None in Hname. change (length FONT_FILENAMES) with 5%nat
        in Hname.
      exists 0%nat. cbn [length take].
      repeat split; try done; lia.
Qed.

(** X6.  A module with more than five fonts cannot be exported: the call
    raises, whatever the project does.  The credits image is not opened;
    the fonts written are an initial part of the first five; and when no
    call on the project fails, the exception is the [IndexError] of
    [FONT_FILENAMES[5]], raised after the first five fonts have been
    written. *)
Theorem write_to_project_rejects_extension_fonts (self : FontModule)
    (w : W) :
  (5 < length (fonts self))%nat ->
  let o := run h (write_to_project self resource_open) w in
  (exists e, outcome o = inl e) /\
  (("Fonts/credits", "png")%string ∉ flat_map opened (trace o)) /\
  (exists k, (k <= 5)%nat /\
     flat_map exported (trace o) = take k (fonts self)) /\
  (failures (trace o) = 0%nat ->
   outcome o = inl IndexError /\
   flat_map exported (trace o) = take 5 (fonts self)).
Proof.
  intros Hmany. cbv zeta. unfold write_to_project, enumerate.
  rewrite run_bind.
  destruct (write_default_fonts_run (fonts self) 0 w tt)
    as (Hop & k & Hk & Hfive & Hex & Hcase).
  specialize (Hfive ltac:(lia)).
  destruct (outcome (run h (for_each (enumerate_from 0 (fonts self))
              (write_default_font resource_open) tt) w)) as [e|[]];
    [|lia].
  cbn [outcome world trace].
  split; [by exists e|]. split.
  { intros Hin. destruct (Hop _ Hin) as (name & Hname & Hfiles).
    by destruct (default_font_files _ _ Hname Hfiles) as [Hne _]. }
  split; [exists k; split; [lia|done]|].
  intros Hnone. destruct (Hcase Hnone) as [-> Hk5].
  destruct (Hk5 ltac:(lia)) as [Hk5' _]. split; [done|].
  rewrite Hex. f_equal. lia.
Qed.

Lemma read_default_font_run (i : nat) (font : EbFont) (acc : list EbFont)
    (w : W) :
  let o := run h (read_default_font resource_open (i, font) acc) w in
  match FONT_FILENAMES !! i with
  | None => outcome o = inl IndexError /\ trace o = []
  | Some name =>
      (forall ne, ne ∈ flat_map opened (trace o) -> ne ∈ font_files name) /\
      match outcome o with
      | inr _ =>
          length (flat_map loaded (trace o)) = 1%nat /\
          failures (trace o) = 0%nat
      | inl _ =>
          flat_map loaded (trace o) = [] /\ failures (trace o) <> 0%nat
      end
  end.
Proof.
  cbv zeta. unfold read_default_font.
  rewrite run_bind, run_lift. cbn [outcome world trace]. unfold getitem.
  destruct (FONT_FILENAMES !! i) as [name|]; [|done].
  cbn [app]. rewrite run_bind.
  destruct (font_from_project_run h resource_open name font w)
    as (_ & Hop & Hcase).
  destruct (run h (font_from_project resource_open name font) w)
    as [[e|font'] w' tr]; cbn [outcome world trace run] in *.
  - destruct Hcase as (Hl & _ & Hfail). split; [done|]. split; [done|].
    intros Hnone. apply failures_succeeded in Hnone. congruence.
  - destruct Hcase as (_ & Hl & Hsucc). rewrite app_nil_r.
    split; [done|]. split; [by rewrite Hl|].
    by apply failures_succeeded.
Qed.

(** The first loop of [read_from_project], however it ends. *)
Lemma read_default_fonts_run (fs : list EbFont) :
  forall (i : nat) (acc : list EbFont) (w : W),
  let o := run h (for_each (enumerate_from i fs)
                    (read_default_font resource_open) acc) w in
  let k := length (flat_map loaded (trace o)) in
  (forall ne, ne ∈ flat_map opened (trace o) ->
     exists name, name ∈ FONT_FILENAMES /\ ne ∈ font_files name) /\
  (k <= length fs)%nat /\
  ((i <= 5)%nat -> (i + k <= 5)%nat) /\
  match outcome o with
  | inr _ => k = length fs
  | inl e =>
      failures (trace o) = 0%nat ->
      e = IndexError /\
      ((i <= 5)%nat -> (i + k = 5)%nat /\ (k < length fs)%nat)
  end.
Proof.
  induction fs as [|font fs IH]; intros i acc w; cbv zeta.
  - cbn [enumerate_from for_each run outcome trace length flat_map].
    split; [intros ne Hne; by apply elem_of_nil in Hne|].
    repeat split; try done; lia.
  - cbn [enumerate_from for_each]. rewrite run_bind.
    pose proof (read_default_font_run i font acc w) as Hstep.
    cbv zeta in Hstep.
    destruct (FONT_FILENAMES !! i) as [name|] eqn:Hname.
    + assert (i < 5)%nat as Hi by (by apply lookup_lt_Some in Hname).
      destruct Hstep as [Hop Hcase].
      destruct (outcome (run h (read_default_font resource_open (i, font)
                                  acc) w)) as [e|acc1].
      * destruct Hcase as [Hl Hfail]. cbn [outcome world trace].
        split.
        { intros ne Hne. exists name.
          split; [by eapply list_elem_of_lookup_2|by apply Hop]. }
        rewrite Hl. cbn [length]. repeat split; try done; lia.
      * destruct Hcase as [Hl Hfail].
        destruct (IH (S i) acc1
                    (world (run h (read_default_font resource_open
                                     (i, font) acc) w)))
          as (Hop' & Hk & Hfive & Hcase').
        cbn [outcome world trace].
        split.
        { intros ne Hne. rewrite flat_map_app in Hne.
          apply elem_of_app in Hne as [Hne|Hne]; [|by apply Hop'].
          exists name.
          split; [by eapply list_elem_of_lookup_2|by apply Hop]. }
        rewrite flat_map_app, length_app, Hl. cbn [length].
        split; [lia|]. split; [lia|].
        destruct (outcome (run h (for_each _ _ _) _)) as [e|acc2];
          cbn [outcome]; [|lia].
        rewrite failures_app, Hfail. cbn [Nat.add]. intros Hnone.
        destruct (Hcase' Hnone) as [-> Hk5]. split; [done|]. lia.
    + destruct Hstep as [Hout Htr]. rewrite Hout, Htr.
      cbn [outcome world trace flat_map length].
      split; [intros ne Hne; by apply elem_of_nil in Hne|].
      apply lookup_ge_None in Hname. change (length FONT_FILENAMES) with 5%nat
        in Hname.
      repeat split; try done; lia.
Qed.

(** X8.  A module that already holds more than five fonts cannot import a
    project: the call raises in its first loop.  No file is opened but those
    of the five default fonts, so no font numbered 5 or more is probed and
    the credits image is not opened; at most five fonts are loaded; and when
    no call on the project fails, the exception is the [IndexError] of
    [FONT_FILENAMES[5]], raised after five fonts have been loaded. *)
Theorem read_from_project_rejects_extension_fonts (self : FontModule)
    (w : W) :
  (5 < length (fonts self))%nat ->
  let o := run h (read_from_project self resource_open) w in
  (exists e, outcome o = inl e) /\
  (("Fonts/credits", "png")%string ∉ flat_map opened (trace o)) /\
  (forall i : nat, (5 <= i)%nat ->
     ("Fonts/" +:+ pretty i, "png")%string ∉ flat_map opened (trace o)) /\
  (length (flat_map loaded (trace o)) <= 5)%nat /\
  (failures (trace o) = 0%nat ->
   outcome o = inl IndexError /\
   length (flat_map loaded (trace o)) = 5%nat).
Proof.
  intros Hmany. cbv zeta. unfold read_from_project, enumerate.
  rewrite run_bind.
  destruct (read_default_fonts_run (fonts self) 0 (fonts self) w)
    as (Hop & Hk & Hfive & Hcase).
  specialize (Hfive ltac:(lia)).
  destruct (outcome (run h (for_each (enumerate_from 0 (fonts self))
              (read_default_font resource_open) (fonts self)) w))
    as [e|fs1]; [|lia].
  cbn [outcome world trace].
  split; [by exists e|]. split.
  { intros Hin. destruct (Hop _ Hin) as (name & Hname & Hfiles).
    by destruct (default_font_files _ _ Hname Hfiles) as [Hne _]. }
  split.
  { intros i Hi Hin. destruct (Hop _ Hin) as (name & Hname & Hfiles).
    destruct (default_font_files _ _ Hname Hfiles) as [_ Hne].
    by apply (Hne i Hi). }
  split; [lia|].
  intros Hnone. destruct (Hcase Hnone) as [-> Hk5]. split; [done|]. lia.
Qed.

(** The discovery loop: every font it appends was loaded from the two files
    of the index at its position. *)
Lemma append_new_fonts_pairs (indices : list nat) :
  forall (fs : list EbFont) (w : W),
  let o := run h (append_new_fonts resource_open indices fs) w in
  exists extras,
    outcome o = inr (fs ++ extras) /\
    forall j font, extras !! j = Some font ->
      exists i ff before after,
        indices !! j = Some i /\
        trace o
        = before
          ++ font_read_events resource_open (pretty i)
               (new_EbFont 128 16 16) ff font
          ++ after.
Proof.
  induction indices as [|i rest IH]; intros fs w; cbv zeta.
  - exists []. cbn. rewrite app_nil_r. split; [done|].
    intros j font Hj. by rewrite lookup_nil in Hj.
  - cbn [append_new_fonts]. rewrite run_bind, run_try_except.
    cbn [outcome world trace]. unfold probe_font.
    destruct (font_from_project_run h resource_open (pretty i)
                (new_EbFont 128 16 16) w) as (_ & _ & Hcase).
    destruct (run h (font_from_project resource_open (pretty i)
                       (new_EbFont 128 16 16)) w)
      as [[e|font0] w' tr]; cbn [outcome world trace run] in *.
    + exists []. rewrite app_nil_r. split; [done|].
      intros j font Hj. by rewrite lookup_nil in Hj.
    + destruct Hcase as ([ff0 ->] & _).
      destruct (IH (fs ++ [font0]) w') as (extras & Hout & Hpairs).
      exists (font0 :: extras). rewrite Hout, <- app_assoc.
      split; [done|].
      intros [|j] font Hj; cbn in Hj.
      * injection Hj as <-. exists i, ff0, [].
        by exists (trace (run h (append_new_fonts resource_open rest
                                   (fs ++ [font0])) w')).
      * destruct (Hpairs j font Hj) as (i' & ff & before & after & Hi' & Htr).
        exists i', ff,
          (font_read_events resource_open (pretty i) (new_EbFont 128 16 16)
             ff0 font0 ++ before), after.
        split; [done|]. rewrite Htr. by rewrite <- !app_assoc.
Qed.

(** A project import that succeeds, call by call. *)
Lemma read_from_project_trace (self self' : FontModule) (w : W) :
  let o := run h (read_from_project self resource_open) w in
  outcome o = inr self' ->
  exists handles fonts' w1 image_file c,
    let d := run h (append_new_fonts resource_open (range 5 MAX_FONT_INDEX)
                      fonts') w1 in
    length handles = length (fonts self) /\
    length fonts' = length (fonts self) /\
    fonts self' = fonts' ++ flat_map loaded (trace d) /\
    outcome d = inr (fonts self') /\
    trace o
    = concat (zip_with
                (fun nf hf => font_read_events resource_open nf.1 nf.2
                                hf.1 hf.2)
                (zip FONT_FILENAMES (fonts self)) (zip handles fonts'))
      ++ trace d
      ++ [ Ev (ResourceOpen resource_open "Fonts/credits" "png" false)
             (inr image_file);
           Ev (CreditsFromFiles (credits_font self) image_file) (inr c) ].
Proof.
  cbv zeta. unfold read_from_project, enumerate.
  rewrite run_bind.
  destruct (outcome (run h (for_each (enumerate_from 0 (fonts self))
              (read_default_font resource_open) (fonts self)) w))
    as [e|fs1] eqn:Hbase; [done|].
  apply read_default_fonts_inr in Hbase
    as (Hfive & handles & fonts' & Hlh & Hlf & -> & Htr); [|simpl; lia].
  rewrite Htr. cbn [outcome world trace]. rewrite run_bind.
  rewrite take_0, Nat.add_0_l, drop_all, app_nil_r, drop_0. cbn [app].
  match goal with |- context [run h (append_new_fonts _ _ fonts') ?w1] =>
    destruct (append_new_fonts_run h resource_open (range 5 MAX_FONT_INDEX)
                fonts' w1) as (Hout & _);
    rewrite Hout;
    set (d := run h (append_new_fonts resource_open
                       (range 5 MAX_FONT_INDEX) fonts') w1) in *;
    set (w1' := w1) in *
  end.
  cbn [outcome world trace].
  unfold read_credits_font_from_project.
  rewrite run_bind, run_call.
  destruct (h _ (ResourceOpen resource_open "Fonts/credits" "png" false)
              (world d)) as [[e|image_file] w2];
    cbn [fst snd outcome world trace]; [done|].
  rewrite run_bind, run_call.
  destruct (h _ (CreditsFromFiles (credits_font _) image_file) w2)
    as [[e|c] w3]; cbn [fst snd outcome world trace run]; [done|].
  intros Heq. injection Heq as <-.
  cbn [with_credits_font with_fonts fonts credits_font].
  exists handles, fonts', w1', image_file, c. cbv zeta. fold d.
  split; [done|]. split; [done|]. split; [done|]. split; [done|].
  by rewrite app_nil_r, <- ?app_assoc.
Qed.

(** X9.  A project import that returns has had at most one failed call, and
    that call is the last one of the discovery loop: the calls before the
    loop, which open the files of the default fonts, and the two calls after
    it, which read the credits font, all succeeded, and inside the loop no
    file is opened but those of a font numbered from 5 to 63. *)
Theorem read_from_project_fails_only_in_discovery (self self' : FontModule)
    (w : W) :
  let o := run h (read_from_project self resource_open) w in
  outcome o = inr self' ->
  (failures (trace o) <= 1)%nat /\
  exists base disc cred,
    trace o = base ++ disc ++ cred /\
    failures base = 0%nat /\
    failures cred = 0%nat /\
    until_failure disc = disc /\
    (forall ne, ne ∈ flat_map opened base ->
       exists name, name ∈ FONT_FILENAMES /\ ne ∈ font_files name) /\
    (forall ne, ne ∈ flat_map opened disc ->
       exists i, (5 <= i < 64)%nat /\ ne ∈ font_files (pretty i)) /\
    flat_map opened cred = [("Fonts/credits", "png")%string] /\
    fonts self'
    = take (length (fonts self)) (fonts self') ++ flat_map loaded disc.
Proof.
  cbv zeta. intros Hok.
  destruct (read_from_project_trace _ _ _ Hok)
    as (handles & fonts' & w1 & image_file & c & Hlh & Hlf & Hfonts & _
        & Htr).
  cbv zeta in Hfonts, Htr.
  destruct (append_new_fonts_run h resource_open (range 5 MAX_FONT_INDEX)
              fonts' w1) as (_ & _ & _ & Hop & Hun).
  set (d := run h (append_new_fonts resource_open (range 5 MAX_FONT_INDEX)
                     fonts') w1) in *.
  rewrite Htr.
  assert (failures (trace d) <= 1)%nat as Hone
    by (by apply failures_until_failure).
  split.
  { rewrite !failures_app, succeeded_read_events. cbn [failures succeeded].
    lia. }
  eexists _, (trace d), _. split; [reflexivity|].
  split; [apply succeeded_read_events|]. split; [done|]. split; [done|].
  split.
  { intros ne Hne. apply opened_read_events in Hne as (nf & Hnf & Hfiles).
    exists nf.1. split; [|done].
    destruct nf as [name font]. apply elem_of_zip_l in Hnf. done. }
  split.
  { intros ne Hne. destruct (Hop ne Hne) as (i & Hi & Hfiles).
    exists i. split; [|done].
    unfold range in Hi. apply elem_of_seq in Hi.
    change (MAX_FONT_INDEX - 5)%nat with 59%nat in Hi. lia. }
  split; [done|].
  rewrite Hfonts at 1. f_equal.
  rewrite Hfonts, <- Hlf. by rewrite take_app_length.
Qed.

(** X10.  After a project import that succeeds, the font at position
    [len(fonts) + j] of the module, counting from the fonts it had before,
    is the one loaded from the two files of font number [5 + j]: in a module
    that started with its five default fonts, the extension font at index
    [k] comes from [Fonts/k] and [Fonts/k_widths]. *)
Theorem read_from_project_numbers_extension_fonts (self self' : FontModule)
    (w : W) (j : nat) (font : EbFont) :
  let o := run h (read_from_project self resource_open) w in
  outcome o = inr self' ->
  fonts self' !! (length (fonts self) + j)%nat = Some font ->
  (5 + j < 64)%nat /\
  exists ff before after,
    trace o
    = before
      ++ font_read_events resource_open (pretty (5 + j)%nat)
           (new_EbFont 128 16 16) ff font
      ++ after.
Proof.
  cbv zeta. intros Hok Hj.
  destruct (read_from_project_trace _ _ _ Hok)
    as (handles & fonts' & w1 & image_file & c & Hlh & Hlf & Hfonts & Hout
        & Htr).
  cbv zeta in Hfonts, Hout, Htr.
  destruct (append_new_fonts_pairs (range 5 MAX_FONT_INDEX) fonts' w1)
    as (extras & Hout' & Hpairs).
  cbv zeta in Hout'. rewrite Hout' in Hout. injection Hout as Hsame.
  rewrite <- Hsame in Hj. rewrite <- Hlf in Hj.
  rewrite lookup_app_r in Hj by lia.
  replace (length fonts' + j - length fonts')%nat with j in Hj by lia.
  destruct (Hpairs j font Hj) as (i & ff & before & after & Hi & Hd).
  unfold range in Hi. apply lookup_seq in Hi as [-> Hlt].
  change (MAX_FONT_INDEX - 5)%nat with 59%nat in Hlt.
  split; [lia|].
  rewrite Htr, Hd.
  exists ff,
    (concat (zip_with
               (fun nf hf => font_read_events resource_open nf.1 nf.2
                               hf.1 hf.2)
               (zip FONT_FILENAMES (fonts self)) (zip handles fonts'))
     ++ before),
    (after
     ++ [ Ev (ResourceOpen resource_open "Fonts/credits" "png" false)
            (inr image_file);
          Ev (CreditsFromFiles (credits_font self) image_file) (inr c) ]).
  by rewrite <- !app_assoc.
Qed.

End ProjectOrder.

Lemma write_to_project_rejects_extension_fonts_witness :
  (5 < length (fonts example_module))%nat /\
  outcome example_export = inl IndexError /\
  flat_map exported (trace example_export) = take 5 (fonts example_module).
Proof.
  assert (5 < length (fonts example_module))%nat as Hmany
    by (vm_compute; lia).
  split; [exact Hmany|].
  destruct (write_to_project_rejects_extension_fonts project_handler Writer
              example_module empty_project Hmany) as (_ & _ & _ & Hnone).
  apply Hnone. vm_compute. reflexivity.
Defined.

Lemma read_from_project_rejects_extension_fonts_witness :
  (5 < length (fonts example_module))%nat /\
  outcome example_reimport = inl IndexError /\
  ("Fonts/" +:+ pretty 5%nat, "png")%string
  ∉ flat_map opened (trace example_reimport).
Proof.
  assert (5 < length (fonts example_module))%nat as Hmany
    by (vm_compute; lia).
  split; [exact Hmany|].
  destruct (read_from_project_rejects_extension_fonts project_handler Reader
              example_module ended_project Hmany)
    as (_ & _ & Hprobe & _ & Hnone).
  split; [apply Hnone; vm_compute; reflexivity|].
  apply Hprobe. lia.
Defined.

Lemma read_from_project_fails_only_in_discovery_witness :
  (exists self, outcome (example_import ended_project) = inr self) /\
  failures (trace (example_import ended_project)) = 1%nat /\
  (failures (trace (example_import ended_project)) <= 1)%nat.
Proof.
  assert (exists self, outcome (example_import ended_project) = inr self)
    as [self Hok] by (eexists; vm_compute; reflexivity).
  split; [by exists self|]. split; [vm_compute; reflexivity|].
  apply (read_from_project_fails_only_in_discovery project_handler Reader
           example_init self ended_project Hok).
Defined.

Lemma read_from_project_numbers_extension_fonts_witness :
  exists self font,
    outcome (example_import ended_project) = inr self /\
    fonts self !! 6%nat = Some font /\
    exists ff before after,
      trace (example_import ended_project)
      = before
        ++ font_read_events Reader (pretty 6%nat) (new_EbFont 128 16 16) ff
             font
        ++ after.
Proof.
  assert (exists self, outcome (example_import ended_project) = inr self)
    as [self Hok] by (eexists; vm_compute; reflexivity).
  assert (exists font, fonts self !! 6%nat = Some font) as [font Hfont].
  { assert (length (fonts self) = 7%nat) as Hlen.
    { assert (match outcome (example_import ended_project) with
              | inr s => length (fonts s) = 7%nat
              | inl _ => False
              end) as Hl by (vm_compute; reflexivity).
      by rewrite Hok in Hl. }
    apply lookup_lt_is_Some_2. lia. }
  exists self, font. split; [exact Hok|]. split; [exact Hfont|].
  apply (read_from_project_numbers_extension_fonts project_handler Reader
           example_init self ended_project 1 font Hok Hfont).
Defined.

(** ** The version 5 step, applied again *)

(** X11.  Expanding a width table that has been expanded changes nothing;
    the characters of an expanded table are those it had and those from 96
    to 127. *)
Theorem expand_widths_idempotent (widths_dict : gmap Z Z) :
  expand_widths (expand_widths widths_dict) = expand_widths widths_dict /\
  forall c, is_Some (expand_widths widths_dict !! c)
            <-> is_Some (widths_dict !! c) \/ 96 <= c < 128.
Proof.
  split.
  - apply map_eq. intros c. rewrite !expand_widths_lookup.
    by destruct (decide (96 <= c < 128)).
  - intros c. rewrite expand_widths_lookup.
    destruct (decide (96 <= c < 128)) as [Hc|Hc].
    + split; [by right|]. intros _. by eexists.
    + split; [by left|]. by intros [?|?].
Qed.

(** X12.  Expanding an image that has been expanded to the same size gives
    the same image: the same size, the same palette and the same index at
    every pixel. *)
Theorem expand_image_idempotent (palette : list Z) (image : Image)
    (w h : Z) :
  0 <= w -> 0 <= h ->
  exists once twice,
    expand_image palette image w h = Ret once /\
    expand_image palette once w h = Ret twice /\
    im_width twice = im_width once /\
    im_height twice = im_height once /\
    im_palette twice = im_palette once /\
    forall xy, getpixel twice xy = getpixel once xy.
Proof.
  intros Hw Hh.
  destruct (expand_image_ret palette image w h Hw Hh)
    as (once & Honce & Hw1 & Hh1 & Hp1 & Hpix1).
  destruct (expand_image_ret palette once w h Hw Hh)
    as (twice & Htwice & Hw2 & Hh2 & Hp2 & Hpix2).
  exists once, twice. split; [done|]. split; [done|].
  split; [congruence|]. split; [congruence|]. split; [congruence|].
  intros xy. destruct (decide (in_image twice xy)) as [Hin|Hout].
  - rewrite (Hpix2 xy Hin).
    assert (in_image once xy) as Hin1
      by (unfold in_image in *; by rewrite Hw1, Hh1, <- Hw2, <- Hh2).
    by rewrite (Hpix1 xy Hin1).
  - unfold getpixel. rewrite decide_False by done.
    rewrite decide_False; [done|].
    unfold in_image in *. by rewrite Hw1, Hh1, <- Hw2, <- Hh2.
Qed.

Lemma expand_image_idempotent_witness :
  exists once twice,
    expand_image example_palette old_image 16 8 = Ret once /\
    expand_image example_palette once 16 8 = Ret twice /\
    getpixel twice (3, 6) = getpixel once (3, 6).
Proof.
  destruct (expand_image_idempotent example_palette old_image 16 8)
    as (once & twice & H1 & H2 & _ & _ & _ & Hpix); [lia|lia|].
  exists once, twice. split; [exact H1|]. split; [exact H2|]. apply Hpix.
Defined.

(** ** The steps of the migration walk *)

Section MigrationSteps.

Variable image_size : EbFont -> Z * Z.
Variable FONT_IMAGE_PALETTE : list Z.
Context {W : Type} (h : Handler W).

Local Notation "'upgrade'" :=
  (upgrade_project image_size FONT_IMAGE_PALETTE).

(** Steps that only move to the next version. *)
Lemma upgrade_project_idle (depth : nat) :
  forall (old_version new_version : Z) (self : FontModule) (r w : Opener),
  3 <= old_version ->
  old_version <= new_version ->
  new_version <= 5 \/ 6 <= old_version ->
  (Z.to_nat (new_version - old_version) < depth)%nat ->
  upgrade depth self old_version new_version r w = Ret (Returned self).
Proof.
  induction depth as [|depth IH];
    intros old_version new_version self r w H3 Hle Hno Hdepth; [lia|].
  cbn [upgrade_project].
  destruct (decide (old_version = new_version)) as [|Hne]; [done|].
  destruct (decide (old_version = 5)); [lia|].
  destruct (decide (old_version <= 2)); [lia|].
  apply IH; lia.
Qed.

(** X13.  Between two versions from 3 on with no version 5 step between them
    -- a target of at most 5, or a start of at least 6 -- the walk makes no
    call and returns the module as it is, at any depth of recursion greater
    than the number of versions apart. *)
Theorem upgrade_project_no_font_change (depth : nat) :
  forall (old_version new_version : Z) (self : FontModule) (r w : Opener),
  3 <= old_version ->
  old_version <= new_version ->
  new_version <= 5 \/ 6 <= old_version ->
  (Z.to_nat (new_version - old_version) < depth)%nat ->
  upgrade depth self old_version new_version r w = Ret (Returned self).
Proof. apply upgrade_project_idle. Qed.

(** Below the depth it needs, a walk between versions from 3 to 5 has not
    returned. *)
Lemma upgrade_project_too_shallow (depth : nat) :
  forall (old_version new_version : Z) (self self' : FontModule)
         (r w : Opener) (w0 : W),
  3 <= old_version ->
  new_version <= 5 ->
  (depth <= Z.to_nat (new_version - old_version))%nat ->
  outcome (run h (upgrade depth self old_version new_version r w) w0)
  <> inr (Returned self').
Proof.
  induction depth as [|depth IH];
    intros old_version new_version self self' r w w0 H3 H5 Hdepth; [done|].
  cbn [upgrade_project].
  destruct (decide (old_version = new_version)); [lia|].
  destruct (decide (old_version = 5)); [lia|].
  destruct (decide (old_version <= 2)); [lia|].
  apply IH; lia.
Qed.

(** X14.  From a version up to 2 to a target from 3 to 5, a walk that returns
    has made three calls: the credits font of the module read itself from
    the ROM, [Fonts/credits] was opened with the opener for writing, and the
    font as it was just read was written to it.  The module returned holds
    that font and is otherwise unchanged. *)
Theorem upgrade_project_credits_step (depth : nat)
    (old_version new_version : Z) (self self' : FontModule) (r w : Opener)
    (world0 : W) :
  old_version <= 2 ->
  3 <= new_version <= 5 ->
  let o := run h (upgrade depth self old_version new_version r w) world0 in
  outcome o = inr (Returned self') ->
  exists c image_file,
    trace o
    = [ Ev (CreditsFromBlock (credits_font self)
              CREDITS_GRAPHICS_ASM_POINTER CREDITS_PALETTES_ADDRESS)
          (inr c);
        Ev (ResourceOpen w "Fonts/credits" "png" false) (inr image_file);
        Ev (CreditsToFiles c image_file) (inr tt) ] /\
    self' = with_credits_font self c.
Proof.
  intros Hold Hnew. cbv zeta.
  destruct depth as [|depth]; [done|].
  cbn [upgrade_project].
  destruct (decide (old_version = new_version)); [lia|].
  destruct (decide (old_version = 5)); [lia|].
  destruct (decide (old_version <= 2)); [|lia].
  unfold read_credits_font_from_rom, write_credits_font_to_project.
  rewrite run_bind, run_bind, run_call.
  destruct (h _ (CreditsFromBlock (credits_font self) _ _) world0)
    as [[e|c] w1]; cbn [fst snd outcome world trace run]; [done|].
  rewrite run_bind, run_bind, run_call.
  cbn [with_credits_font credits_font].
  destruct (h _ (ResourceOpen w "Fonts/credits" "png" false) w1)
    as [[e|image_file] w2]; cbn [fst snd outcome world trace run]; [done|].
  rewrite run_call.
  destruct (h _ (CreditsToFiles c image_file) w2)
    as [[e|[]] w3]; cbn [fst snd outcome world trace run]; [done|].
  destruct (decide (Z.to_nat (new_version - 3) < depth)%nat) as [Hd|Hd].
  - rewrite upgrade_project_idle by lia.
    cbn [run outcome trace]. intros Heq. injection Heq as <-.
    exists c, image_file. by rewrite !app_nil_r.
  - intros Hret. exfalso. revert Hret.
    apply upgrade_project_too_shallow; lia.
Qed.

(** X15.  From version 5 to a target of 6 or more, the walk is the expansion
    loop and nothing else: it makes the calls of the loop over the fonts of
    the module, once, raises what the loop raises, and otherwise returns the
    module as it is, at any depth of recursion greater than the number of
    versions apart. *)
Theorem upgrade_project_expands_once (depth : nat) (new_version : Z)
    (self : FontModule) (r w : Opener) (world0 : W) :
  6 <= new_version ->
  (Z.to_nat (new_version - 5) < depth)%nat ->
  let o := run h (upgrade depth self 5 new_version r w) world0 in
  let l := run h (for_each (enumerate (fonts self))
                    (expand_font image_size FONT_IMAGE_PALETTE r w) tt)
             world0 in
  trace o = trace l /\
  world o = world l /\
  outcome o = match outcome l with
              | inl e => inl e
              | inr _ => inr (Returned self)
              end.
Proof.
  intros Hnew Hdepth. cbv zeta.
  destruct depth as [|depth]; [lia|].
  cbn [upgrade_project].
  destruct (decide (5 = new_version)); [lia|].
  destruct (decide (5 = 5)) as [_|?]; [|done].
  rewrite run_bind.
  destruct (outcome (run h (for_each (enumerate (fonts self))
              (expand_font image_size FONT_IMAGE_PALETTE r w) tt) world0))
    as [e|[]]; [done|].
  rewrite upgrade_project_idle by lia.
  cbn [run outcome world trace]. by rewrite app_nil_r.
Qed.

End MigrationSteps.

Lemma upgrade_project_no_font_change_witness :
  3 <= 6 /\ 6 <= 9 /\
  upgrade_project example_image_size example_palette 4 example_init 6 9
    Reader Writer
  = Ret (Returned example_init).
Proof.
  split; [lia|]. split; [lia|].
  apply (upgrade_project_no_font_change example_image_size example_palette
           4 6 9 example_init Reader Writer); [lia|lia|right; lia|].
  vm_compute. lia.
Defined.

Lemma upgrade_project_credits_step_witness :
  1 <= 2 /\ 3 <= 4 <= 5 /\
  exists self c,
    outcome (run (credits_handler (credits_font example_module))
               (upgrade_project example_image_size example_palette 4
                  example_init 1 4 Reader Writer)
               empty_project)
    = inr (Returned self) /\
    self = with_credits_font example_init c.
Proof.
  split; [lia|]. split; [lia|].
  assert (exists self,
            outcome (run (credits_handler (credits_font example_module))
                       (upgrade_project example_image_size example_palette 4
                          example_init 1 4 Reader Writer)
                       empty_project)
            = inr (Returned self)) as [self Hok]
    by (eexists; vm_compute; reflexivity).
  destruct (upgrade_project_credits_step example_image_size example_palette
              (credits_handler (credits_font example_module)) 4 1 4
              example_init self Reader Writer empty_project
              ltac:(lia) ltac:(lia) Hok) as (c & image_file & _ & Hself).
  exists self, c. split; [exact Hok|exact Hself].
Defined.

Lemma upgrade_project_expands_once_witness :
  6 <= 7 /\
  trace (run project_handler
           (upgrade_project example_image_size example_palette 3
              (with_fonts example_init [old_font]) 5 7 Reader Writer)
           old_project)
  = trace (run project_handler
             (for_each (enumerate [old_font])
                (expand_font example_image_size example_palette Reader
                   Writer) tt)
             old_project).
Proof.
  split; [lia|].
  refine (proj1 (upgrade_project_expands_once example_image_size
                   example_palette project_handler 3 7
                   (with_fonts example_init [old_font]) Reader Writer
                   old_project _ _)); [lia|vm_compute; lia].
Defined.

(** ** The rows the write pass is handed *)

(** X3.  A write pass succeeds only if every row it was read with, up to the
    number of fonts, has at least four fields; what such a row holds past
    the fourth field is kept in the table written. *)
Theorem write_to_rom_needs_four_fields {W : Type} (h : Handler W)
    (from_snes_address to_snes_address : Z -> result Z)
    (self self' : FontModule) (w : W) (vals : list (list Z)) (i : nat)
    (row : list Z) :
  let o := run h (write_to_rom from_snes_address to_snes_address self) w in
  outcome o = inr self' ->
  flat_map untabled (trace o) = [vals] ->
  (i < length (fonts self))%nat ->
  vals !! i = Some row ->
  (4 <= length row)%nat /\
  exists row',
    values (font_pointer_table self') !! i = Some row' /\
    length row' = length row /\
    drop 4 row' = drop 4 row.
Proof.
  cbv zeta. intros Hok.
  destruct (write_to_rom_inr _ _ _ _ _ _ Hok)
    as (at_offset & vals' & offs & new_table_offset & address & _ & _ & Hlo
        & _ & _ & _ & _ & _ & Hrows & ->).
  split_trace.
  rewrite untabled_zip, untabled_map. simpl. rewrite ?app_nil_r.
  intros Heq Hi Hrow. injection Heq as ->.
  destruct (lookup_lt_is_Some_2 (fonts self) i Hi) as [f Hf].
  destruct (lookup_lt_is_Some_2 offs i) as [o Ho]; [lia|].
  destruct (Hrows i f o Hf Ho) as (a0 & a1 & row0 & _ & _ & Hg & Hl & Hrow').
  rewrite grow_spec, lookup_app_l in Hg by (by eapply lookup_lt_Some).
  assert (row0 = row) as -> by congruence.
  split; [done|].
  exists (row_fields a0 a1 f ++ drop 4 row). split; [done|]. split.
  - rewrite length_app, length_drop. unfold row_fields. cbn [length]. lia.
  - by rewrite (drop_app_length' (row_fields a0 a1 f)).
Qed.

Lemma write_to_rom_needs_four_fields_witness :
  (exists self, outcome surplus_pass = inr self /\
     exists row', values (font_pointer_table self) !! 5%nat = Some row' /\
                  length row' = 4%nat).
Proof.
  assert (exists self, outcome surplus_pass = inr self) as [self Hok]
    by (eexists; vm_compute; reflexivity).
  exists self. split; [exact Hok|].
  edestruct (write_to_rom_needs_four_fields example_handler
               example_from_snes_address example_to_snes_address
               surplus_module self example_rom (replicate 8 [0; 0; 0; 0])
               5 [0; 0; 0; 0] Hok)
    as (_ & row' & Hrow' & Hlen & _).
  - vm_compute. reflexivity.
  - vm_compute. lia.
  - reflexivity.
  - exists row'. split; [exact Hrow'|exact Hlen].
Defined.

(** ** What the export raises *)

Lemma succeeded_write_events (resource_open : Opener)
    (names : list (string * EbFont)) :
  forall handles : list (File * File),
  failures (concat (zip_with
                      (fun nf ff => font_write_events resource_open nf.1 nf.2
                                      ff) names handles)) = 0%nat.
Proof.
  induction names as [|nf names IH]; intros [|ff handles]; try done.
  cbn [zip_with concat]. rewrite failures_app, IH. done.
Qed.

Section ExportRaises.

Context {W : Type} (h : Handler W).
Variable resource_open : Opener.

Lemma font_to_project_raises (name : string) (font : EbFont) (w : W)
    (e : exn) :
  let o := run h (font_to_project resource_open name font) w in
  outcome o = inl e ->
  (exists (X : Type) (c : Call X), last (trace o) = Some (Ev c (inl e))) /\
  failures (trace o) = 1%nat.
Proof.
  cbv zeta. unfold font_to_project.
  rewrite run_bind, run_call.
  destruct (h _ (ResourceOpen resource_open ("Fonts/" +:+ name) "png" false)
              w) as [[e1|image_file] w1]; cbn [fst snd outcome world trace].
  { intros Heq. injection Heq as ->. split; [by eexists _, _|done]. }
  rewrite run_bind, run_call.
  destruct (h _ (ResourceOpen resource_open
                   ("Fonts/" +:+ name +:+ "_widths") "yml" true) w1)
    as [[e1|widths_file] w2]; cbn [fst snd outcome world trace].
  { intros Heq. injection Heq as ->. split; [by eexists _, _|done]. }
  rewrite run_call.
  destruct (h _ (FontToFiles font image_file widths_file) w2)
    as [[e1|[]] w3]; cbn [fst snd outcome world trace]; [|done].
  intros Heq. injection Heq as ->. split; [by eexists _, _|done].
Qed.

Lemma write_default_font_raises (i : nat) (font : EbFont) (u : unit)
    (w : W) (e : exn) :
  let o := run h (write_default_font resource_open (i, font) u) w in
  (i < 5)%nat ->
  outcome o = inl e ->
  (exists (X : Type) (c : Call X), last (trace o) = Some (Ev c (inl e))) /\
  failures (trace o) = 1%nat.
Proof.
  cbv zeta. intros Hi. unfold write_default_font.
  rewrite run_bind, run_lift. cbn [outcome world trace]. unfold getitem.
  destruct (FONT_FILENAMES !! i) as [name|] eqn:Hname.
  2: { apply lookup_ge_None in Hname.
       change (length FONT_FILENAMES) with 5%nat in Hname. lia. }
  cbn [app].
  pose proof (font_to_project_raises name font w e) as Hstep.
  cbv zeta in Hstep.
  destruct (run h (font_to_project resource_open name font) w)
    as [[e1|[]] w1 tr1]; cbn [outcome world trace] in *; [|done].
  exact Hstep.
Qed.

Lemma write_default_fonts_raises (fs : list EbFont) :
  forall (i : nat) (w : W) (u : unit) (e : exn),
  let o := run h (for_each (enumerate_from i fs)
                    (write_default_font resource_open) u) w in
  (i + length fs <= 5)%nat ->
  outcome o = inl e ->
  (exists (X : Type) (c : Call X), last (trace o) = Some (Ev c (inl e))) /\
  failures (trace o) = 1%nat.
Proof.
  induction fs as [|font fs IH]; intros i w u e; cbv zeta; [done|].
  cbn [enumerate_from for_each length]. intros Hi.
  rewrite run_bind.
  pose proof (write_default_font_run h resource_open i font u w) as Hrun.
  pose proof (write_default_font_raises i font u w) as Hstep.
  cbv zeta in Hrun, Hstep.
  destruct (FONT_FILENAMES !! i) as [name|] eqn:Hname.
  2: { apply lookup_ge_None in Hname.
       change (length FONT_FILENAMES) with 5%nat in Hname. lia. }
  destruct Hrun as [_ Hrun].
  destruct (outcome (run h (write_default_font resource_open (i, font) u) w))
    as [e1|[]]; cbn [outcome world trace].
  - intros Heq. injection Heq as ->. apply Hstep; [lia|done].
  - destruct Hrun as [_ Hnone]. intros Hrest.
    destruct (IH (S i) _ tt e ltac:(lia) Hrest) as ((X & c & Hlast) & Hone).
    split; [|rewrite failures_app; lia].
    exists X, c. by rewrite last_app, Hlast.
Qed.

(** X7.  The export of a module of at most five fonts raises nothing of its
    own: when it raises, the exception is the one of the last call it made,
    and that call is the only one that failed. *)
Theorem write_to_project_raises_what_the_project_raises
    (self : FontModule) (w : W) (e : exn) :
  (length (fonts self) <= 5)%nat ->
  let o := run h (write_to_project self resource_open) w in
  outcome o = inl e ->
  (exists (X : Type) (c : Call X), last (trace o) = Some (Ev c (inl e))) /\
  failures (trace o) = 1%nat.
Proof.
  intros Hfive. cbv zeta. unfold write_to_project, enumerate.
  rewrite run_bind.
  pose proof (write_default_fonts_raises (fonts self) 0 w tt) as Hloop.
  cbv zeta in Hloop.
  destruct (outcome (run h (for_each (enumerate_from 0 (fonts self))
              (write_default_font resource_open) tt) w)) as [e1|[]] eqn:Hout.
  - cbn [outcome world trace]. intros Heq. injection Heq as ->.
    apply Hloop; [lia|done].
  - apply write_default_fonts_inr in Hout as (_ & handles & _ & Htr).
    set (w1 := world (run h (for_each (enumerate_from 0 (fonts self))
                  (write_default_font resource_open) tt) w)).
    cbn [outcome world trace]. rewrite Htr.
    unfold write_credits_font_to_project.
    rewrite run_bind, run_call.
    destruct (h _ (ResourceOpen resource_open "Fonts/credits" "png" false)
                w1) as [[e1|image_file] w2];
      cbn [fst snd outcome world trace].
    { intros Heq. injection Heq as ->.
      split; [eexists _, _; by rewrite last_snoc|].
      by rewrite failures_app, succeeded_write_events. }
    rewrite run_call.
    destruct (h _ (CreditsToFiles (credits_font self) image_file) w2)
      as [[e1|[]] w3]; cbn [fst snd outcome world trace]; [|done].
    intros Heq. injection Heq as ->.
    split.
    { eexists _, _. rewrite app_assoc. by rewrite last_snoc. }
    by rewrite !failures_app, succeeded_write_events.
Qed.

End ExportRaises.

Lemma write_to_project_raises_what_the_project_raises_witness :
  (length (fonts example_init) <= 5)%nat /\
  outcome (run project_handler (write_to_project example_init Reader)
             empty_project)
  = inl (ResourceMissingError "Fonts/0") /\
  failures (trace (run project_handler
                     (write_to_project example_init Reader) empty_project))
  = 1%nat.
Proof.
  assert (length (fonts example_init) <= 5)%nat as Hfive
    by (vm_compute; lia).
  assert (outcome (run project_handler (write_to_project example_init Reader)
                     empty_project)
          = inl (ResourceMissingError "Fonts/0")) as Hraised
    by (vm_compute; reflexivity).
  split; [exact Hfive|]. split; [exact Hraised|].
  apply (write_to_project_raises_what_the_project_raises project_handler
           Reader example_init empty_project _ Hfive Hraised).
Defined.
